(** * Space-mining: a shallow embedding of the station shop and of the
    simulation loop of the game canvas, with the properties of the design
    document proved (or refuted) on it.

    Numbers.  Every TypeScript [number] that can hold a fraction is a
    rational [Q] with exact arithmetic; counters that the program only ever
    moves by whole steps (cargo counts, loot amounts and life, the drain
    timer) are integers [Z].  Comparisons are the boolean ones of the source
    ([<], [<=], [>], [>=]).  [Math.floor], [Math.ceil], [Math.round],
    [Math.abs] and [Math.max] are the exact functions; [Math.sqrt],
    [Math.cos], [Math.sin], [Math.atan2] and the constant [Math.PI] are
    parameters of the loop (record [MathLib]), and a test [Math.sqrt(d) < r]
    is decided on the squares. *)

From Stdlib Require Import QArith Qround Qabs Qminmax ZArith List Bool Lia Lqa.
From Stdlib Require Import String DecimalString Qpower.
From Stdlib Require DecimalPos DecimalZ.
Import ListNotations.

Local Open Scope Q_scope.

(* ================================================================= *)
(** ** Numbers *)

Module Num.

Definition ltb (x y : Q) : bool := negb (Qle_bool y x).
Definition leb (x y : Q) : bool := Qle_bool x y.
Definition gtb (x y : Q) : bool := ltb y x.
Definition geb (x y : Q) : bool := leb y x.

(** [Math.floor], [Math.ceil], [Math.round] (half up), on exact values. *)
Definition floor (x : Q) : Z := Qfloor x.
Definition ceil (x : Q) : Z := Qceiling x.
Definition round (x : Q) : Z := Qfloor (x + 0.5).

(** [x ** 2]. *)
Definition sq (x : Q) : Q := x * x.

(** [Math.sqrt(d2) < r] and [Math.sqrt(d2) <= r], [Math.sqrt(d2) > r],
    for [d2] a sum of squares, decided without the root. *)
Definition sqrt_ltb (d2 r : Q) : bool := ltb 0 r && ltb d2 (sq r).
Definition sqrt_leb (d2 r : Q) : bool := leb 0 r && leb d2 (sq r).
Definition sqrt_gtb (d2 r : Q) : bool := negb (sqrt_leb d2 r).

(** A whole number in decimal, as a template literal prints it. *)
Definition show (z : Z) : string := NilZero.string_of_int (Z.to_int z).

End Num.

Notation "x <? y" := (Num.ltb x y) : Q_scope.
Notation "x <=? y" := (Num.leb x y) : Q_scope.
Notation "x >? y" := (Num.gtb x y) : Q_scope.
Notation "x >=? y" := (Num.geb x y) : Q_scope.

(* ================================================================= *)
(** ** types.ts *)

Inductive GameState := START | PLAYING | DOCKED | GAMEOVER.

Inductive MineralType := IRON | SILICON | GOLD | KRONOS.

Definition MineralType_eqb (a b : MineralType) : bool :=
  match a, b with
  | IRON, IRON | SILICON, SILICON | GOLD, GOLD | KRONOS, KRONOS => true
  | _, _ => false
  end.

(** The string value of the enum member. *)
Definition mineralName (t : MineralType) : string :=
  match t with
  | IRON => "Iron"
  | SILICON => "Silicon"
  | GOLD => "Gold"
  | KRONOS => "Kronos Crystal"
  end.

Module Point.
Record t := mk { x : Q; y : Q }.
End Point.

Record ShipConfig := mkShipConfig {
  maxFuel : Q;
  fuelConsumptionRate : Q;
  thrustConsumptionRate : Q;
  maxCargo : Q;
  acceleration : Q;
  maxSpeed : Q;
  rotationSpeed : Q;
  miningPower : Q;
  miningRange : Q
}.

(** [{ [key in MineralType]: number }]: one count per mineral, the keys in
    the order of the object literal that creates it (App.tsx). *)
Record Cargo := mkCargo { iron : Z; silicon : Z; gold : Z; kronos : Z }.

Definition cargoKeys : list MineralType := [IRON; SILICON; GOLD; KRONOS].

Definition cargoGet (c : Cargo) (t : MineralType) : Z :=
  match t with
  | IRON => iron c
  | SILICON => silicon c
  | GOLD => gold c
  | KRONOS => kronos c
  end.

Definition cargoSet (c : Cargo) (t : MineralType) (v : Z) : Cargo :=
  match t with
  | IRON => mkCargo v (silicon c) (gold c) (kronos c)
  | SILICON => mkCargo (iron c) v (gold c) (kronos c)
  | GOLD => mkCargo (iron c) (silicon c) v (kronos c)
  | KRONOS => mkCargo (iron c) (silicon c) (gold c) v
  end.

(** [Object.values(cargo).reduce((a,b) => a+b, 0)]. *)
Definition cargoTotal (c : Cargo) : Z :=
  fold_left Z.add (map (cargoGet c) cargoKeys) 0%Z.

(** No count below zero. *)
Definition cargoNonneg (c : Cargo) : Prop :=
  forall t, (0 <= cargoGet c t)%Z.

Record PlayerState := mkPlayerState {
  credits : Q;
  currentFuel : Q;
  cargo : Cargo;
  shipConfig : ShipConfig;
  position : Point.t;
  velocity : Point.t;
  rotation : Q
}.

(* ================================================================= *)
(** ** constants.ts *)

Definition DOCKING_RANGE : Q := 200.
Definition LOOT_COLLECTION_RANGE : Q := 60.
Definition LOOT_DESPAWN_TIME : Z := 1800.

Definition INITIAL_SHIP_CONFIG : ShipConfig :=
  {| maxFuel := 1000;
     fuelConsumptionRate := 0.05;
     thrustConsumptionRate := 0.5;
     maxCargo := 20;
     acceleration := 0.15;
     maxSpeed := 8;
     rotationSpeed := 0.08;
     miningPower := 1.5;
     miningRange := 350 |}.

Module ALIEN_CONFIG.
Definition SPAWN_RATE : Q := 0.001.
Definition HP : Q := 300.
Definition SPEED : Q := 3.
Definition DRAIN_RANGE : Q := 300.
Definition DRAIN_INTERVAL : Z := 45.
Definition COLOR_BODY : string := "#a855f7".
Definition COLOR_LIGHTS : string := "#22c55e".
End ALIEN_CONFIG.

Definition MINERAL_VALUES (t : MineralType) : Q :=
  match t with
  | IRON => 10
  | SILICON => 25
  | GOLD => 100
  | KRONOS => 500
  end.

Definition MINERAL_COLORS (t : MineralType) : string :=
  match t with
  | IRON => "#a3a3a3"
  | SILICON => "#60a5fa"
  | GOLD => "#fbbf24"
  | KRONOS => "#d946ef"
  end.

Definition UPGRADE_COST_BASE : Q := 200.
Definition UPGRADE_COST_MULTIPLIER : Q := 1.8.

(* ================================================================= *)
(** ** components/StationInterface.tsx *)

Module Station.

(** [keyof typeof INITIAL_SHIP_CONFIG]. *)
Inductive StatKey :=
| KmaxFuel | KfuelConsumptionRate | KthrustConsumptionRate | KmaxCargo
| Kacceleration | KmaxSpeed | KrotationSpeed | KminingPower | KminingRange.

Definition statGet (c : ShipConfig) (k : StatKey) : Q :=
  match k with
  | KmaxFuel => maxFuel c
  | KfuelConsumptionRate => fuelConsumptionRate c
  | KthrustConsumptionRate => thrustConsumptionRate c
  | KmaxCargo => maxCargo c
  | Kacceleration => acceleration c
  | KmaxSpeed => maxSpeed c
  | KrotationSpeed => rotationSpeed c
  | KminingPower => miningPower c
  | KminingRange => miningRange c
  end.

Definition statSet (c : ShipConfig) (k : StatKey) (v : Q) : ShipConfig :=
  let f k' := if match k, k' with
                 | KmaxFuel, KmaxFuel
                 | KfuelConsumptionRate, KfuelConsumptionRate
                 | KthrustConsumptionRate, KthrustConsumptionRate
                 | KmaxCargo, KmaxCargo
                 | Kacceleration, Kacceleration
                 | KmaxSpeed, KmaxSpeed
                 | KrotationSpeed, KrotationSpeed
                 | KminingPower, KminingPower
                 | KminingRange, KminingRange => true
                 | _, _ => false
                 end then v else statGet c k' in
  {| maxFuel := f KmaxFuel;
     fuelConsumptionRate := f KfuelConsumptionRate;
     thrustConsumptionRate := f KthrustConsumptionRate;
     maxCargo := f KmaxCargo;
     acceleration := f Kacceleration;
     maxSpeed := f KmaxSpeed;
     rotationSpeed := f KrotationSpeed;
     miningPower := f KminingPower;
     miningRange := f KminingRange |}.

Definition calculateUpgradeCost (level : Z) : Z :=
  Num.floor (UPGRADE_COST_BASE * Qpower UPGRADE_COST_MULTIPLIER level).

Definition getLevel (current initial step : Q) : Z :=
  Num.round ((current - initial) / step).

(** The [forEach] of [sellAll]: the running total and the copy being
    zeroed, one key at a time. *)
Definition sellStep (acc : Q * Cargo) (type : MineralType) : Q * Cargo :=
  let '(totalValue, newCargo) := acc in
  (totalValue + inject_Z (cargoGet newCargo type) * MINERAL_VALUES type,
   cargoSet newCargo type 0%Z).

Definition sellAll (playerState : PlayerState) : PlayerState :=
  let '(totalValue, newCargo) :=
    fold_left sellStep cargoKeys (0, cargo playerState) in
  {| credits := credits playerState + totalValue;
     currentFuel := maxFuel (shipConfig playerState);
     cargo := newCargo;
     shipConfig := shipConfig playerState;
     position := position playerState;
     velocity := velocity playerState;
     rotation := rotation playerState |}.

Definition refuel (playerState : PlayerState) : PlayerState :=
  let fuelNeeded := maxFuel (shipConfig playerState) - currentFuel playerState in
  let cost := inject_Z (Num.ceil (fuelNeeded * 0.1)) in
  if credits playerState >=? cost then
    {| credits := credits playerState - cost;
       currentFuel := maxFuel (shipConfig playerState);
       cargo := cargo playerState;
       shipConfig := shipConfig playerState;
       position := position playerState;
       velocity := velocity playerState;
       rotation := rotation playerState |}
  else
    let fuelAffordable := inject_Z (Num.floor (credits playerState / 0.1)) in
    {| credits := 0;
       currentFuel := currentFuel playerState + fuelAffordable;
       cargo := cargo playerState;
       shipConfig := shipConfig playerState;
       position := position playerState;
       velocity := velocity playerState;
       rotation := rotation playerState |}.

Definition upgradeStat (statKey : StatKey) (step cost : Q)
    (playerState : PlayerState) : PlayerState :=
  if credits playerState >=? cost then
    {| credits := credits playerState - cost;
       currentFuel := currentFuel playerState;
       cargo := cargo playerState;
       shipConfig :=
         statSet (shipConfig playerState) statKey
                 (statGet (shipConfig playerState) statKey + step);
       position := position playerState;
       velocity := velocity playerState;
       rotation := rotation playerState |}
  else playerState.

(** The four INSTALL buttons: the stat, its step, and the cost derived
    from the level the current stat stands for. *)
Inductive Upgrade := Engine | CargoHold | Laser | Tank.

Definition upgradeKey (u : Upgrade) : StatKey :=
  match u with
  | Engine => Kacceleration
  | CargoHold => KmaxCargo
  | Laser => KminingPower
  | Tank => KmaxFuel
  end.

Definition upgradeStep (u : Upgrade) : Q :=
  match u with
  | Engine => 0.02
  | CargoHold => 10
  | Laser => 0.5
  | Tank => 200
  end.

Definition upgradeCost (u : Upgrade) (playerState : PlayerState) : Q :=
  let k := upgradeKey u in
  inject_Z (calculateUpgradeCost
              (getLevel (statGet (shipConfig playerState) k)
                        (statGet INITIAL_SHIP_CONFIG k) (upgradeStep u))).

Definition install (u : Upgrade) (playerState : PlayerState) : PlayerState :=
  upgradeStat (upgradeKey u) (upgradeStep u) (upgradeCost u playerState)
              playerState.

(** What a click in the station can do. *)
Inductive Op :=
| OpSellAll
| OpRefuel
| OpUpgradeStat (statKey : StatKey) (step cost : Q)
| OpInstall (u : Upgrade).

Definition apply (o : Op) (s : PlayerState) : PlayerState :=
  match o with
  | OpSellAll => sellAll s
  | OpRefuel => refuel s
  | OpUpgradeStat k step cost => upgradeStat k step cost s
  | OpInstall u => install u s
  end.

(** A ship at the station, for the examples: 120 credits, 400 units of
    fuel, two units of iron and one of gold. *)
Definition dockedShip : PlayerState :=
  mkPlayerState 120 400 (mkCargo 2 0 1 0) INITIAL_SHIP_CONFIG
                (Point.mk 0 0) (Point.mk 0 0) 0.

End Station.


(* ================================================================= *)
(** ** components/GameCanvas.tsx: the entities

    The identifiers of the entities ([ast-3], [loot-<time>],
    [alien-<time>]) are display keys that the loop never reads; only the
    asteroid keeps its own, to tell the rocks apart in the statements. *)

Module Asteroid.
Record t := mk {
  id : string;
  x : Q;
  y : Q;
  vx : Q;
  vy : Q;
  radius : Q;
  vertices : list Point.t;
  type : MineralType;
  health : Q;
  maxHealth : Q;
  rotation : Q;
  rotationSpeed : Q;
  isHeating : bool
}.

(** [ast.isHeating = true; ast.health -= power]. *)
Definition hit (power : Q) (a : t) : t :=
  mk (id a) (x a) (y a) (vx a) (vy a) (radius a) (vertices a) (type a)
     (health a - power) (maxHealth a) (rotation a) (rotationSpeed a) true.

(** The two writes of the render pass:
    [ast.rotation += ast.rotationSpeed; ast.isHeating = false]. *)
Definition drawn (a : t) : t :=
  mk (id a) (x a) (y a) (vx a) (vy a) (radius a) (vertices a) (type a)
     (health a) (maxHealth a) (rotation a + rotationSpeed a)
     (rotationSpeed a) false.
End Asteroid.

Inductive AlienState := CHASING | DRAINING.

Module Alien.
(** [stolenCargo] starts as the empty object and gains a key at the first
    theft of a mineral: an association list in insertion order, which is
    the order [Object.keys] walks when the alien drops its loot. *)
Record t := mk {
  x : Q;
  y : Q;
  vx : Q;
  vy : Q;
  hp : Q;
  maxHp : Q;
  stolenCargo : list (MineralType * Z);
  state : AlienState;
  drainTimer : Z;
  wobbleAngle : Q
}.

(** [stolenCargo[type] || 0]. *)
Fixpoint stolenGet (s : list (MineralType * Z)) (type : MineralType) : Z :=
  match s with
  | [] => 0%Z
  | (k, v) :: rest => if MineralType_eqb k type then v else stolenGet rest type
  end.

(** [stolenCargo[type] = v]: in place when the key exists, else appended. *)
Fixpoint stolenSet (s : list (MineralType * Z)) (type : MineralType) (v : Z)
  : list (MineralType * Z) :=
  match s with
  | [] => [(type, v)]
  | (k, v0) :: rest =>
      if MineralType_eqb k type then (k, v) :: rest
      else (k, v0) :: stolenSet rest type v
  end.
End Alien.

Module Loot.
Record t := mk {
  x : Q;
  y : Q;
  vx : Q;
  vy : Q;
  type : MineralType;
  amount : Z;
  life : Z
}.
End Loot.

Module Particle.
Record t := mk {
  x : Q;
  y : Q;
  vx : Q;
  vy : Q;
  life : Q;
  maxLife : Q;
  color : string;
  size : Q;
  text : option string
}.

(** The particle pass of the renderer: [p.x += p.vx; p.y += p.vy; p.life--]. *)
Definition drawn (p : t) : t :=
  mk (x p + vx p) (y p + vy p) (vx p) (vy p) (life p - 1) (maxLife p)
     (color p) (size p) (text p).
End Particle.

(** What the loop takes from [Math]. *)
Record MathLib := mkMathLib {
  sqrt : Q -> Q;
  cos : Q -> Q;
  sin : Q -> Q;
  atan2 : Q -> Q -> Q;
  PI : Q
}.

(** What one frame samples from outside: the keys held, the pointer, the
    size of the canvas, and the results of the calls of [Math.random()]
    that the update makes, in the order it makes them. *)
Record Input := mkInput {
  KeyA : bool;
  ArrowLeft : bool;
  KeyD : bool;
  ArrowRight : bool;
  KeyW : bool;
  ArrowUp : bool;
  mouseX : Q;
  mouseY : Q;
  isDown : bool;
  width : Q;
  height : Q;
  random : nat -> Q
}.

(** The cells the loop owns ([shipRef], [asteroidsRef], [alienRef],
    [particlesRef], [lootRef], [shakeRef], [cameraRef]), and how many of the
    frame's random numbers have been used. *)
Record World := mkWorld {
  ship : PlayerState;
  asteroids : list Asteroid.t;
  alien : option Alien.t;
  particles : list Particle.t;
  loot : list Loot.t;
  shake : Q;
  camera : Point.t;
  used : nat
}.

(** The two locals of [loop] that say what the laser is on: the index in
    [asteroids] of [miningTarget] (the loop holds the object itself), and
    [attackingAlien]. *)
Record Aim := mkAim {
  attackingAlien : bool;
  miningTarget : option nat
}.

(** How a call of [loop] ends: [onGameOver()] and return, [onDock(ship)] and
    return, or the next frame requested.  Each carries the cells as the call
    leaves them. *)
Inductive Outcome :=
| GameOver (w : World)
| Dock (finalPlayerState : PlayerState) (w : World)
| Continue (w : World).

(** [s'] is [s] but for the tank and the hold: the loop, once the ship has
    moved, writes only these two. *)
Definition sameHull (s s' : PlayerState) : Prop :=
  credits s' = credits s /\ shipConfig s' = shipConfig s
  /\ position s' = position s /\ velocity s' = velocity s
  /\ rotation s' = rotation s.

(** The cargo is within the capacity of the hold. *)
Definition withinCapacity (s : PlayerState) : Prop :=
  inject_Z (cargoTotal (cargo s)) <= maxCargo (shipConfig s).

(** The tank and the configuration of the ship of a world. *)
Definition fuel (w : World) : Q := currentFuel (ship w).
Definition config (w : World) : ShipConfig := shipConfig (ship w).

Definition worldOf (o : Outcome) : World :=
  match o with
  | GameOver w => w
  | Dock _ w => w
  | Continue w => w
  end.

(** One unit of [t] has moved from the cargo [c] to the stolen cargo [s]:
    the count of [t] is one lower in [c'] and one higher in [s'], and no
    other count has changed. *)
Definition moved (t : MineralType) (c c' : Cargo)
    (s s' : list (MineralType * Z)) : Prop :=
  (forall t', cargoGet c' t'
              = if MineralType_eqb t t' then (cargoGet c t' - 1)%Z
                else cargoGet c t')
  /\ (forall t', Alien.stolenGet s' t'
                 = if MineralType_eqb t t' then (Alien.stolenGet s t' + 1)%Z
                   else Alien.stolenGet s t').

(** Field updates (the loop mutates its objects in place). *)

Definition withFuel (f : Q) (s : PlayerState) : PlayerState :=
  mkPlayerState (credits s) f (cargo s) (shipConfig s) (position s)
                (velocity s) (rotation s).

Definition withCargo (c : Cargo) (s : PlayerState) : PlayerState :=
  mkPlayerState (credits s) (currentFuel s) c (shipConfig s) (position s)
                (velocity s) (rotation s).

Definition withShip (s : PlayerState) (w : World) : World :=
  mkWorld s (asteroids w) (alien w) (particles w) (loot w) (shake w)
          (camera w) (used w).

Definition withAsteroids (l : list Asteroid.t) (w : World) : World :=
  mkWorld (ship w) l (alien w) (particles w) (loot w) (shake w) (camera w)
          (used w).

Definition withAlien (a : option Alien.t) (w : World) : World :=
  mkWorld (ship w) (asteroids w) a (particles w) (loot w) (shake w)
          (camera w) (used w).

Definition withParticles (l : list Particle.t) (w : World) : World :=
  mkWorld (ship w) (asteroids w) (alien w) l (loot w) (shake w) (camera w)
          (used w).

Definition withLoot (l : list Loot.t) (w : World) : World :=
  mkWorld (ship w) (asteroids w) (alien w) (particles w) l (shake w)
          (camera w) (used w).

Definition withShake (s : Q) (w : World) : World :=
  mkWorld (ship w) (asteroids w) (alien w) (particles w) (loot w) s
          (camera w) (used w).

Definition withCamera (c : Point.t) (w : World) : World :=
  mkWorld (ship w) (asteroids w) (alien w) (particles w) (loot w) (shake w)
          c (used w).

Definition withUsed (n : nat) (w : World) : World :=
  mkWorld (ship w) (asteroids w) (alien w) (particles w) (loot w) (shake w)
          (camera w) n.

(** [particlesRef.current.push(...)], [lootRef.current.push(...)]. *)
Definition pushParticles (ps : list Particle.t) (w : World) : World :=
  withParticles (particles w ++ ps) w.

Definition pushLoot (ls : list Loot.t) (w : World) : World :=
  withLoot (loot w ++ ls) w.

(** The [k]-th next result of [Math.random()], and [k] results used up. *)
Definition rnd (inp : Input) (w : World) (k : nat) : Q :=
  random inp (used w + k).

Definition advance (k : nat) (w : World) : World :=
  withUsed (used w + k) w.

(** [for (let ast of list) if (p(ast)) { target = ast; break }], as the
    position of the match. *)
Fixpoint findIndex {A : Type} (p : A -> bool) (l : list A) : option nat :=
  match l with
  | [] => None
  | a :: rest =>
      if p a then Some O
      else match findIndex p rest with
           | Some i => Some (S i)
           | None => None
           end
  end.

(** [list.filter(a => a !== target)] for the object at position [i]: the
    objects of the list are distinct, so exactly that one goes. *)
Fixpoint removeAt {A : Type} (i : nat) (l : list A) : list A :=
  match l, i with
  | [], _ => []
  | _ :: rest, O => rest
  | a :: rest, S j => a :: removeAt j rest
  end.

(** The write through the reference held for position [i]. *)
Fixpoint replaceAt {A : Type} (i : nat) (v : A) (l : list A) : list A :=
  match l, i with
  | [], _ => []
  | _ :: rest, O => v :: rest
  | a :: rest, S j => a :: replaceAt j v rest
  end.

(* ================================================================= *)
(** ** components/GameCanvas.tsx: [loop]

    One call of [loop] with the canvas attached, phase by phase in the order
    of the source.  The calls to the sound manager and to the drawing
    context change no cell of the game and are left out; of the render pass
    only its writes to the cells remain. *)

Module Canvas.

Section Loop.

Variable M : MathLib.
Variable inp : Input.

(** *** Ship physics *)

Definition shakeDecay (s : Q) : Q :=
  if s >? 0 then
    let s' := s * 0.9 in
    if s' <? 0.5 then 0 else s'
  else s.

Definition turned (s : PlayerState) : Q :=
  let r := rotation s in
  let r := if KeyA inp || ArrowLeft inp
           then r - rotationSpeed (shipConfig s) else r in
  if KeyD inp || ArrowRight inp
  then r + rotationSpeed (shipConfig s) else r.

Definition isThrusting : bool := KeyW inp || ArrowUp inp.

(** [isThrusting && ship.currentFuel > 0]. *)
Definition thrusts (w : World) : bool :=
  isThrusting && (currentFuel (ship w) >? 0).

Definition thrustVelocity (w : World) : Point.t :=
  let s := ship w in
  let rot := turned s in
  if thrusts w then
    Point.mk (Point.x (velocity s) + cos M rot * acceleration (shipConfig s))
             (Point.y (velocity s) + sin M rot * acceleration (shipConfig s))
  else velocity s.

Definition draggedVelocity (w : World) : Point.t :=
  let v := thrustVelocity w in
  Point.mk (Point.x v * 0.99) (Point.y v * 0.99).

(** The radicand of [speed]: [ship.velocity.x**2 + ship.velocity.y**2],
    taken after the drag and before the cap. *)
Definition speedSq (w : World) : Q :=
  let v := draggedVelocity w in
  Num.sq (Point.x v) + Num.sq (Point.y v).

Definition cappedVelocity (w : World) : Point.t :=
  let v := draggedVelocity w in
  let top := maxSpeed (shipConfig (ship w)) in
  if Num.sqrt_gtb (speedSq w) top then
    let speed := sqrt M (speedSq w) in
    Point.mk (Point.x v / speed * top) (Point.y v / speed * top)
  else v.

Definition exhaust (w : World) : Particle.t :=
  let s := ship w in
  let rot := turned s in
  let v := thrustVelocity w in
  let exhaustOffset := 22 in
  Particle.mk (Point.x (position s) - cos M rot * exhaustOffset)
              (Point.y (position s) - sin M rot * exhaustOffset)
              (Point.x v - cos M rot * 3 + (rnd inp w 0 - 0.5))
              (Point.y v - sin M rot * 3 + (rnd inp w 1 - 0.5))
              20 20 "#fbbf24" 2 None.

Definition physics (w : World) : World :=
  let s := ship w in
  let v := cappedVelocity w in
  let s' :=
    mkPlayerState
      (credits s)
      (if thrusts w
       then currentFuel s - thrustConsumptionRate (shipConfig s)
       else currentFuel s)
      (cargo s) (shipConfig s)
      (Point.mk (Point.x (position s) + Point.x v)
                (Point.y (position s) + Point.y v))
      v (turned s) in
  let w' := withShip s' (withShake (shakeDecay (shake w)) w) in
  if thrusts w then advance 2 (pushParticles [exhaust w] w') else w'.

(** *** Idle fuel consumption and the game-over check.
    [None] is [onGameOver(); return]. *)

Definition stopped (s : PlayerState) : bool :=
  (Qabs (Point.x (velocity s)) <? 0.1) && (Qabs (Point.y (velocity s)) <? 0.1).

Definition idle (w : World) : option World :=
  let s := ship w in
  if currentFuel s >? 0 then
    Some (withShip
            (withFuel (currentFuel s - fuelConsumptionRate (shipConfig s)) s) w)
  else if stopped s then None
  else Some w.

Definition follow (w : World) : World :=
  withCamera (Point.mk (Point.x (position (ship w)) - width inp / 2)
                       (Point.y (position (ship w)) - height inp / 2)) w.

(** *** Alien *)

Definition spawnAlien (w : World) : World :=
  match alien w with
  | Some _ => w
  | None =>
      if rnd inp w 0 <? ALIEN_CONFIG.SPAWN_RATE then
        let angle := rnd inp w 1 * PI M * 2 in
        let dist := Qmax (width inp) (height inp) * 1.2 in
        advance 2
          (withAlien
             (Some (Alien.mk (Point.x (position (ship w)) + cos M angle * dist)
                             (Point.y (position (ship w)) + sin M angle * dist)
                             0 0 ALIEN_CONFIG.HP ALIEN_CONFIG.HP []
                             CHASING 0%Z 0)) w)
      else advance 1 w
  end.

(** The radicand of [dist], from the alien to the ship, before it moves. *)
Definition alienDistSq (s : PlayerState) (a : Alien.t) : Q :=
  Num.sq (Point.x (position s) - Alien.x a)
  + Num.sq (Point.y (position s) - Alien.y a).

(** Wobble, chase or brake, speed cap, move. *)
Definition moveAlien (s : PlayerState) (a : Alien.t) : Alien.t :=
  let dx := Point.x (position s) - Alien.x a in
  let dy := Point.y (position s) - Alien.y a in
  let chase :=
    Num.sqrt_gtb (alienDistSq s a) (ALIEN_CONFIG.DRAIN_RANGE * 0.7) in
  let angle := atan2 M dy dx in
  let vx := if chase then Alien.vx a + cos M angle * 0.1
            else Alien.vx a * 0.95 in
  let vy := if chase then Alien.vy a + sin M angle * 0.1
            else Alien.vy a * 0.95 in
  let speedSq := Num.sq vx + Num.sq vy in
  let over := Num.sqrt_gtb speedSq ALIEN_CONFIG.SPEED in
  let alienSpeed := sqrt M speedSq in
  let vx' := if over then vx / alienSpeed * ALIEN_CONFIG.SPEED else vx in
  let vy' := if over then vy / alienSpeed * ALIEN_CONFIG.SPEED else vy in
  Alien.mk (Alien.x a + vx') (Alien.y a + vy') vx' vy'
           (Alien.hp a) (Alien.maxHp a) (Alien.stolenCargo a)
           (if chase then CHASING else DRAINING)
           (Alien.drainTimer a) (Alien.wobbleAngle a + 0.1).

Definition withTimer (n : Z) (a : Alien.t) : Alien.t :=
  Alien.mk (Alien.x a) (Alien.y a) (Alien.vx a) (Alien.vy a) (Alien.hp a)
           (Alien.maxHp a) (Alien.stolenCargo a) (Alien.state a) n
           (Alien.wobbleAngle a).

Definition withStolen (s : list (MineralType * Z)) (a : Alien.t) : Alien.t :=
  Alien.mk (Alien.x a) (Alien.y a) (Alien.vx a) (Alien.vy a) (Alien.hp a)
           (Alien.maxHp a) s (Alien.state a) (Alien.drainTimer a)
           (Alien.wobbleAngle a).

(** [Object.keys(ship.cargo).filter(t => ship.cargo[t] > 0)]. *)
Definition availableTypes (c : Cargo) : list MineralType :=
  filter (fun t => (0 <? cargoGet c t)%Z) cargoKeys.

(** [types[Math.floor(r * types.length)]]; [None] is [undefined].
    [Math.random()] returns [0 <= r < 1], which keeps the index inside. *)
Definition pick (r : Q) (types : list MineralType) : option MineralType :=
  let i := Num.floor (r * inject_Z (Z.of_nat (List.length types))) in
  if (i <? 0)%Z then None else nth_error types (Z.to_nat i).

(** The theft at the end of a drain interval.  When the index of [pick]
    falls outside (no result of [Math.random()] does that) nothing is
    moved. *)
Definition steal (w : World) (a : Alien.t) : World * Alien.t :=
  let s := ship w in
  match availableTypes (cargo s) with
  | [] => (w, withTimer 0 a)
  | availableTypes =>
      match pick (rnd inp w 0) availableTypes with
      | Some typeToSteal =>
          let c := cargoSet (cargo s) typeToSteal
                            (cargoGet (cargo s) typeToSteal - 1)%Z in
          let stolen := Alien.stolenSet (Alien.stolenCargo a) typeToSteal
                          (Alien.stolenGet (Alien.stolenCargo a) typeToSteal + 1)%Z in
          let p := Particle.mk (Point.x (position s))
                               (Point.y (position s) - 20)
                               0 (-1) 60 60 "#ef4444" 0
                               (Some ("-1 " ++ mineralName typeToSteal)%string) in
          (advance 1 (pushParticles [p] (withShip (withCargo c s) w)),
           withTimer 0 (withStolen stolen a))
      | None => (advance 1 w, withTimer 0 a)
      end
  end.

(** [alien.state === 'DRAINING' && dist < DRAIN_RANGE], [dist] being the
    distance before the move. *)
Definition draining (distSq : Q) (a : Alien.t) : bool :=
  match Alien.state a with
  | DRAINING => Num.sqrt_ltb distSq ALIEN_CONFIG.DRAIN_RANGE
  | CHASING => false
  end.

Definition drain (distSq : Q) (w : World) (a : Alien.t) : World * Alien.t :=
  if draining distSq a then
    let a1 := withTimer (Alien.drainTimer a + 1) a in
    if (ALIEN_CONFIG.DRAIN_INTERVAL <=? Alien.drainTimer a1)%Z
    then steal w a1
    else (w, a1)
  else (w, a).

Definition updateAlien (w : World) : World :=
  match alien w with
  | None => w
  | Some a =>
      let '(w', a') := drain (alienDistSq (ship w) a) w (moveAlien (ship w) a) in
      withAlien (Some a') w'
  end.

(** *** Mining and combat *)

Definition worldMouse (w : World) : Point.t :=
  Point.mk (mouseX inp + Point.x (camera w)) (mouseY inp + Point.y (camera w)).

(** [mouseRef.current.isDown && ship.currentFuel > 0]. *)
Definition laserOn (w : World) : bool :=
  isDown inp && (currentFuel (ship w) >? 0).

Definition nose (s : PlayerState) : Point.t :=
  let noseOffset := 30 in
  Point.mk (Point.x (position s) + cos M (rotation s) * noseOffset)
           (Point.y (position s) + sin M (rotation s) * noseOffset).

(** [mouseDist < 50 && alienDist < ship.shipConfig.miningRange]. *)
Definition aimsAtAlien (w : World) (a : Alien.t) : bool :=
  let l := nose (ship w) in
  let m := worldMouse w in
  let alienDistSq := Num.sq (Alien.x a - Point.x l) + Num.sq (Alien.y a - Point.y l) in
  let mouseDistSq := Num.sq (Point.x m - Alien.x a) + Num.sq (Point.y m - Alien.y a) in
  Num.sqrt_ltb mouseDistSq 50
  && Num.sqrt_ltb alienDistSq (miningRange (shipConfig (ship w))).

Definition withHp (hp : Q) (a : Alien.t) : Alien.t :=
  Alien.mk (Alien.x a) (Alien.y a) (Alien.vx a) (Alien.vy a) hp
           (Alien.maxHp a) (Alien.stolenCargo a) (Alien.state a)
           (Alien.drainTimer a) (Alien.wobbleAngle a).

(** The loot an exploding alien drops: one item per key of [stolenCargo]
    whose amount is positive, two random numbers each, counted from [n]. *)
Fixpoint dropStolen (a : Alien.t) (n : nat) (s : list (MineralType * Z))
  : list Loot.t * nat :=
  match s with
  | [] => ([], n)
  | (type, amount) :: rest =>
      if (0 <? amount)%Z then
        let item := Loot.mk (Alien.x a) (Alien.y a)
                            ((random inp n - 0.5) * 3)
                            ((random inp (n + 1) - 0.5) * 3)
                            type amount LOOT_DESPAWN_TIME in
        let '(items, n') := dropStolen a (n + 2) rest in
        (item :: items, n')
      else dropStolen a n rest
  end.

(** Iteration [k] of the alien's explosion, its random numbers from [n]. *)
Definition alienDebris (a : Alien.t) (n k : nat) : Particle.t :=
  let r j := random inp (n + 5 * k + j) in
  Particle.mk (Alien.x a) (Alien.y a)
              ((r 0%nat - 0.5) * 8) ((r 1%nat - 0.5) * 8)
              (40 + r 2%nat * 30) 70
              (if r 3%nat >? 0.5 then ALIEN_CONFIG.COLOR_BODY
               else ALIEN_CONFIG.COLOR_LIGHTS)
              (2 + r 4%nat * 3) None.

(** The spark of a hit: one random number decides, four more place it. *)
Definition spark (cx cy spread kick life : Q) (color : string) (size : Q)
    (w : World) : World :=
  if rnd inp w 0 >? 0.5 then
    advance 5
      (pushParticles
         [Particle.mk (cx + (rnd inp w 1 - 0.5) * spread)
                      (cy + (rnd inp w 2 - 0.5) * spread)
                      ((rnd inp w 3 - 0.5) * kick)
                      ((rnd inp w 4 - 0.5) * kick)
                      life life color size None] w)
  else advance 1 w.

(** The laser on the alien [a]. *)
Definition hitAlien (w : World) (a : Alien.t) : World :=
  let s := ship w in
  let a1 := withHp (Alien.hp a - miningPower (shipConfig s)) a in
  let s1 := withFuel (currentFuel s - thrustConsumptionRate (shipConfig s) * 0.5) s in
  let w1 := withShake (Qmax (shake w) 2) (withShip s1 w) in
  let w2 := spark (Alien.x a1) (Alien.y a1) 30 5 20
                  ALIEN_CONFIG.COLOR_LIGHTS 2 w1 in
  if Alien.hp a1 <=? 0 then
    let '(items, n) := dropStolen a1 (used w2) (Alien.stolenCargo a1) in
    let debris := map (alienDebris a1 n) (seq 0 30) in
    withAlien None
      (withUsed (n + 5 * 30)
         (pushParticles debris (pushLoot items (withShake 20 w2))))
  else withAlien (Some a1) w2.

(** [dx*dx + dy*dy < ast.radius * ast.radius], the cursor in world space. *)
Definition underCursor (w : World) (ast : Asteroid.t) : bool :=
  let m := worldMouse w in
  let dx := Point.x m - Asteroid.x ast in
  let dy := Point.y m - Asteroid.y ast in
  dx * dx + dy * dy <? Asteroid.radius ast * Asteroid.radius ast.

(** [distToShip <= ship.shipConfig.miningRange]. *)
Definition inRange (w : World) (ast : Asteroid.t) : bool :=
  Num.sqrt_leb (Num.sq (Asteroid.x ast - Point.x (position (ship w)))
                + Num.sq (Asteroid.y ast - Point.y (position (ship w))))
               (miningRange (shipConfig (ship w))).

Definition mineable (w : World) (ast : Asteroid.t) : bool :=
  underCursor w ast && inRange w ast.

(** Lines 396-501: who the laser is on, the alien hit resolved. *)
Definition combat (w : World) : World * Aim :=
  if laserOn w then
    match alien w with
    | Some a =>
        if aimsAtAlien w a then (hitAlien w a, mkAim true None)
        else (w, mkAim false (findIndex (mineable w) (asteroids w)))
    | None => (w, mkAim false (findIndex (mineable w) (asteroids w)))
    end
  else (w, mkAim false None).

(** Iterations [k] of the two shatter loops, their random numbers from [n]. *)
Definition chunk (ast : Asteroid.t) (n k : nat) : Particle.t :=
  let r j := random inp (n + 6 * k + j) in
  Particle.mk (Asteroid.x ast + (r 0%nat - 0.5) * Asteroid.radius ast * 0.5)
              (Asteroid.y ast + (r 1%nat - 0.5) * Asteroid.radius ast * 0.5)
              ((r 2%nat - 0.5) * 3) ((r 3%nat - 0.5) * 3)
              (60 + r 4%nat * 40) 100
              (MINERAL_COLORS (Asteroid.type ast))
              (3 + r 5%nat * 4) None.

Definition dust (ast : Asteroid.t) (n k : nat) : Particle.t :=
  let r j := random inp (n + 6 * k + j) in
  Particle.mk (Asteroid.x ast + (r 0%nat - 0.5) * Asteroid.radius ast)
              (Asteroid.y ast + (r 1%nat - 0.5) * Asteroid.radius ast)
              ((r 2%nat - 0.5) * 6) ((r 3%nat - 0.5) * 6)
              (30 + r 4%nat * 20) 50
              (MINERAL_COLORS (Asteroid.type ast))
              (1 + r 5%nat * 2) None.

(** The loot of a shattered asteroid. *)
Definition ore (ast : Asteroid.t) (w : World) : Loot.t :=
  let lootAmount := Num.floor (Asteroid.radius ast / 5) in
  Loot.mk (Asteroid.x ast) (Asteroid.y ast)
          ((rnd inp w 0 - 0.5) * 1.5) ((rnd inp w 1 - 0.5) * 1.5)
          (Asteroid.type ast) lootAmount LOOT_DESPAWN_TIME.

(** [miningTarget.health <= 0]: loot, shatter, removal. *)
Definition shatter (i : nat) (ast : Asteroid.t) (w : World) : World :=
  let n := (used w + 2)%nat in
  withAsteroids (removeAt i (asteroids w))
    (withUsed (n + 6 * 8 + 6 * 15)
       (pushParticles (map (chunk ast n) (seq 0 8)
                       ++ map (dust ast (n + 6 * 8)) (seq 0 15))
          (pushLoot [ore ast w] (withShake 15 w)))).

(** Lines 504-565: [if (miningTarget) { ... }]. *)
Definition mine (target : option nat) (w : World) : World :=
  match target with
  | None => w
  | Some i =>
      match nth_error (asteroids w) i with
      | None => w
      | Some ast =>
          let s := ship w in
          let ast1 := Asteroid.hit (miningPower (shipConfig s)) ast in
          let s1 := withFuel (currentFuel s - thrustConsumptionRate (shipConfig s) * 0.5) s in
          let w1 := withAsteroids (replaceAt i ast1 (asteroids w))
                      (withShake (Qmax (shake w) 2) (withShip s1 w)) in
          let w2 := spark (Asteroid.x ast1) (Asteroid.y ast1) 20 3 15
                          "#ffffff" 1 w1 in
          if Asteroid.health ast1 <=? 0 then shatter i ast1 w2 else w2
      end
  end.

(** *** Loot *)

(** Drift, drag, one frame of life. *)
Definition drift (l : Loot.t) : Loot.t :=
  Loot.mk (Loot.x l + Loot.vx l) (Loot.y l + Loot.vy l)
          (Loot.vx l * 0.95) (Loot.vy l * 0.95)
          (Loot.type l) (Loot.amount l) (Loot.life l - 1)%Z.

(** [dist < LOOT_COLLECTION_RANGE], from the ship to the drifted item. *)
Definition inReach (s : PlayerState) (l : Loot.t) : bool :=
  Num.sqrt_ltb (Num.sq (Point.x (position s) - Loot.x l)
                + Num.sq (Point.y (position s) - Loot.y l))
               LOOT_COLLECTION_RANGE.

(** [currentCargoTotal + loot.amount <= ship.shipConfig.maxCargo]. *)
Definition fits (s : PlayerState) (l : Loot.t) : bool :=
  inject_Z (cargoTotal (cargo s) + Loot.amount l) <=? maxCargo (shipConfig s).

Definition collected (l : Loot.t) : Loot.t :=
  Loot.mk (Loot.x l) (Loot.y l) (Loot.vx l) (Loot.vy l) (Loot.type l)
          (Loot.amount l) 0%Z.

(** The collision of one (already drifted) item with the ship. *)
Definition collect (w : World) (l : Loot.t) : World * Loot.t :=
  let s := ship w in
  if inReach s l then
    if fits s l then
      let c := cargoSet (cargo s) (Loot.type l)
                        (cargoGet (cargo s) (Loot.type l) + Loot.amount l)%Z in
      let p := Particle.mk (Loot.x l) (Loot.y l) 0 (-1) 60 60 "#aaffaa" 0
                 (Some ("+" ++ Num.show (Loot.amount l) ++ " "
                        ++ mineralName (Loot.type l))%string) in
      (pushParticles [p] (withShip (withCargo c s) w), collected l)
    else
      if rnd inp w 0 <? 0.05 then
        (advance 1
           (pushParticles
              [Particle.mk (Loot.x l) (Loot.y l) 0 (-0.5) 40 40 "#ef4444" 0
                           (Some "CARGO FULL"%string)] w), l)
      else (advance 1 w, l)
  else (w, l).

(** [lootRef.current.forEach(...)], the items in order, each seeing the
    cargo the earlier ones left. *)
Fixpoint lootEach (w : World) (ls : list Loot.t) : World * list Loot.t :=
  match ls with
  | [] => (w, [])
  | l :: rest =>
      let '(w1, l1) := collect w (drift l) in
      let '(w2, rest') := lootEach w1 rest in
      (w2, l1 :: rest')
  end.

(** Lines 572-622, with the filter that drops the items out of life. *)
Definition lootLogic (w : World) : World :=
  let '(w', ls) := lootEach w (loot w) in
  withLoot (filter (fun l => (0 <? Loot.life l)%Z) ls) w'.

(** *** Docking.  [speedSq0] is the radicand of the [speed] of this frame.
    [distToStation < DOCKING_RANGE && speed < 2], then [speed < 0.5]. *)
Definition docks (speedSq0 : Q) (w : World) : bool :=
  let distSq := Num.sq (Point.x (position (ship w)))
                + Num.sq (Point.y (position (ship w))) in
  (Num.sqrt_ltb distSq DOCKING_RANGE && Num.sqrt_ltb speedSq0 2)
  && Num.sqrt_ltb speedSq0 0.5.

(** *** What the render pass writes: the asteroids turn and cool, the
    particles move, age and are purged. *)
Definition render (w : World) : World :=
  withParticles
    (filter (fun p => Particle.life p >? 0) (map Particle.drawn (particles w)))
    (withAsteroids (map Asteroid.drawn (asteroids w)) w).

(** *** The frame *)

(** The frame up to the laser (lines 223-392): [None] when the game-over
    check ended the call. *)
Definition approach (w : World) : option World :=
  match idle (physics (withUsed 0 w)) with
  | None => None
  | Some w2 => Some (updateAlien (spawnAlien (follow w2)))
  end.

(** ... and up to the choice of the laser's target (lines 396-501): the
    cells and the aim. *)
Definition aimed (w : World) : option (World * Aim) :=
  match approach w with
  | None => None
  | Some w3 => Some (combat w3)
  end.

(** The update up to the docking check. *)
Definition update (w : World) : option (World * Aim) :=
  match aimed w with
  | None => None
  | Some (w4, aim) => Some (lootLogic (mine (miningTarget aim) w4), aim)
  end.

Definition loop (w : World) : Outcome :=
  match update w with
  | None => GameOver (physics (withUsed 0 w))
  | Some (w6, _) =>
      if docks (speedSq (withUsed 0 w)) w6 then Dock (ship w6) w6
      else Continue (render w6)
  end.

(** The position of [miningTarget] in the frame, if the laser is on a rock. *)
Definition targetOf (w : World) : option nat :=
  match aimed w with
  | Some (_, aim) => miningTarget aim
  | None => None
  end.

End Loop.

(** The frames of a mission: [loop] called again for as long as it asks for
    the next frame, once per sampled input. *)
Fixpoint run (M : MathLib) (inps : list Input) (w : World) : Outcome :=
  match inps with
  | [] => Continue w
  | inp :: rest =>
      match loop M inp w with
      | Continue w' => run M rest w'
      | stop => stop
      end
  end.

(** Consecutive frames that all have the rock at position [i] as mining
    target and all ask for the next frame: the world they lead to. *)
Fixpoint mined (M : MathLib) (i : nat) (inps : list Input) (w : World)
  : option World :=
  match inps with
  | [] => Some w
  | inp :: rest =>
      match targetOf M inp w, loop M inp w with
      | Some j, Continue w' => if Nat.eqb j i then mined M i rest w' else None
      | _, _ => None
      end
  end.

(** The same rock, whatever its health, spin and heat. *)
Definition sameRock (a b : Asteroid.t) : Prop :=
  Asteroid.id b = Asteroid.id a /\ Asteroid.x b = Asteroid.x a
  /\ Asteroid.y b = Asteroid.y a /\ Asteroid.radius b = Asteroid.radius a
  /\ Asteroid.type b = Asteroid.type a.

Definition ids (w : World) : list string := map Asteroid.id (asteroids w).

End Canvas.

(* ================================================================= *)
(** ** Worlds and inputs for the examples *)

Module Scene.

(** A [Math] to run the examples with, on rationals: the leading terms of
    the series of the sine and the cosine (exact at 0), the integer root of
    numerator and denominator (exact on squares).  The theorems below hold
    for every [MathLib]; the examples do not depend on this one either,
    beyond its values at 0. *)
Definition math : MathLib :=
  {| sqrt := fun q => Z.sqrt (Qnum q * Zpos (Qden q)) # Qden q;
     cos := fun a => 1 - a * a / 2;
     sin := fun a => a - a * a * a / 6;
     atan2 := fun dy dx => if dx >? 0 then dy / dx else 0;
     PI := 3.14159265 |}.

(** No key, no button, the pointer in the corner of an 800 x 600 canvas,
    every random number one half. *)
Definition hands_off : Input :=
  mkInput false false false false false false 0 0 false 800 600
          (fun _ => 0.5).

(** The same with W held. *)
Definition thrusting : Input :=
  mkInput false false false false true false 0 0 false 800 600
          (fun _ => 0.5).

Definition emptyCargo : Cargo := mkCargo 0 0 0 0.

Definition shipAt (fuel px py vx vy : Q) : PlayerState :=
  mkPlayerState 0 fuel emptyCargo INITIAL_SHIP_CONFIG (Point.mk px py)
                (Point.mk vx vy) 0.

Definition space (s : PlayerState) : World :=
  mkWorld s [] None [] [] 0 (Point.mk 0 0) 0.

(** A rock of gold of radius 42 at (1100, 0), as the generator makes them. *)
Definition rock : Asteroid.t :=
  Asteroid.mk "ast-7" 1100 0 0.1 (-0.2) 42 [] GOLD 100 100 0 0.01 false.

(** The button held with the pointer on [rock], seen from (1000, 0). *)
Definition mining : Input :=
  mkInput false false false false false false 500 300 true 800 600
          (fun _ => 0.5).

(** [rock] alone, 100 away from a ship at rest with 500 units of fuel. *)
Definition quarry : World :=
  mkWorld (shipAt 500 1000 0 0 0) [rock] None [] [] 0 (Point.mk 0 0) 0.

(** [quarry] after [k] hits on the rock: the ship where it was, at rest,
    0.3 units of fuel lighter per hit, the rock 1.5 points weaker per hit,
    no alien and no loot about. *)
Definition working (k : Q) (w : World) : Prop :=
  Point.x (position (ship w)) == 1000 /\ Point.y (position (ship w)) == 0
  /\ Point.x (velocity (ship w)) == 0 /\ Point.y (velocity (ship w)) == 0
  /\ shipConfig (ship w) = INITIAL_SHIP_CONFIG
  /\ currentFuel (ship w) == 500 - 0.3 * k
  /\ alien w = None /\ loot w = []
  /\ exists a, asteroids w = [a]
               /\ Asteroid.x a = 1100 /\ Asteroid.y a = 0
               /\ Asteroid.radius a = 42
               /\ Asteroid.health a == 100 - 1.5 * k.

(** Far from the station, at rest, 0.3 units of fuel left. *)
Definition nearlyDry : World := space (shipAt 0.3 1000 0 0 0).

(** Inside the docking range, at rest, the tank empty. *)
Definition stranded : World := space (shipAt 0 100 100 0 0).

End Scene.

(* ================================================================= *)
(** ** Further vocabulary for the properties of the loop *)

Module Flight.

(** Nothing held: no thrust key and no mouse button. *)
Definition idleInput (inp : Input) : Prop :=
  KeyW inp = false /\ ArrowUp inp = false /\ isDown inp = false.

(** The whole of a stolen cargo. *)
Definition stolenTotal (s : list (MineralType * Z)) : Z :=
  fold_right (fun kv acc => (snd kv + acc)%Z) 0%Z s.

(** What an item of loot carries. *)
Definition content (l : Loot.t) : MineralType * Z :=
  (Loot.type l, Loot.amount l).

(** The units of mineral [t] afloat in a list of loot. *)
Definition lootOf (t : MineralType) (ls : list Loot.t) : Z :=
  fold_right
    (fun l acc =>
       ((if MineralType_eqb (Loot.type l) t then Loot.amount l else 0) + acc)%Z)
    0%Z ls.

(** The tank after [n] times [currentFuel -= rate]. *)
Definition drained (rate : Q) (n : nat) (f : Q) : Q :=
  Nat.iter n (fun f => f - rate) f.

(** [shakeDecay] over [n] frames without a hit. *)
Definition shakeAfter (n : nat) (s : Q) : Q := Nat.iter n Canvas.shakeDecay s.

(** The ship above the docking circle, not moving towards it, within its
    speed cap. *)
Definition leaving (s : PlayerState) : Prop :=
  200 <= Point.y (position s) /\ 0 <= Point.y (velocity s)
  /\ 0 <= maxSpeed (shipConfig s)
  /\ Num.sq (Point.x (velocity s)) + Num.sq (Point.y (velocity s))
     <= maxSpeed (shipConfig s) * maxSpeed (shipConfig s).

End Flight.


(* ================================================================= *)
(** ** components/GameCanvas.tsx: the asteroid field (lines 123-167)

    The initialisation effect draws the field once per mission.  [random]
    is the stream of results of [Math.random()], [n] its position when the
    loop over the asteroids is entered. *)

Definition ASTEROID_SPAWN_RADIUS : Q := 600.
Definition WORLD_BOUNDS : Q := 5000.

Module Generate.

Section Field.

Variable M : MathLib.
Variable random : nat -> Q.

(** [dist], the second draw of an asteroid. *)
Definition distOf (r : Q) : Q :=
  ASTEROID_SPAWN_RADIUS + r * (WORLD_BOUNDS - ASTEROID_SPAWN_RADIUS).

(** The mineral, by distance and the draw [rand]. *)
Definition typeFor (dist rand : Q) : MineralType :=
  if (dist >? 3000) && (rand >? 0.8) then KRONOS
  else if (dist >? 2000) && (rand >? 0.7) then GOLD
  else if (dist >? 1000) && (rand >? 0.6) then SILICON
  else IRON.

(** Vertex [v] of [numVerts], its draw at [n + v]. *)
Definition vertex (radius : Q) (numVerts : Z) (n v : nat) : Point.t :=
  let vAngle := inject_Z (Z.of_nat v) / inject_Z numVerts * PI M * 2 in
  let rOffset := radius * (0.8 + random (n + v) * 0.4) in
  Point.mk (cos M vAngle * rOffset) (sin M vAngle * rOffset).

(** Asteroid [i], its draws from [n]; with it the position of the next
    draw. *)
Definition asteroid (i n : nat) : Asteroid.t * nat :=
  let angle := random n * PI M * 2 in
  let dist := distOf (random (n + 1)) in
  let x := cos M angle * dist in
  let y := sin M angle * dist in
  let rand := random (n + 2) in
  let type := typeFor dist rand in
  let radius := 20 + random (n + 3) * 40 in
  let numVerts := (6 + Num.floor (random (n + 4) * 6))%Z in
  let vertices :=
    map (vertex radius numVerts (n + 5)) (seq 0 (Z.to_nat numVerts)) in
  let m := (n + 5 + Z.to_nat numVerts)%nat in
  (Asteroid.mk ("ast-" ++ Num.show (Z.of_nat i)) x y
               ((random m - 0.5) * 0.5) ((random (m + 1) - 0.5) * 0.5)
               radius vertices type 100 100
               (random (m + 2) * PI M * 2)
               ((random (m + 3) - 0.5) * 0.02) false,
   (m + 4)%nat).

(** [for (let i = 0; i < count; i++)], from [i] on. *)
Fixpoint field (count i n : nat) : list Asteroid.t :=
  match count with
  | O => []
  | S count' =>
      let '(a, n') := asteroid i n in
      a :: field count' (S i) n'
  end.

Definition asteroids (n : nat) : list Asteroid.t := field 150 0 n.

End Field.

End Generate.

(* ================================================================= *)
(** ** App.tsx: the screens and the hand-over of the ship *)

Definition STATION_POSITION : Point.t := Point.mk 0 0.

Module App.

Record t := mk { gameState : GameState; playerState : PlayerState }.

(** The two [useState] initial values. *)
Definition initial (M : MathLib) : t :=
  mk START
     (mkPlayerState 0 (maxFuel INITIAL_SHIP_CONFIG) (mkCargo 0 0 0 0)
        INITIAL_SHIP_CONFIG
        (Point.mk (Point.x STATION_POSITION + 100)
                  (Point.y STATION_POSITION + 100))
        (Point.mk 0 0) (- PI M / 2)).

Definition handleDock (finalState : PlayerState) (a : t) : t :=
  mk DOCKED
     (mkPlayerState (credits finalState) (currentFuel finalState)
        (cargo finalState) (shipConfig finalState)
        (Point.mk (Point.x STATION_POSITION) (Point.y STATION_POSITION))
        (Point.mk 0 0) (rotation finalState)).

Definition handleLaunch (a : t) : t :=
  let prev := playerState a in
  mk PLAYING
     (mkPlayerState (credits prev) (currentFuel prev) (cargo prev)
        (shipConfig prev)
        (Point.mk (Point.x STATION_POSITION) (Point.y STATION_POSITION + 220))
        (Point.mk 0 1) (rotation prev)).

Definition handleStartGame (a : t) : t := mk PLAYING (playerState a).

Definition handleGameOver (a : t) : t := mk GAMEOVER (playerState a).

Definition handleRestart (M : MathLib) (a : t) : t :=
  mk PLAYING
     (mkPlayerState 0 (maxFuel INITIAL_SHIP_CONFIG) (mkCargo 0 0 0 0)
        INITIAL_SHIP_CONFIG
        (Point.mk (Point.x STATION_POSITION) (Point.y STATION_POSITION + 220))
        (Point.mk 0 1) (- PI M / 2)).

(** What the callbacks of a frame of the canvas make of the application:
    [onGameOver], [onDock(ship)], or nothing.  The loop runs only while the
    game is [PLAYING]. *)
Definition frame (M : MathLib) (inp : Input) (a : t) (w : World) : t :=
  match gameState a with
  | PLAYING =>
      match Canvas.loop M inp w with
      | GameOver _ => handleGameOver a
      | Dock s _ => handleDock s a
      | Continue _ => a
      end
  | _ => a
  end.

End App.

(* ================================================================= *)
(** * Properties *)
Module NumFacts.

Lemma ltb_lt (x y : Q) : (x <? y) = true <-> x < y.
Proof.
  unfold Num.ltb. rewrite negb_true_iff.
  split; intro H.
  - apply Qnot_le_lt. intro L. apply Qle_bool_iff in L. congruence.
  - destruct (Qle_bool y x) eqn:E; [|reflexivity].
    apply Qle_bool_iff in E. exfalso. apply (Qlt_not_le _ _ H E).
Qed.

Lemma ltb_ge (x y : Q) : (x <? y) = false <-> y <= x.
Proof.
  unfold Num.ltb. rewrite negb_false_iff. apply Qle_bool_iff.
Qed.

Lemma leb_le (x y : Q) : (x <=? y) = true <-> x <= y.
Proof. apply Qle_bool_iff. Qed.

Lemma leb_gt (x y : Q) : (x <=? y) = false <-> y < x.
Proof.
  rewrite <- ltb_lt. unfold Num.ltb, Num.leb.
  destruct (Qle_bool x y); simpl; intuition congruence.
Qed.

Lemma ltb_spec (x y : Q) : BoolSpec (x < y) (y <= x) (x <? y).
Proof.
  destruct (x <? y) eqn:E; constructor.
  - now apply ltb_lt.
  - now apply ltb_ge.
Qed.

Lemma leb_spec (x y : Q) : BoolSpec (x <= y) (y < x) (x <=? y).
Proof.
  destruct (x <=? y) eqn:E; constructor.
  - now apply leb_le.
  - now apply leb_gt.
Qed.

Lemma gtb_spec (x y : Q) : BoolSpec (y < x) (x <= y) (x >? y).
Proof. apply ltb_spec. Qed.

Lemma geb_spec (x y : Q) : BoolSpec (y <= x) (x < y) (x >=? y).
Proof. apply leb_spec. Qed.

End NumFacts.

Module StationFacts.
Import Station NumFacts.

Lemma refuel_cases (s : PlayerState) :
  let cost := inject_Z (Qceiling (0.1 * (maxFuel (shipConfig s) - currentFuel s))) in
  (cost <= credits s ->
     credits (refuel s) == credits s - cost
     /\ currentFuel (refuel s) = maxFuel (shipConfig s))
  /\ (credits s < cost ->
     credits (refuel s) = 0
     /\ currentFuel (refuel s)
        == currentFuel s + inject_Z (Qfloor (credits s / 0.1))).
Proof.
  intro cost.
  assert (E : inject_Z (Num.ceil ((maxFuel (shipConfig s) - currentFuel s) * 0.1))
              = cost).
  { unfold cost, Num.ceil. f_equal. apply Qceiling_comp. ring. }
  unfold refuel. rewrite E.
  destruct (geb_spec (credits s) cost) as [G|G]; split; intro H;
    try lra; split; reflexivity.
Qed.

(** C8.  [refuel] charges ceiling(0.1 x (maxFuel - currentFuel)) credits for
    a full tank when the credits reach that cost; otherwise it adds
    floor(credits / 0.1) units of fuel and leaves exactly 0 credits.  With 50
    credits and 1000 units missing the full price is 100 > 50, so 500 units
    are added and the credits drop to 0. *)
Theorem refuel_charge (s : PlayerState) :
  let cost := inject_Z (Qceiling (0.1 * (maxFuel (shipConfig s) - currentFuel s))) in
  (cost <= credits s ->
     credits (refuel s) == credits s - cost
     /\ currentFuel (refuel s) = maxFuel (shipConfig s))
  /\ (credits s < cost ->
     credits (refuel s) = 0
     /\ currentFuel (refuel s)
        == currentFuel s + inject_Z (Qfloor (credits s / 0.1)))
  /\ (credits s == 50 -> maxFuel (shipConfig s) - currentFuel s == 1000 ->
     cost == 100 /\ credits s < cost
     /\ credits (refuel s) = 0
     /\ currentFuel (refuel s) == currentFuel s + 500).
Proof.
  intro cost. destruct (refuel_cases s) as [A B]. fold cost in A, B.
  split; [exact A|]. split; [exact B|].
  intros Hc Hf.
  assert (C : cost == 100).
  { unfold cost.
    rewrite (Qceiling_comp _ (inject_Z 100)).
    - rewrite Qceiling_Z. reflexivity.
    - rewrite Hf. reflexivity. }
  assert (L : credits s < cost) by (rewrite C, Hc; reflexivity).
  destruct (B L) as [B1 B2].
  repeat split; trivial.
  rewrite B2. rewrite (Qfloor_comp _ (inject_Z 500)).
  - rewrite Qfloor_Z. reflexivity.
  - rewrite Hc. reflexivity.
Qed.

(** The scenario of C8 on the starting ship with an empty tank. *)
Example refuel_scenario :
  let s := mkPlayerState 50 0 (mkCargo 0 0 0 0) INITIAL_SHIP_CONFIG
                         (Point.mk 0 0) (Point.mk 0 0) 0 in
  credits (refuel s) = 0 /\ currentFuel (refuel s) == 500.
Proof. split; reflexivity. Qed.

(** A full refuel on the same ship with 250 credits. *)
Example refuel_full :
  let s := mkPlayerState 250 0 (mkCargo 0 0 0 0) INITIAL_SHIP_CONFIG
                         (Point.mk 0 0) (Point.mk 0 0) 0 in
  credits (refuel s) == 150 /\ currentFuel (refuel s) = 1000.
Proof. split; reflexivity. Qed.

Lemma sellAll_credits (s : PlayerState) :
  credits (sellAll s)
  == credits s
     + (inject_Z (cargoGet (cargo s) IRON) * MINERAL_VALUES IRON
        + inject_Z (cargoGet (cargo s) SILICON) * MINERAL_VALUES SILICON
        + inject_Z (cargoGet (cargo s) GOLD) * MINERAL_VALUES GOLD
        + inject_Z (cargoGet (cargo s) KRONOS) * MINERAL_VALUES KRONOS).
Proof.
  unfold sellAll. cbv [fold_left cargoKeys sellStep cargoGet cargoSet
                       iron silicon gold kronos credits].
  destruct s as [cr f [i si g k] cfg p v r].
  cbv [cargo credits]. ring.
Qed.

(** C9.  [sellAll] adds the value of the whole cargo to the credits, zeroes
    every count, and also sets the fuel to [maxFuel]: the refuel comes with
    the sale and nothing is charged for it. *)
Theorem sellAll_refuels (s : PlayerState) :
  credits (sellAll s)
  == credits s
     + (inject_Z (cargoGet (cargo s) IRON) * MINERAL_VALUES IRON
        + inject_Z (cargoGet (cargo s) SILICON) * MINERAL_VALUES SILICON
        + inject_Z (cargoGet (cargo s) GOLD) * MINERAL_VALUES GOLD
        + inject_Z (cargoGet (cargo s) KRONOS) * MINERAL_VALUES KRONOS)
  /\ (forall t, cargoGet (cargo (sellAll s)) t = 0%Z)
  /\ currentFuel (sellAll s) = maxFuel (shipConfig s)
  /\ shipConfig (sellAll s) = shipConfig s.
Proof.
  split; [apply sellAll_credits|].
  split; [intros []; reflexivity|].
  split; reflexivity.
Qed.

Lemma sellAll_credits_nonneg (s : PlayerState) :
  cargoNonneg (cargo s) -> 0 <= credits s -> 0 <= credits (sellAll s).
Proof.
  intros Hc H. rewrite sellAll_credits.
  assert (forall t, 0 <= inject_Z (cargoGet (cargo s) t)) as N.
  { intro t. change 0 with (inject_Z 0). rewrite <- Zle_Qle. apply Hc. }
  pose proof (N IRON). pose proof (N SILICON).
  pose proof (N GOLD). pose proof (N KRONOS).
  unfold MINERAL_VALUES. lra.
Qed.

Lemma refuel_credits_nonneg (s : PlayerState) :
  0 <= credits (refuel s).
Proof.
  unfold refuel.
  destruct (geb_spec (credits s)
              (inject_Z (Num.ceil ((maxFuel (shipConfig s) - currentFuel s) * 0.1))))
    as [G|G]; cbv [credits]; fold (credits s); lra.
Qed.

Lemma upgradeStat_credits (k : StatKey) (step cost : Q) (s : PlayerState) :
  (cost <= credits s ->
     credits (upgradeStat k step cost s) == credits s - cost)
  /\ (credits s < cost -> upgradeStat k step cost s = s).
Proof.
  unfold upgradeStat.
  destruct (geb_spec (credits s) cost) as [G|G]; split; intro H;
    try lra; reflexivity.
Qed.

Lemma apply_credits_nonneg (o : Op) (s : PlayerState) :
  cargoNonneg (cargo s) -> 0 <= credits s -> 0 <= credits (apply o s).
Proof.
  intros Hc H.
  assert (U : forall k step cost, 0 <= credits (upgradeStat k step cost s)).
  { intros k step cost.
    destruct (upgradeStat_credits k step cost s) as [A B].
    destruct (Qlt_le_dec (credits s) cost) as [L|L].
    - rewrite (B L). exact H.
    - rewrite (A L). lra. }
  destruct o as [| |k step cost|u]; simpl.
  - now apply sellAll_credits_nonneg.
  - apply refuel_credits_nonneg.
  - apply U.
  - apply U.
Qed.

Lemma apply_cargo_nonneg (o : Op) (s : PlayerState) :
  cargoNonneg (cargo s) -> cargoNonneg (cargo (apply o s)).
Proof.
  intros Hc. destruct o as [| |k step cost|u]; simpl.
  - intros []; cbv; discriminate.
  - unfold refuel. destruct (_ >=? _); exact Hc.
  - unfold upgradeStat. destruct (_ >=? _); exact Hc.
  - unfold install, upgradeStat. destruct (_ >=? _); exact Hc.
Qed.

(** C10.  From non-negative credits (and cargo counts, which the sale
    multiplies by the prices) every station operation, and so every series
    of them, leaves non-negative credits; an upgrade takes exactly its cost
    when the credits reach it and changes nothing otherwise; a refuel that
    cannot be paid in full leaves exactly 0. *)
Theorem credits_never_negative (s : PlayerState) :
  cargoNonneg (cargo s) -> 0 <= credits s ->
  (forall o, 0 <= credits (apply o s))
  /\ (forall os, 0 <= credits (fold_left (fun s o => apply o s) os s))
  /\ (forall k step cost,
        (cost <= credits s ->
           credits (upgradeStat k step cost s) == credits s - cost)
        /\ (credits s < cost -> upgradeStat k step cost s = s))
  /\ (credits s
       < inject_Z (Qceiling (0.1 * (maxFuel (shipConfig s) - currentFuel s))) ->
       credits (refuel s) = 0).
Proof.
  intros Hc H.
  split; [intro o; now apply apply_credits_nonneg|].
  split.
  { intro os. revert s Hc H.
    induction os as [|o os IH]; intros s Hc H; simpl; [exact H|].
    apply IH; [now apply apply_cargo_nonneg|now apply apply_credits_nonneg]. }
  split; [intros; apply upgradeStat_credits|].
  intro L. exact (proj1 (proj2 (refuel_cases s) L)).
Qed.

Lemma credits_never_negative_witness :
  cargoNonneg (cargo dockedShip) /\ 0 <= credits dockedShip
  /\ 0 <= credits (apply OpRefuel (apply OpSellAll dockedShip)).
Proof.
  assert (Hc : cargoNonneg (cargo dockedShip)) by (intros []; discriminate).
  assert (H : 0 <= credits dockedShip) by discriminate.
  split; [exact Hc|]. split; [exact H|].
  exact (proj1 (proj2 (credits_never_negative dockedShip Hc H))
           [OpSellAll; OpRefuel]).
Defined.

End StationFacts.

Module CanvasFacts.
Import Canvas NumFacts.

(** Case analysis on every test of a phase, then computation. *)
Ltac cases :=
  repeat match goal with
         | |- context [match ?x with _ => _ end] => destruct x eqn:?
         | |- context [if ?b then _ else _] => destruct b eqn:?
         end.

Ltac phase := intros; cases; try reflexivity.

Section Phases.

Variable M : MathLib.
Variable inp : Input.

(** *** [physics] *)

Lemma physics_fuel w :
  fuel (physics M inp w)
  = if thrusts inp w then fuel w - thrustConsumptionRate (config w) else fuel w.
Proof. unfold physics. phase. Qed.

Lemma physics_config w : config (physics M inp w) = config w.
Proof. unfold physics. phase. Qed.

Lemma physics_cargo w : cargo (ship (physics M inp w)) = cargo (ship w).
Proof. unfold physics. phase. Qed.

Lemma physics_asteroids w : asteroids (physics M inp w) = asteroids w.
Proof. unfold physics. phase. Qed.

Lemma physics_alien w : alien (physics M inp w) = alien w.
Proof. unfold physics. phase. Qed.

Lemma physics_loot w : loot (physics M inp w) = loot w.
Proof. unfold physics. phase. Qed.

(** *** [idle] *)

Lemma idle_None w :
  idle w = None <-> fuel w <= 0 /\ stopped (ship w) = true.
Proof.
  unfold idle, fuel.
  destruct (gtb_spec (currentFuel (ship w)) 0) as [G|G].
  - split; [discriminate|]. intros [H _]. lra.
  - destruct (stopped (ship w)).
    + split; [intros _; split; [exact G|reflexivity]|reflexivity].
    + split; [discriminate|]. intros [_ H]. discriminate.
Qed.

Lemma idle_fuel w w' :
  idle w = Some w' ->
  fuel w' = if fuel w >? 0 then fuel w - fuelConsumptionRate (config w) else fuel w.
Proof.
  unfold idle, fuel, config. intro H.
  destruct (currentFuel (ship w) >? 0).
  - injection H as <-. reflexivity.
  - destruct (stopped (ship w)); [discriminate|]. injection H as <-. reflexivity.
Qed.

Lemma idle_rest w w' :
  idle w = Some w' ->
  config w' = config w /\ cargo (ship w') = cargo (ship w)
  /\ asteroids w' = asteroids w /\ alien w' = alien w /\ loot w' = loot w
  /\ particles w' = particles w /\ position (ship w') = position (ship w)
  /\ velocity (ship w') = velocity (ship w).
Proof.
  unfold idle, config. intro H.
  destruct (currentFuel (ship w) >? 0).
  - injection H as <-. repeat split.
  - destruct (stopped (ship w)); [discriminate|]. injection H as <-. repeat split.
Qed.

(** *** camera and alien spawn *)

Lemma follow_ship w : ship (follow inp w) = ship w.
Proof. reflexivity. Qed.

Lemma follow_asteroids w : asteroids (follow inp w) = asteroids w.
Proof. reflexivity. Qed.

Lemma spawnAlien_ship w : ship (spawnAlien M inp w) = ship w.
Proof. unfold spawnAlien. phase. Qed.

Lemma spawnAlien_asteroids w : asteroids (spawnAlien M inp w) = asteroids w.
Proof. unfold spawnAlien. phase. Qed.

Lemma spawnAlien_loot w : loot (spawnAlien M inp w) = loot w.
Proof. unfold spawnAlien. phase. Qed.


(** *** The alien: movement, drain, theft *)

Lemma Qfloor_unique (q : Q) (k : Z) :
  inject_Z k <= q -> q < inject_Z (k + 1) -> Qfloor q = k.
Proof.
  intros L U.
  pose proof (Qfloor_le q) as A. pose proof (Qlt_floor q) as B.
  assert (k < Qfloor q + 1)%Z as C.
  { rewrite Zlt_Qlt. eapply Qle_lt_trans; eassumption. }
  assert (Qfloor q < k + 1)%Z as D.
  { rewrite Zlt_Qlt. eapply Qle_lt_trans; eassumption. }
  lia.
Qed.

Lemma availableTypes_In c t :
  In t (availableTypes c) <-> (0 < cargoGet c t)%Z.
Proof.
  unfold availableTypes. rewrite filter_In, Z.ltb_lt.
  split; [tauto|]. intro H. split; [|exact H].
  destruct t; simpl; tauto.
Qed.

Lemma availableTypes_nil c :
  availableTypes c = [] <-> forall t, (cargoGet c t <= 0)%Z.
Proof.
  split.
  - intros E t. destruct (Z.lt_ge_cases 0 (cargoGet c t)) as [L|L]; [|lia].
    apply availableTypes_In in L. rewrite E in L. destruct L.
  - intro H. destruct (availableTypes c) as [|t l] eqn:E; [reflexivity|].
    assert (In t (availableTypes c)) as I by (rewrite E; left; reflexivity).
    apply availableTypes_In in I. specialize (H t). lia.
Qed.

Lemma availableTypes_NoDup c : NoDup (availableTypes c).
Proof.
  unfold availableTypes. apply NoDup_filter.
  repeat constructor; simpl; intuition discriminate.
Qed.

(** The [k]-th of [n] types is picked exactly while [r] is in the [k]-th of
    the [n] equal parts of the unit interval. *)
Lemma pick_interval (r : Q) (types : list MineralType) (k : nat) :
  (k < List.length types)%nat ->
  inject_Z (Z.of_nat k) / inject_Z (Z.of_nat (List.length types)) <= r ->
  r < inject_Z (Z.of_nat k + 1) / inject_Z (Z.of_nat (List.length types)) ->
  pick r types = nth_error types k.
Proof.
  intros Hk L U. unfold pick, Num.floor.
  set (n := inject_Z (Z.of_nat (List.length types))) in *.
  assert (0 < n) as Hn.
  { unfold n. change 0 with (inject_Z 0). rewrite <- Zlt_Qlt. lia. }
  assert (Qfloor (r * n) = Z.of_nat k) as E.
  { apply Qfloor_unique.
    - apply (Qmult_le_compat_r _ _ n) in L; [|lra].
      setoid_replace (inject_Z (Z.of_nat k) / n * n)
        with (inject_Z (Z.of_nat k)) in L by (field; lra).
      exact L.
    - apply (Qmult_lt_compat_r _ _ n) in U; [|exact Hn].
      setoid_replace (inject_Z (Z.of_nat k + 1) / n * n)
        with (inject_Z (Z.of_nat k + 1)) in U by (field; lra).
      exact U. }
  rewrite E.
  destruct (Z.ltb_spec (Z.of_nat k) 0); [lia|].
  now rewrite Nat2Z.id.
Qed.

Lemma pick_Some (r : Q) (types : list MineralType) :
  0 <= r -> r < 1 -> types <> [] ->
  exists t, pick r types = Some t /\ In t types.
Proof.
  intros L U Hne. unfold pick, Num.floor.
  set (n := inject_Z (Z.of_nat (List.length types))) in *.
  assert (0 < List.length types)%nat as Hlen.
  { destruct types; [congruence|simpl; lia]. }
  assert (0 < n) as Hn.
  { unfold n. change 0 with (inject_Z 0). rewrite <- Zlt_Qlt. lia. }
  assert (0 <= Qfloor (r * n))%Z as A.
  { change 0%Z with (Qfloor (inject_Z 0)) at 1. apply Qfloor_resp_le.
    change (inject_Z 0) with 0. nra. }
  assert (Qfloor (r * n) < Z.of_nat (List.length types))%Z as B.
  { rewrite Zlt_Qlt. fold n.
    eapply Qle_lt_trans; [apply Qfloor_le|]. nra. }
  destruct (Z.ltb_spec (Qfloor (r * n)) 0); [lia|].
  destruct (nth_error types (Z.to_nat (Qfloor (r * n)))) as [t|] eqn:E.
  - exists t. split; [reflexivity|]. eapply nth_error_In; eassumption.
  - apply nth_error_None in E. lia.
Qed.

Lemma MineralType_eqb_eq a b : MineralType_eqb a b = true <-> a = b.
Proof. destruct a, b; simpl; split; congruence. Qed.

Lemma MineralType_eqb_refl a : MineralType_eqb a a = true.
Proof. now destruct a. Qed.

Lemma cargoGet_cargoSet c t v t' :
  cargoGet (cargoSet c t v) t'
  = if MineralType_eqb t t' then v else cargoGet c t'.
Proof. destruct t, t'; reflexivity. Qed.

Lemma stolenGet_stolenSet s t v t' :
  Alien.stolenGet (Alien.stolenSet s t v) t'
  = if MineralType_eqb t t' then v else Alien.stolenGet s t'.
Proof.
  induction s as [|[k v0] s IH]; simpl.
  - reflexivity.
  - destruct (MineralType_eqb k t) eqn:E; simpl.
    + apply MineralType_eqb_eq in E. subst k.
      destruct (MineralType_eqb t t'); reflexivity.
    + rewrite IH. destruct (MineralType_eqb k t') eqn:E'; [|reflexivity].
      apply MineralType_eqb_eq in E'. subst k.
      destruct (MineralType_eqb t t') eqn:E2; [|reflexivity].
      apply MineralType_eqb_eq in E2. subst t'.
      rewrite MineralType_eqb_refl in E. discriminate.
Qed.

Lemma moved_cargoSet c s t :
  moved t c (cargoSet c t (cargoGet c t - 1)%Z)
        s (Alien.stolenSet s t (Alien.stolenGet s t + 1)%Z).
Proof.
  split; intro t'.
  - rewrite cargoGet_cargoSet.
    destruct (MineralType_eqb t t') eqn:E; [|reflexivity].
    apply MineralType_eqb_eq in E. now subst.
  - rewrite stolenGet_stolenSet.
    destruct (MineralType_eqb t t') eqn:E; [|reflexivity].
    apply MineralType_eqb_eq in E. now subst.
Qed.

(** What [steal] does when [pick] gives [t]. *)
Lemma steal_pick w a t :
  availableTypes (cargo (ship w)) <> [] ->
  pick (rnd inp w 0) (availableTypes (cargo (ship w))) = Some t ->
  cargo (ship (fst (steal inp w a)))
  = cargoSet (cargo (ship w)) t (cargoGet (cargo (ship w)) t - 1)%Z
  /\ Alien.stolenCargo (snd (steal inp w a))
     = Alien.stolenSet (Alien.stolenCargo a) t
                       (Alien.stolenGet (Alien.stolenCargo a) t + 1)%Z.
Proof.
  intros Hne Hp. unfold steal.
  destruct (availableTypes (cargo (ship w))) as [|t0 l] eqn:E; [congruence|].
  rewrite Hp. split; reflexivity.
Qed.

Lemma steal_empty w a :
  availableTypes (cargo (ship w)) = [] ->
  steal inp w a = (w, withTimer 0 a).
Proof. intro E. unfold steal. now rewrite E. Qed.

Lemma steal_timer w a : Alien.drainTimer (snd (steal inp w a)) = 0%Z.
Proof. unfold steal. phase. Qed.

Lemma steal_config w a : config (fst (steal inp w a)) = config w.
Proof. unfold steal. phase. Qed.

Lemma steal_fuel w a : fuel (fst (steal inp w a)) = fuel w.
Proof. unfold steal. phase. Qed.

Lemma steal_asteroids w a : asteroids (fst (steal inp w a)) = asteroids w.
Proof. unfold steal. phase. Qed.

Lemma steal_loot w a : loot (fst (steal inp w a)) = loot w.
Proof. unfold steal. phase. Qed.

Lemma drain_tick_steal distSq w a :
  draining distSq a = true ->
  (ALIEN_CONFIG.DRAIN_INTERVAL <= Alien.drainTimer a + 1)%Z ->
  drain inp distSq w a = steal inp w (withTimer (Alien.drainTimer a + 1) a).
Proof.
  intros D T. unfold drain. rewrite D.
  destruct (Z.leb_spec ALIEN_CONFIG.DRAIN_INTERVAL
              (Alien.drainTimer (withTimer (Alien.drainTimer a + 1) a)))
    as [L|L]; [reflexivity|].
  simpl in L. lia.
Qed.

End Phases.

(** C5.  A drain tick is a frame in which the alien is DRAINING within the
    drain range and its timer reaches the drain interval.  On a tick the
    timer goes back to 0.  When some cargo count is positive, one unit of one
    such type moves from the cargo to the alien's stolen cargo and nothing
    else changes; the type is the [k]-th of the [n] present ones exactly
    while the random number lies in the [k]-th of the [n] equal parts of the
    unit interval, which is a uniform choice.  When no count is positive
    nothing moves.  Counts that were not negative are not negative after. *)
Theorem drain_tick (inp : Input) (w : World) (a : Alien.t) (distSq : Q) :
  0 <= rnd inp w 0 -> rnd inp w 0 < 1 ->
  draining distSq a = true ->
  (ALIEN_CONFIG.DRAIN_INTERVAL <= Alien.drainTimer a + 1)%Z ->
  let c := cargo (ship w) in
  let c' := cargo (ship (fst (drain inp distSq w a))) in
  let s := Alien.stolenCargo a in
  let s' := Alien.stolenCargo (snd (drain inp distSq w a)) in
  let types := availableTypes c in
  Alien.drainTimer (snd (drain inp distSq w a)) = 0%Z
  /\ (forall t, In t types <-> (0 < cargoGet c t)%Z)
  /\ NoDup types
  /\ ((exists t, (0 < cargoGet c t)%Z) ->
      exists t, (0 < cargoGet c t)%Z /\ moved t c c' s s')
  /\ (forall k t,
        nth_error types k = Some t ->
        inject_Z (Z.of_nat k) / inject_Z (Z.of_nat (List.length types))
        <= rnd inp w 0
        < inject_Z (Z.of_nat k + 1) / inject_Z (Z.of_nat (List.length types)) ->
        moved t c c' s s')
  /\ ((forall t, (cargoGet c t <= 0)%Z) -> c' = c /\ s' = s)
  /\ (cargoNonneg c -> cargoNonneg c').
Proof.
  intros R0 R1 D T c c' s s' types.
  assert (E := drain_tick_steal inp distSq w a D T).
  set (a1 := withTimer (Alien.drainTimer a + 1) a) in E.
  assert (Hs : s = Alien.stolenCargo a1) by reflexivity.
  unfold c', s'. rewrite E. clear c' s' E.
  assert (P : forall t, pick (rnd inp w 0) types = Some t ->
                        moved t c (cargo (ship (fst (steal inp w a1))))
                              s (Alien.stolenCargo (snd (steal inp w a1)))).
  { intros t Hp.
    assert (types <> []) as Hne.
    { intro Z. rewrite Z in Hp. unfold pick in Hp.
      destruct (_ <? _)%Z; [discriminate|].
      destruct (Z.to_nat _); discriminate. }
    destruct (steal_pick inp w a1 t Hne Hp) as [-> ->].
    rewrite Hs. apply moved_cargoSet. }
  split; [apply steal_timer|].
  split; [apply availableTypes_In|].
  split; [apply availableTypes_NoDup|].
  split.
  { intros [t0 H0].
    assert (types <> []) as Hne.
    { intro Z. apply availableTypes_In in H0. fold c types in H0.
      rewrite Z in H0. destruct H0. }
    destruct (pick_Some _ types R0 R1 Hne) as (t & Hp & Hin).
    exists t. split; [now apply availableTypes_In|]. now apply P. }
  split.
  { intros k t Hk [L U]. apply P.
    rewrite (pick_interval _ types k); trivial.
    apply nth_error_Some. congruence. }
  split.
  { intro H. apply availableTypes_nil in H.
    rewrite (steal_empty inp w a1 H). split; reflexivity. }
  intros N t.
  assert (types = [] \/ types <> []) as [Ea|Hne]
    by (destruct types; [left; reflexivity|right; discriminate]).
  { rewrite (steal_empty inp w a1 Ea). apply N. }
  destruct (pick_Some _ types R0 R1 Hne) as (t1 & Hp & Hin).
  destruct (P t1 Hp) as [Hc _]. rewrite Hc.
  destruct (MineralType_eqb t1 t) eqn:Eq; [|apply N].
  apply MineralType_eqb_eq in Eq. subst t1.
  apply availableTypes_In in Hin. lia.
Qed.


(** *** Lists: the first match, removal and replacement at a position *)

Lemma findIndex_Some {A} (p : A -> bool) (l : list A) (i : nat) :
  findIndex p l = Some i <->
  (exists a, nth_error l i = Some a /\ p a = true)
  /\ (forall j b, (j < i)%nat -> nth_error l j = Some b -> p b = false).
Proof.
  revert i. induction l as [|a l IH]; intro i; simpl.
  - split; [discriminate|]. intros [[b [H _]] _]. destruct i; discriminate.
  - destruct (p a) eqn:Pa.
    + split.
      * intros [= <-]. split; [exists a; auto|]. intros j b Hj. lia.
      * intros [[b [H Hb]] F]. destruct i as [|i]; [reflexivity|].
        specialize (F O a (Nat.lt_0_succ i) eq_refl). congruence.
    + destruct (findIndex p l) as [k|] eqn:Ek.
      * split.
        -- intros [= <-]. destruct (proj1 (IH k) eq_refl) as [[b [H Hb]] F].
           split; [exists b; auto|].
           intros [|j] c Hj Hc; simpl in Hc; [congruence|].
           apply (F j); [lia|exact Hc].
        -- intros [[b [H Hb]] F]. destruct i as [|i]; simpl in H; [congruence|].
           assert (Some k = Some i) as E; [|congruence].
           apply IH. split; [exists b; auto|].
           intros j c Hj Hc. apply (F (S j)); [lia|exact Hc].
      * split; [discriminate|].
        intros [[b [H Hb]] F]. destruct i as [|i]; simpl in H; [congruence|].
        assert (@None nat = Some i) as E; [|congruence].
        apply IH. split; [exists b; auto|].
        intros j c Hj Hc. apply (F (S j)); [lia|exact Hc].
Qed.

Lemma findIndex_None {A} (p : A -> bool) (l : list A) :
  findIndex p l = None <-> forall a, In a l -> p a = false.
Proof.
  induction l as [|a l IH]; simpl.
  - split; [intros _ a []|reflexivity].
  - destruct (p a) eqn:Pa.
    + split; [discriminate|]. intro H. specialize (H a (or_introl eq_refl)).
      congruence.
    + destruct (findIndex p l).
      * split; [discriminate|]. intro H.
        assert (Some n = None) as E; [|discriminate].
        apply IH. intros b Hb. apply H. now right.
      * split; [|reflexivity]. intros _ b [<-|Hb]; [exact Pa|].
        now apply (proj1 IH).
Qed.

Lemma replaceAt_same {A} (i : nat) (v : A) (l : list A) :
  (i < List.length l)%nat -> nth_error (replaceAt i v l) i = Some v.
Proof.
  revert i. induction l as [|a l IH]; intros [|i] H; simpl in *; try lia.
  - reflexivity.
  - apply IH. lia.
Qed.

Lemma replaceAt_other {A} (i j : nat) (v : A) (l : list A) :
  i <> j -> nth_error (replaceAt i v l) j = nth_error l j.
Proof.
  revert i j. induction l as [|a l IH]; intros [|i] [|j] H; simpl;
    try reflexivity; try congruence.
  apply IH. congruence.
Qed.

Lemma replaceAt_length {A} (i : nat) (v : A) (l : list A) :
  List.length (replaceAt i v l) = List.length l.
Proof.
  revert i. induction l as [|a l IH]; intros [|i]; simpl; auto.
Qed.

Lemma removeAt_replaceAt {A} (i : nat) (v : A) (l : list A) :
  removeAt i (replaceAt i v l) = removeAt i l.
Proof.
  revert i. induction l as [|a l IH]; intros [|i]; simpl; auto.
  now rewrite IH.
Qed.

Lemma removeAt_length {A} (i : nat) (l : list A) :
  (i < List.length l)%nat -> S (List.length (removeAt i l)) = List.length l.
Proof.
  revert i. induction l as [|a l IH]; intros [|i] H; simpl in *; try lia.
  rewrite IH; lia.
Qed.

Lemma removeAt_In {A} (i : nat) (l : list A) (a : A) :
  In a (removeAt i l) -> In a l.
Proof.
  revert i. induction l as [|b l IH]; intros [|i] H; simpl in *; auto.
  destruct H as [H|H]; [now left|right; eauto].
Qed.

Lemma removeAt_map {A B} (f : A -> B) (i : nat) (l : list A) :
  map f (removeAt i l) = removeAt i (map f l).
Proof.
  revert i. induction l as [|b l IH]; intros [|i]; simpl; auto.
  now rewrite IH.
Qed.

(** In a list without repetition the element removed is gone. *)
Lemma removeAt_NoDup {A} (i : nat) (l : list A) (a : A) :
  NoDup l -> nth_error l i = Some a -> ~ In a (removeAt i l).
Proof.
  revert i. induction l as [|b l IH]; intros [|i] N H; simpl in *;
    try discriminate.
  - injection H as ->. now inversion N.
  - inversion N as [|? ? Nb Nl]; subst. intros [->|I].
    + apply Nb. eapply nth_error_In; eassumption.
    + eapply IH; eassumption.
Qed.

Section Laser.

Variable M : MathLib.
Variable inp : Input.

(** *** The laser on the alien *)

Lemma spark_rest cx cy spread kick life color size w :
  let w' := spark inp cx cy spread kick life color size w in
  ship w' = ship w /\ asteroids w' = asteroids w /\ alien w' = alien w
  /\ loot w' = loot w /\ shake w' = shake w
  /\ (particles w' = particles w
      \/ exists p, particles w' = particles w ++ [p]).
Proof.
  unfold spark. destruct (_ >? _); cbn; repeat split; eauto.
Qed.

Lemma hitAlien_alien w a :
  alien (hitAlien inp w a)
  = if Alien.hp a - miningPower (config w) <=? 0 then None
    else Some (withHp (Alien.hp a - miningPower (config w)) a).
Proof.
  unfold hitAlien, spark, config. cbn [withHp Alien.hp].
  destruct (_ <=? _); [|destruct (_ >? _); reflexivity].
  destruct (dropStolen _ _ _ _). reflexivity.
Qed.

Lemma hitAlien_asteroids w a : asteroids (hitAlien inp w a) = asteroids w.
Proof.
  unfold hitAlien, spark. cbn [withHp Alien.hp].
  destruct (_ <=? _); [|destruct (_ >? _); reflexivity].
  destruct (dropStolen _ _ _ _). destruct (_ >? _); reflexivity.
Qed.

Lemma hitAlien_ship w a :
  ship (hitAlien inp w a)
  = withFuel (fuel w - thrustConsumptionRate (config w) * 0.5) (ship w).
Proof.
  unfold hitAlien, spark. cbn [withHp Alien.hp].
  destruct (_ <=? _); [|destruct (_ >? _); reflexivity].
  destruct (dropStolen _ _ _ _). destruct (_ >? _); reflexivity.
Qed.

(** *** The laser on an asteroid *)

Lemma mine_None w : mine inp None w = w.
Proof. reflexivity. Qed.

Lemma shatter_asteroids i ast w :
  asteroids (shatter inp i ast w) = removeAt i (asteroids w).
Proof. reflexivity. Qed.

Lemma mine_asteroids w i ast :
  nth_error (asteroids w) i = Some ast ->
  asteroids (mine inp (Some i) w)
  = if Asteroid.health ast - miningPower (config w) <=? 0
    then removeAt i (asteroids w)
    else replaceAt i (Asteroid.hit (miningPower (config w)) ast) (asteroids w).
Proof.
  intro H. unfold mine, config. rewrite H. cbn [Asteroid.hit Asteroid.health].
  destruct (_ <=? _).
  - rewrite shatter_asteroids.
    unfold spark. destruct (_ >? _); cbn; apply removeAt_replaceAt.
  - unfold spark. destruct (_ >? _); reflexivity.
Qed.

Lemma mine_alien w t : alien (mine inp t w) = alien w.
Proof.
  unfold mine, shatter, spark. destruct t as [i|]; [|reflexivity].
  destruct (nth_error _ _); [|reflexivity].
  destruct (_ <=? _); destruct (_ >? _); reflexivity.
Qed.

Lemma mine_ship w i ast :
  nth_error (asteroids w) i = Some ast ->
  ship (mine inp (Some i) w)
  = withFuel (fuel w - thrustConsumptionRate (config w) * 0.5) (ship w).
Proof.
  intro H. unfold mine, shatter, spark. rewrite H.
  destruct (_ <=? _); destruct (_ >? _); reflexivity.
Qed.

Lemma mine_invalid w i :
  nth_error (asteroids w) i = None -> mine inp (Some i) w = w.
Proof. intro H. unfold mine. now rewrite H. Qed.

(** The loot of the hit: one item when the rock shatters, else none. *)
Lemma mine_loot w i ast :
  nth_error (asteroids w) i = Some ast ->
  if Asteroid.health ast - miningPower (config w) <=? 0
  then exists vx vy,
      loot (mine inp (Some i) w)
      = loot w ++ [Loot.mk (Asteroid.x ast) (Asteroid.y ast) vx vy
                           (Asteroid.type ast)
                           (Qfloor (Asteroid.radius ast / 5))
                           LOOT_DESPAWN_TIME]
  else loot (mine inp (Some i) w) = loot w.
Proof.
  intro H. unfold mine, config. rewrite H. cbn [Asteroid.hit Asteroid.health].
  destruct (_ <=? _).
  - unfold shatter, ore, spark.
    destruct (_ >? _); cbn; eexists; eexists; reflexivity.
  - unfold spark. destruct (_ >? _); reflexivity.
Qed.

(** The particles of the hit: the spark or not, and 8 + 15 more when the
    rock shatters. *)
Lemma mine_particles w i ast :
  nth_error (asteroids w) i = Some ast ->
  exists sparks debris,
    particles (mine inp (Some i) w) = particles w ++ sparks ++ debris
    /\ (List.length sparks <= 1)%nat
    /\ List.length debris
       = if Asteroid.health ast - miningPower (config w) <=? 0
         then (8 + 15)%nat else 0%nat.
Proof.
  intro H. unfold mine, config. rewrite H. cbn [Asteroid.hit Asteroid.health].
  destruct (_ <=? _).
  - unfold shatter, spark. destruct (_ >? _); cbn - [map seq].
    + eexists [_]. eexists. rewrite <- app_assoc.
      split; [reflexivity|]. split; [simpl; lia|].
      reflexivity.
    + exists []. eexists. split; [reflexivity|]. split; [simpl; lia|].
      reflexivity.
  - unfold spark. destruct (_ >? _); cbn.
    + eexists [_]. exists []. rewrite app_nil_r. split; [reflexivity|].
      split; simpl; lia.
    + exists []. exists []. rewrite app_nil_r. split; [reflexivity|].
      split; simpl; lia.
Qed.

(** *** Who the laser is on *)

Lemma combat_off w :
  laserOn inp w = false -> combat M inp w = (w, mkAim false None).
Proof. intro H. unfold combat. now rewrite H. Qed.

Lemma combat_alien w a :
  laserOn inp w = true -> alien w = Some a -> aimsAtAlien M inp w a = true ->
  combat M inp w = (hitAlien inp w a, mkAim true None).
Proof. intros H A T. unfold combat. now rewrite H, A, T. Qed.

Lemma combat_rocks w :
  laserOn inp w = true ->
  (forall a, alien w = Some a -> aimsAtAlien M inp w a = false) ->
  combat M inp w
  = (w, mkAim false (findIndex (mineable inp w) (asteroids w))).
Proof.
  intros H A. unfold combat. rewrite H.
  destruct (alien w) as [a|]; [|reflexivity].
  now rewrite (A a eq_refl).
Qed.

Lemma combat_cases w :
  (laserOn inp w = false /\ combat M inp w = (w, mkAim false None))
  \/ (exists a, laserOn inp w = true /\ alien w = Some a
                /\ aimsAtAlien M inp w a = true
                /\ combat M inp w = (hitAlien inp w a, mkAim true None))
  \/ (laserOn inp w = true
      /\ (forall a, alien w = Some a -> aimsAtAlien M inp w a = false)
      /\ combat M inp w
         = (w, mkAim false (findIndex (mineable inp w) (asteroids w)))).
Proof.
  destruct (laserOn inp w) eqn:L.
  - right. destruct (alien w) as [a|] eqn:A.
    + destruct (aimsAtAlien M inp w a) eqn:T.
      * left. exists a. repeat split; trivial. now apply combat_alien.
      * right. assert (forall a0, Some a = Some a0 -> aimsAtAlien M inp w a0 = false)
          as F by (intros ? [= <-]; exact T).
        repeat split; trivial. apply combat_rocks; trivial. now rewrite A.
    + right. assert (forall a0, @None Alien.t = Some a0 -> aimsAtAlien M inp w a0 = false)
          as F by discriminate.
      repeat split; trivial. apply combat_rocks; trivial. now rewrite A.
  - left. split; trivial. now apply combat_off.
Qed.

End Laser.

Section Frame.

Variable M : MathLib.
Variable inp : Input.

Lemma sqrt_ltb_spec (d2 r : Q) :
  Num.sqrt_ltb d2 r = true <-> 0 < r /\ d2 < r * r.
Proof.
  unfold Num.sqrt_ltb, Num.sq. rewrite andb_true_iff, !ltb_lt. reflexivity.
Qed.

Lemma sqrt_leb_spec (d2 r : Q) :
  Num.sqrt_leb d2 r = true <-> 0 <= r /\ d2 <= r * r.
Proof.
  unfold Num.sqrt_leb, Num.sq. rewrite andb_true_iff, !leb_le. reflexivity.
Qed.

(** *** The alien's turn leaves the ship's tank and the rocks alone *)

Lemma drain_rest distSq w a :
  let w' := fst (drain inp distSq w a) in
  fuel w' = fuel w /\ config w' = config w /\ asteroids w' = asteroids w
  /\ loot w' = loot w.
Proof.
  unfold drain. destruct (draining distSq a); [|repeat split].
  destruct (_ <=? _)%Z; [|repeat split].
  cbv zeta. rewrite steal_fuel, steal_config, steal_asteroids, steal_loot.
  repeat split.
Qed.

Lemma updateAlien_rest w :
  let w' := updateAlien M inp w in
  fuel w' = fuel w /\ config w' = config w /\ asteroids w' = asteroids w
  /\ loot w' = loot w.
Proof.
  unfold updateAlien. destruct (alien w) as [a|]; [|repeat split].
  pose proof (drain_rest (alienDistSq (ship w) a) w (moveAlien M (ship w) a)) as H.
  destruct (drain _ _ _ _) as [w' a']. exact H.
Qed.

Lemma approach_rest w0 w :
  approach M inp w0 = Some w ->
  asteroids w = asteroids w0 /\ config w = config w0 /\ loot w = loot w0.
Proof.
  unfold approach. destruct (idle _) as [w2|] eqn:I; [|discriminate].
  intros [= <-].
  destruct (updateAlien_rest (spawnAlien M inp (follow inp w2)))
    as (_ & C & A & L).
  destruct (idle_rest _ _ I) as (C2 & _ & A2 & _ & L2 & _).
  assert (C3 : config (spawnAlien M inp (follow inp w2)) = config w2)
    by (unfold config; now rewrite spawnAlien_ship).
  rewrite A, C, L, C3, spawnAlien_asteroids, spawnAlien_loot.
  cbn [follow withCamera asteroids loot].
  rewrite C2, A2, L2.
  rewrite (physics_config M inp), (physics_asteroids M inp), (physics_loot M inp).
  repeat split.
Qed.

End Frame.

(** C4.  The laser works only with the button down and fuel in the tank.
    Then, if there is an alien and the aim test holds for it (the cursor, in
    world space, less than 50 from its centre, and the alien less than
    [miningRange] from the nose of the ship), the alien alone is damaged;
    otherwise the target is the first asteroid of the list that has the
    cursor inside its circle and lies within [miningRange] of the ship, the
    earlier ones all failing the test, and that rock alone is damaged.
    [attackingAlien] and [miningTarget] are never both set, so no frame
    damages two entities. *)
Theorem one_target_per_frame (M : MathLib) (inp : Input) (w : World) :
  let aim := snd (combat M inp w) in
  let w' := mine inp (miningTarget aim) (fst (combat M inp w)) in
  let power := miningPower (config w) in
  (forall w0, approach M inp w0 = Some w ->
     update M inp w0 = Some (lootLogic inp w', aim)
     /\ asteroids w = asteroids w0)
  /\ (attackingAlien aim = true -> miningTarget aim = None)
  /\ (isDown inp = false \/ fuel w <= 0 -> aim = mkAim false None /\ w' = w)
  /\ (forall a,
        isDown inp = true -> 0 < fuel w ->
        alien w = Some a -> aimsAtAlien M inp w a = true ->
        aim = mkAim true None
        /\ asteroids w' = asteroids w
        /\ alien w' = if Alien.hp a - power <=? 0 then None
                      else Some (withHp (Alien.hp a - power) a))
  /\ (isDown inp = true -> 0 < fuel w ->
      (forall a, alien w = Some a -> aimsAtAlien M inp w a = false) ->
      attackingAlien aim = false
      /\ alien w' = alien w
      /\ (forall i,
            miningTarget aim = Some i <->
            (exists ast, nth_error (asteroids w) i = Some ast
                         /\ mineable inp w ast = true)
            /\ (forall j b, (j < i)%nat -> nth_error (asteroids w) j = Some b ->
                            mineable inp w b = false))
      /\ (forall i ast,
            miningTarget aim = Some i -> nth_error (asteroids w) i = Some ast ->
            asteroids w'
            = if Asteroid.health ast - power <=? 0
              then removeAt i (asteroids w)
              else replaceAt i (Asteroid.hit power ast) (asteroids w))
      /\ (miningTarget aim = None -> w' = w))
  /\ (forall a,
        aimsAtAlien M inp w a = true <->
        (let m := worldMouse inp w in
         let l := nose M (ship w) in
         let range := miningRange (config w) in
         Num.sq (Point.x m - Alien.x a) + Num.sq (Point.y m - Alien.y a)
         < 50 * 50
         /\ 0 < range
         /\ Num.sq (Alien.x a - Point.x l) + Num.sq (Alien.y a - Point.y l)
            < range * range))
  /\ (forall ast,
        mineable inp w ast = true <->
        (let m := worldMouse inp w in
         let p := position (ship w) in
         let range := miningRange (config w) in
         (Point.x m - Asteroid.x ast) * (Point.x m - Asteroid.x ast)
         + (Point.y m - Asteroid.y ast) * (Point.y m - Asteroid.y ast)
         < Asteroid.radius ast * Asteroid.radius ast
         /\ 0 <= range
         /\ Num.sq (Asteroid.x ast - Point.x p)
            + Num.sq (Asteroid.y ast - Point.y p) <= range * range)).
Proof.
  intros aim w' power.
  assert (On : isDown inp = true -> 0 < fuel w -> laserOn inp w = true).
  { intros D F. unfold laserOn. rewrite D. simpl. now apply ltb_lt. }
  split.
  { intros w0 A. split; [|apply (approach_rest M inp w0 w A)].
    unfold update, aimed. rewrite A. unfold w', aim.
    destruct (combat M inp w) as [w4 aim4]. reflexivity. }
  split.
  { unfold aim. destruct (combat_cases M inp w)
      as [[_ E]|[(a & _ & _ & _ & E)|(_ & _ & E)]]; rewrite E; simpl;
      congruence. }
  split.
  { intros Off. assert (laserOn inp w = false) as L.
    { unfold laserOn. destruct Off as [D|F]; [now rewrite D|].
      apply andb_false_iff. right. now apply ltb_ge. }
    unfold w', aim. rewrite (combat_off M inp w L). split; reflexivity. }
  split.
  { intros a D F A T. unfold w', aim.
    rewrite (combat_alien M inp w a (On D F) A T). simpl.
    split; [reflexivity|]. split; [apply hitAlien_asteroids|].
    apply hitAlien_alien. }
  split.
  { intros D F N. unfold w', aim.
    rewrite (combat_rocks M inp w (On D F) N). simpl.
    split; [reflexivity|]. split; [apply mine_alien|].
    split; [intro i; apply findIndex_Some|].
    split; [intros i ast -> H; now apply mine_asteroids|].
    intros ->. reflexivity. }
  split.
  { intro a. unfold aimsAtAlien. rewrite andb_true_iff, !sqrt_ltb_spec.
    cbv zeta. unfold config. split.
    - intros [[_ A] [B C]]. repeat split; assumption.
    - intros (A & B & C). repeat split; assumption. }
  intro ast. unfold mineable, underCursor, inRange.
  rewrite andb_true_iff, sqrt_leb_spec, ltb_lt. cbv zeta. unfold config.
  tauto.
Qed.

Section Ending.

Variable M : MathLib.
Variable inp : Input.

Lemma approach_None w :
  approach M inp w = None <-> idle (physics M inp (withUsed 0 w)) = None.
Proof.
  unfold approach. destruct (idle _); split; congruence.
Qed.

Lemma update_None w : update M inp w = None <-> approach M inp w = None.
Proof.
  unfold update, aimed. destruct (approach M inp w) as [w3|].
  - destruct (combat M inp w3). split; discriminate.
  - split; reflexivity.
Qed.

(** How a frame ends, from what [update] gives. *)
Lemma loop_cases w :
  match update M inp w with
  | None =>
      idle (physics M inp (withUsed 0 w)) = None
      /\ loop M inp w = GameOver (physics M inp (withUsed 0 w))
  | Some (w6, _) =>
      idle (physics M inp (withUsed 0 w)) <> None
      /\ loop M inp w
         = if docks (speedSq M inp (withUsed 0 w)) w6 then Dock (ship w6) w6
           else Continue (render w6)
  end.
Proof.
  unfold loop. destruct (update M inp w) as [[w6 aim]|] eqn:U.
  - split; [|reflexivity]. intro I.
    apply approach_None, update_None in I. congruence.
  - split; [|reflexivity]. now apply approach_None, update_None.
Qed.

Lemma stopped_spec s :
  stopped s = true
  <-> Qabs (Point.x (velocity s)) < 0.1 /\ Qabs (Point.y (velocity s)) < 0.1.
Proof. unfold stopped. now rewrite andb_true_iff, !ltb_lt. Qed.

Lemma docks_spec speedSq0 w :
  docks speedSq0 w = true
  <-> Num.sq (Point.x (position (ship w))) + Num.sq (Point.y (position (ship w)))
      < DOCKING_RANGE * DOCKING_RANGE
      /\ speedSq0 < 0.5 * 0.5.
Proof.
  unfold docks. rewrite !andb_true_iff, !sqrt_ltb_spec. split.
  - intros [[[_ A] _] [_ B]]. split; assumption.
  - intros [A B]. repeat split; try assumption; try reflexivity.
    eapply Qlt_trans; [exact B|reflexivity].
Qed.

End Ending.

Lemma run_app M before after w :
  run M (before ++ after) w
  = match run M before w with
    | Continue w' => run M after w'
    | stop => stop
    end.
Proof.
  revert w. induction before as [|inp before IH]; intro w; simpl.
  - reflexivity.
  - destruct (loop M inp w); auto.
Qed.

(** C7.  [onGameOver] is called in exactly the frames in which, at the check
    (after the thrust, the drag and the cap of that frame), the fuel is not
    above zero and both components of the velocity are below 0.1 in
    magnitude: never with fuel above zero, never with a component at 0.1 or
    more.  The call ends [loop] without asking for another frame, so
    whatever is sampled later the mission stays over. *)
Theorem game_over_exactly (M : MathLib) (inp : Input) (w : World) :
  let w1 := physics M inp (withUsed 0 w) in
  let v := velocity (ship w1) in
  (loop M inp w = GameOver w1
   <-> fuel w1 <= 0 /\ Qabs (Point.x v) < 0.1 /\ Qabs (Point.y v) < 0.1)
  /\ (forall w', loop M inp w = GameOver w' -> w' = w1)
  /\ (0 < fuel w1 -> forall w', loop M inp w <> GameOver w')
  /\ (0.1 <= Qabs (Point.x v) \/ 0.1 <= Qabs (Point.y v) ->
      forall w', loop M inp w <> GameOver w')
  /\ (forall w' later,
        loop M inp w = GameOver w' -> run M (inp :: later) w = GameOver w')
  /\ (forall w' before later,
        run M before w = GameOver w' ->
        run M (before ++ later) w = GameOver w').
Proof.
  intros w1 v.
  assert (G : forall w', loop M inp w = GameOver w' ->
                         w' = w1 /\ idle w1 = None).
  { intros w' H. pose proof (loop_cases M inp w) as C.
    destruct (update M inp w) as [[w6 aim]|].
    - destruct C as [_ C]. rewrite C in H. destruct (docks _ _); discriminate.
    - destruct C as [I C]. rewrite C in H. injection H as <-. now split. }
  assert (E : loop M inp w = GameOver w1
              <-> fuel w1 <= 0 /\ Qabs (Point.x v) < 0.1 /\ Qabs (Point.y v) < 0.1).
  { unfold v. rewrite <- stopped_spec, <- idle_None. split.
    - intro H. now apply G in H.
    - intro I. pose proof (loop_cases M inp w) as C.
      destruct (update M inp w) as [[w6 aim]|]; [|tauto].
      destruct C as [C _]. contradiction. }
  split; [exact E|].
  split; [intros w' H; now apply G in H|].
  split.
  { intros F w' H. destruct (G w' H) as [-> _]. apply E in H. lra. }
  split.
  { intros V w' H. destruct (G w' H) as [-> _]. apply E in H. lra. }
  split.
  { intros w' later H. simpl. now rewrite H. }
  intros w' before later H. rewrite run_app. now rewrite H.
Qed.

Section Hull.

Variable M : MathLib.
Variable inp : Input.

Lemma sameHull_refl s : sameHull s s.
Proof. repeat split. Qed.

Lemma sameHull_trans s1 s2 s3 :
  sameHull s1 s2 -> sameHull s2 s3 -> sameHull s1 s3.
Proof.
  unfold sameHull. intros (A1 & A2 & A3 & A4 & A5) (B1 & B2 & B3 & B4 & B5).
  repeat split; congruence.
Qed.

Lemma sameHull_withFuel f s : sameHull s (withFuel f s).
Proof. repeat split. Qed.

Lemma sameHull_withCargo c s : sameHull s (withCargo c s).
Proof. repeat split. Qed.

Lemma cargoTotal_cargoSet c t v :
  cargoTotal (cargoSet c t v) = (cargoTotal c - cargoGet c t + v)%Z.
Proof. destruct t; unfold cargoTotal; simpl; lia. Qed.

(** *** The alien's turn and the hold *)

Lemma steal_hull w a : sameHull (ship w) (ship (fst (steal inp w a))).
Proof. unfold steal. cases; cbn; repeat split. Qed.

Lemma steal_total w a :
  (cargoTotal (cargo (ship (fst (steal inp w a)))) <= cargoTotal (cargo (ship w)))%Z.
Proof.
  unfold steal.
  destruct (availableTypes (cargo (ship w))) as [|t0 l]; [simpl; lia|].
  destruct (pick _ _) as [t|]; [|simpl; lia].
  cbn [fst advance pushParticles withUsed withParticles withShip withCargo
       ship cargo].
  rewrite cargoTotal_cargoSet. lia.
Qed.

Lemma drain_hull distSq w a :
  sameHull (ship w) (ship (fst (drain inp distSq w a)))
  /\ (cargoTotal (cargo (ship (fst (drain inp distSq w a))))
      <= cargoTotal (cargo (ship w)))%Z.
Proof.
  unfold drain. destruct (draining distSq a); [|split; [apply sameHull_refl|simpl; lia]].
  destruct (_ <=? _)%Z; [|split; [apply sameHull_refl|simpl; lia]].
  split; [apply steal_hull|apply steal_total].
Qed.

Lemma updateAlien_hull w :
  sameHull (ship w) (ship (updateAlien M inp w))
  /\ (cargoTotal (cargo (ship (updateAlien M inp w)))
      <= cargoTotal (cargo (ship w)))%Z.
Proof.
  unfold updateAlien. destruct (alien w) as [a|];
    [|split; [apply sameHull_refl|lia]].
  pose proof (drain_hull (alienDistSq (ship w) a) w (moveAlien M (ship w) a)) as H.
  destruct (drain _ _ _ _) as [w' a']. exact H.
Qed.

(** *** Loot *)

(** An item in reach that fits is absorbed whole; any other is left as it
    is, and so is the cargo. *)
Lemma collect_spec w l :
  let w' := fst (collect inp w l) in
  let l' := snd (collect inp w l) in
  (inReach (ship w) l && fits (ship w) l = true ->
     cargo (ship w')
     = cargoSet (cargo (ship w)) (Loot.type l)
                (cargoGet (cargo (ship w)) (Loot.type l) + Loot.amount l)%Z
     /\ l' = collected l)
  /\ (inReach (ship w) l && fits (ship w) l = false ->
     cargo (ship w') = cargo (ship w) /\ l' = l).
Proof.
  unfold collect.
  destruct (inReach (ship w) l); destruct (fits (ship w) l); simpl;
    split; intro H; try discriminate; try (split; reflexivity).
  destruct (_ <? _); split; reflexivity.
Qed.

Lemma fits_spec s l :
  fits s l = true
  <-> inject_Z (cargoTotal (cargo s) + Loot.amount l) <= maxCargo (shipConfig s).
Proof. apply leb_le. Qed.

Lemma collect_rest w l :
  let w' := fst (collect inp w l) in
  fuel w' = fuel w /\ sameHull (ship w) (ship w')
  /\ asteroids w' = asteroids w /\ alien w' = alien w
  /\ (withinCapacity (ship w) -> withinCapacity (ship w')).
Proof.
  unfold collect.
  destruct (inReach (ship w) l); [|repeat split; auto].
  destruct (fits (ship w) l) eqn:F.
  - cbn [fst pushParticles withParticles withShip withCargo ship asteroids alien].
    split; [reflexivity|]. split; [apply sameHull_withCargo|].
    split; [reflexivity|]. split; [reflexivity|]. intros _.
    unfold withinCapacity. cbn [withCargo cargo shipConfig].
    rewrite cargoTotal_cargoSet.
    apply fits_spec in F.
    replace (cargoTotal (cargo (ship w)) - cargoGet (cargo (ship w)) (Loot.type l)
             + (cargoGet (cargo (ship w)) (Loot.type l) + Loot.amount l))%Z
      with (cargoTotal (cargo (ship w)) + Loot.amount l)%Z by lia.
    exact F.
  - destruct (_ <? _); repeat split; auto.
Qed.

Lemma lootEach_rest ls : forall w,
  let w' := fst (lootEach inp w ls) in
  fuel w' = fuel w /\ sameHull (ship w) (ship w')
  /\ asteroids w' = asteroids w /\ alien w' = alien w
  /\ (withinCapacity (ship w) -> withinCapacity (ship w')).
Proof.
  induction ls as [|l ls IH]; intro w; simpl.
  - repeat split; auto.
  - pose proof (collect_rest w (drift l)) as C.
    destruct (collect inp w (drift l)) as [w1 l1]. simpl in C.
    specialize (IH w1).
    destruct (lootEach inp w1 ls) as [w2 ls']. simpl in *.
    destruct C as (C1 & C2 & C3 & C4 & C5).
    destruct IH as (I1 & I2 & I3 & I4 & I5).
    repeat split; try congruence; try apply (sameHull_trans _ _ _ C2 I2);
      auto.
Qed.

Lemma lootLogic_rest w :
  let w' := lootLogic inp w in
  fuel w' = fuel w /\ sameHull (ship w) (ship w')
  /\ asteroids w' = asteroids w /\ alien w' = alien w
  /\ (withinCapacity (ship w) -> withinCapacity (ship w')).
Proof.
  unfold lootLogic. pose proof (lootEach_rest (loot w) w) as H.
  destruct (lootEach inp w (loot w)) as [w' ls]. exact H.
Qed.

End Hull.

Section Ship.

Variable M : MathLib.
Variable inp : Input.

Lemma physics_thrusts_used w :
  thrusts inp (withUsed 0 w) = thrusts inp w.
Proof. reflexivity. Qed.

Lemma idle_hull w w' : idle w = Some w' -> sameHull (ship w) (ship w').
Proof.
  unfold idle. destruct (_ >? _).
  - intros [= <-]. apply sameHull_withFuel.
  - destruct (stopped _); [discriminate|]. intros [= <-]. apply sameHull_refl.
Qed.

(** The ship after the alien's turn, against the ship after the move. *)
Lemma approach_ship w0 w :
  approach M inp w0 = Some w ->
  let w1 := physics M inp (withUsed 0 w0) in
  sameHull (ship w1) (ship w)
  /\ fuel w = (if fuel w1 >? 0
               then fuel w1 - fuelConsumptionRate (config w1) else fuel w1)
  /\ (cargoTotal (cargo (ship w)) <= cargoTotal (cargo (ship w0)))%Z.
Proof.
  unfold approach. destruct (idle _) as [w2|] eqn:I; [|discriminate].
  intros [= <-]. set (w1 := physics M inp (withUsed 0 w0)) in *.
  set (w3 := spawnAlien M inp (follow inp w2)).
  assert (S3 : ship w3 = ship w2) by (unfold w3; now rewrite spawnAlien_ship).
  destruct (updateAlien_hull M inp w3) as [H T].
  destruct (updateAlien_rest M inp w3) as (F & _).
  rewrite S3 in H, T.
  split; [eapply sameHull_trans; [apply (idle_hull _ _ I)|exact H]|].
  split.
  - rewrite F. unfold fuel at 1. rewrite S3. apply (idle_fuel _ _ I).
  - destruct (idle_rest _ _ I) as (_ & C & _).
    rewrite C in T. unfold w1 in T. rewrite (physics_cargo M inp) in T.
    exact T.
Qed.

(** The ship after the laser, against the ship before it. *)
Lemma laser_ship w :
  let w' := mine inp (miningTarget (snd (combat M inp w))) (fst (combat M inp w)) in
  sameHull (ship w) (ship w')
  /\ cargo (ship w') = cargo (ship w)
  /\ (fuel w' = fuel w
      \/ (0 < fuel w
          /\ fuel w' = fuel w - thrustConsumptionRate (config w) * 0.5)).
Proof.
  assert (On : laserOn inp w = true -> 0 < fuel w).
  { unfold laserOn. intro H. apply andb_true_iff in H. now apply ltb_lt. }
  destruct (combat_cases M inp w)
    as [[_ E]|[(a & L & _ & _ & E)|(L & _ & E)]]; rewrite E; simpl.
  - split; [apply sameHull_refl|]. split; [reflexivity|now left].
  - unfold fuel at 2 4. rewrite hitAlien_ship.
    split; [apply sameHull_withFuel|]. split; [reflexivity|].
    right. split; [auto|reflexivity].
  - destruct (findIndex (mineable inp w) (asteroids w)) as [i|] eqn:Fi.
    + apply findIndex_Some in Fi. destruct Fi as [(ast & N & _) _].
      unfold fuel at 2 4. rewrite (mine_ship inp w i ast N).
      split; [apply sameHull_withFuel|]. split; [reflexivity|].
      right. split; [auto|reflexivity].
    + split; [apply sameHull_refl|]. split; [reflexivity|now left].
Qed.

(** The ship at the docking check, against the ship after the move. *)
Lemma update_ship w0 w6 aim :
  update M inp w0 = Some (w6, aim) ->
  let w1 := physics M inp (withUsed 0 w0) in
  let f2 := if fuel w1 >? 0
            then fuel w1 - fuelConsumptionRate (config w1) else fuel w1 in
  sameHull (ship w1) (ship w6)
  /\ (fuel w6 = f2
      \/ (0 < f2 /\ fuel w6 = f2 - thrustConsumptionRate (config w1) * 0.5))
  /\ (withinCapacity (ship w0) -> withinCapacity (ship w6)).
Proof.
  unfold update, aimed. cbv zeta.
  set (w1 := physics M inp (withUsed 0 w0)).
  set (f2 := if fuel w1 >? 0
             then fuel w1 - fuelConsumptionRate (config w1) else fuel w1).
  destruct (approach M inp w0) as [w3|] eqn:A; [|discriminate].
  destruct (approach_ship w0 w3 A) as (H3 & F3 & T3).
  pose proof (laser_ship w3) as L.
  destruct (combat M inp w3) as [w4 aim4]. simpl in L.
  intros [= <- <-].
  destruct L as (H5 & C5 & F5).
  set (w5 := mine inp (miningTarget aim4) w4) in *.
  destruct (lootLogic_rest inp w5) as (F6 & H6 & _ & _ & W6).
  assert (H15 : sameHull (ship w1) (ship w5))
    by (eapply sameHull_trans; eassumption).
  assert (Cfg : config w3 = config w1) by (apply H3).
  split; [eapply sameHull_trans; eassumption|].
  split.
  - rewrite F6. fold w1 in F3. fold f2 in F3. rewrite <- F3, <- Cfg. exact F5.
  - intro W. apply W6. unfold withinCapacity in *.
    rewrite C5. destruct H3 as (_ & Hc & _). rewrite (proj1 (proj2 H5)), Hc.
    unfold w1.
    change (shipConfig (ship (physics M inp (withUsed 0 w0))))
      with (config (physics M inp (withUsed 0 w0))).
    rewrite (physics_config M inp (withUsed 0 w0)).
    eapply Qle_trans; [|exact W]. rewrite <- Zle_Qle. exact T3.
Qed.

Lemma render_ship w : ship (render w) = ship w.
Proof. reflexivity. Qed.

(** The world a frame leaves, whichever way it ends. *)
Lemma loop_world w :
  match update M inp w with
  | None => worldOf (loop M inp w) = physics M inp (withUsed 0 w)
  | Some (w6, _) => ship (worldOf (loop M inp w)) = ship w6
  end.
Proof.
  pose proof (loop_cases M inp w) as C.
  destruct (update M inp w) as [[w6 aim]|].
  - destruct C as [_ ->]. destruct (docks _ _); reflexivity.
  - destruct C as [_ ->]. reflexivity.
Qed.

End Ship.

(** *** Fuel *)

(** What the laser takes: half the thrust rate when it is on the alien or
    on a rock, and then the button is down and the tank above zero. *)
Lemma laser_fuel (M : MathLib) (inp : Input) (w : World) :
  let aim := snd (combat M inp w) in
  let w' := mine inp (miningTarget aim) (fst (combat M inp w)) in
  fuel w'
  = if attackingAlien aim
       || match miningTarget aim with Some _ => true | None => false end
    then fuel w - thrustConsumptionRate (config w) * 0.5
    else fuel w.
Proof.
  destruct (combat_cases M inp w)
    as [[_ E]|[(a & L & _ & _ & E)|(L & _ & E)]]; rewrite E; simpl.
  - reflexivity.
  - unfold fuel at 1. now rewrite hitAlien_ship.
  - destruct (findIndex (mineable inp w) (asteroids w)) as [i|] eqn:Fi.
    + apply findIndex_Some in Fi. destruct Fi as [(ast & N & _) _].
      unfold fuel at 1. now rewrite (mine_ship inp w i ast N).
    + reflexivity.
Qed.

Lemma laser_guard (M : MathLib) (inp : Input) (w : World) :
  let aim := snd (combat M inp w) in
  attackingAlien aim
  || match miningTarget aim with Some _ => true | None => false end = true ->
  isDown inp = true /\ 0 < fuel w.
Proof.
  assert (On : laserOn inp w = true -> isDown inp = true /\ 0 < fuel w).
  { unfold laserOn. intro H. apply andb_true_iff in H. destruct H as [D F].
    split; [exact D|now apply ltb_lt]. }
  destruct (combat_cases M inp w)
    as [[_ E]|[(a & L & _ & _ & E)|(L & _ & E)]]; rewrite E; simpl.
  - discriminate.
  - intros _. now apply On.
  - intros _. now apply On.
Qed.

(** The account of a frame: the three deductions in their order, each
    whole and each behind its own test of the tank. *)
Lemma loop_account (M : MathLib) (inp : Input) (w : World) :
  let t := thrustConsumptionRate (config w) in
  let i := fuelConsumptionRate (config w) in
  let f1 := if isThrusting inp && (fuel w >? 0) then fuel w - t else fuel w in
  let f2 := if f1 >? 0 then f1 - i else f1 in
  match update M inp w with
  | Some (_, aim) =>
      let lasered :=
        attackingAlien aim
        || match miningTarget aim with Some _ => true | None => false end in
      (lasered = true -> isDown inp = true /\ 0 < f2)
      /\ fuel (worldOf (loop M inp w))
         = if lasered then f2 - t * 0.5 else f2
  | None => fuel (worldOf (loop M inp w)) = f1
  end.
Proof.
  intros t i f1 f2.
  pose proof (loop_world M inp w) as LW.
  assert (F1 : fuel (physics M inp (withUsed 0 w)) = f1)
    by exact (physics_fuel M inp (withUsed 0 w)).
  assert (C1 : config (physics M inp (withUsed 0 w)) = config w)
    by exact (physics_config M inp (withUsed 0 w)).
  unfold update, aimed in *.
  destruct (approach M inp w) as [w3|] eqn:A.
  - destruct (approach_ship M inp w w3 A) as (H3 & F3 & _).
    rewrite F1, C1 in F3. fold i f2 in F3.
    assert (C3 : config w3 = config w).
    { unfold config. destruct H3 as (_ & -> & _). exact C1. }
    pose proof (laser_fuel M inp w3) as LF.
    pose proof (laser_guard M inp w3) as LG. cbv zeta in LF, LG.
    destruct (combat M inp w3) as [w4 aim]. cbn [fst snd] in LF, LG.
    cbv zeta. split.
    + intro L. rewrite <- F3. now apply LG.
    + unfold fuel at 1. rewrite LW.
      fold (fuel (lootLogic inp (mine inp (miningTarget aim) w4))).
      destruct (lootLogic_rest inp (mine inp (miningTarget aim) w4))
        as (F6 & _).
      rewrite F6, LF, F3, C3. reflexivity.
  - rewrite LW. exact F1.
Qed.

(** One frame on the tank: it never fills, it is untouched once it is not
    above zero, and it ends above minus the largest single deduction. *)
Lemma loop_fuel (M : MathLib) (inp : Input) (w : World) :
  let t := thrustConsumptionRate (config w) in
  let i := fuelConsumptionRate (config w) in
  let w' := worldOf (loop M inp w) in
  0 <= t -> 0 <= i ->
  config w' = config w
  /\ fuel w' <= fuel w
  /\ (fuel w <= 0 -> fuel w' = fuel w)
  /\ (- Qmax t i < fuel w -> - Qmax t i < fuel w').
Proof.
  intros t i w' Ht Hi.
  pose proof (Q.le_max_l t i) as Bt. pose proof (Q.le_max_r t i) as Bi.
  set (w1 := physics M inp (withUsed 0 w)).
  assert (C1 : config w1 = config w)
    by exact (physics_config M inp (withUsed 0 w)).
  assert (F1 : fuel w1 = if thrusts inp w then fuel w - t else fuel w)
    by exact (physics_fuel M inp (withUsed 0 w)).
  assert (Th : thrusts inp w = true -> 0 < fuel w).
  { unfold thrusts. intro H. apply andb_true_iff in H. now apply ltb_lt. }
  assert (P1 : fuel w1 <= fuel w /\ (fuel w <= 0 -> fuel w1 = fuel w)
               /\ (- Qmax t i < fuel w -> - Qmax t i < fuel w1)).
  { rewrite F1. destruct (thrusts inp w).
    - specialize (Th eq_refl). repeat split; intros; lra.
    - repeat split; intros; lra. }
  pose proof (loop_world M inp w) as LW.
  pose proof (update_ship M inp w) as US.
  destruct (update M inp w) as [[w6 aim]|].
  - specialize (US w6 aim eq_refl). cbv zeta in US. fold w1 in US.
    destruct US as (H6 & F6 & _).
    assert (C6 : config w6 = config w) by (rewrite <- C1; apply H6).
    assert (E : fuel w' = fuel w6) by (unfold w', fuel; now rewrite LW).
    assert (C' : config w' = config w)
      by (unfold w', config in *; now rewrite LW).
    rewrite C1 in F6. fold t i in F6.
    split; [exact C'|]. rewrite E.
    destruct P1 as (P & Q_ & R).
    revert F6. destruct (gtb_spec (fuel w1) 0) as [G|G]; intro F6.
    + assert (0 < fuel w) as Pos by lra.
      destruct F6 as [->|[Pos2 ->]]; repeat split; intros; try lra;
        exfalso; lra.
    + destruct F6 as [->|[Pos _]]; [|lra].
      repeat split; auto.
  - unfold w'. rewrite LW. fold w1. split; [exact C1|exact P1].
Qed.

Lemma run_fuel (M : MathLib) (inps : list Input) : forall w,
  let t := thrustConsumptionRate (config w) in
  let i := fuelConsumptionRate (config w) in
  0 <= t -> 0 <= i ->
  config (worldOf (run M inps w)) = config w
  /\ (- Qmax t i < fuel w -> - Qmax t i < fuel (worldOf (run M inps w))).
Proof.
  induction inps as [|inp inps IH]; intros w t i Ht Hi; simpl.
  - split; auto.
  - destruct (loop_fuel M inp w Ht Hi) as (C & _ & _ & B).
    destruct (loop M inp w) as [w'|s w'|w'] eqn:L; simpl in *;
      try (split; assumption).
    specialize (IH w'). cbv zeta in IH. rewrite C in IH.
    destruct (IH Ht Hi) as [C' B']. split; [congruence|auto].
Qed.

(** C1, as the code has it.  No deduction is clamped.  A frame takes the
    thrust rate when a thrust key is held and the tank is above zero; then
    the idle rate when the tank is still above zero; then half the thrust
    rate when the laser is on the alien or on a rock, which needs the
    button down and the tank still above zero; each is taken whole, and the
    frame that ends the game takes the thrust alone.  So with non-negative
    rates the fuel of a frame never grows, stays as it is once it is not
    above zero, and, from a tank above minus the larger of the thrust and
    idle rates, ends above that bound, in one frame and over any run of
    frames. *)
Theorem fuel_floor (M : MathLib) (inp : Input) (w : World) :
  let t := thrustConsumptionRate (config w) in
  let i := fuelConsumptionRate (config w) in
  let w' := worldOf (loop M inp w) in
  let f1 := if isThrusting inp && (fuel w >? 0) then fuel w - t else fuel w in
  let f2 := if f1 >? 0 then f1 - i else f1 in
  0 <= t -> 0 <= i ->
  match update M inp w with
  | Some (_, aim) =>
      let lasered :=
        attackingAlien aim
        || match miningTarget aim with Some _ => true | None => false end in
      (lasered = true -> isDown inp = true /\ 0 < f2)
      /\ fuel w' = if lasered then f2 - t * 0.5 else f2
  | None => fuel w' = f1
  end
  /\ config w' = config w
  /\ fuel w' <= fuel w
  /\ (fuel w <= 0 -> fuel w' = fuel w)
  /\ (- Qmax t i < fuel w -> - Qmax t i < fuel w')
  /\ (forall inps,
        - Qmax t i < fuel w -> - Qmax t i < fuel (worldOf (run M inps w))).
Proof.
  intros t i w' f1 f2 Ht Hi.
  split; [exact (loop_account M inp w)|].
  destruct (loop_fuel M inp w Ht Hi) as (A & B & C & D).
  repeat split; trivial.
  intros inps. apply (run_fuel M inps w Ht Hi).
Qed.

Lemma fuel_floor_witness :
  0 <= thrustConsumptionRate (config Scene.nearlyDry)
  /\ 0 <= fuelConsumptionRate (config Scene.nearlyDry)
  /\ - Qmax (thrustConsumptionRate (config Scene.nearlyDry))
            (fuelConsumptionRate (config Scene.nearlyDry))
     < fuel (worldOf (loop Scene.math Scene.thrusting Scene.nearlyDry)).
Proof.
  assert (Ht : 0 <= thrustConsumptionRate (config Scene.nearlyDry))
    by discriminate.
  assert (Hi : 0 <= fuelConsumptionRate (config Scene.nearlyDry))
    by discriminate.
  assert (H0 : - Qmax (thrustConsumptionRate (config Scene.nearlyDry))
                      (fuelConsumptionRate (config Scene.nearlyDry))
               < fuel Scene.nearlyDry) by (vm_compute; reflexivity).
  split; [exact Ht|]. split; [exact Hi|].
  exact (proj1 (proj2 (proj2 (proj2 (proj2
           (fuel_floor Scene.math Scene.thrusting Scene.nearlyDry Ht Hi)))))
         H0).
Defined.

(** C1 as stated fails: with 0.3 units of fuel and W held, the thrust takes
    its 0.5 and the frame ends with -0.2 in the tank. *)
Lemma fuel_below_zero :
  0 < fuel Scene.nearlyDry
  /\ fuel (worldOf (loop Scene.math Scene.thrusting Scene.nearlyDry)) == -0.2
  /\ fuel (worldOf (loop Scene.math Scene.thrusting Scene.nearlyDry)) < 0.
Proof. vm_compute. repeat split. Qed.

(** *** Cargo *)

Lemma loop_within (M : MathLib) (inp : Input) (w : World) :
  withinCapacity (ship w) -> withinCapacity (ship (worldOf (loop M inp w))).
Proof.
  intro W.
  pose proof (loop_world M inp w) as LW.
  pose proof (update_ship M inp w) as US.
  destruct (update M inp w) as [[w6 aim]|].
  - rewrite LW. now apply (US w6 aim eq_refl).
  - rewrite LW. unfold withinCapacity.
    rewrite (physics_cargo M inp (withUsed 0 w)).
    change (shipConfig (ship (physics M inp (withUsed 0 w))))
      with (config (physics M inp (withUsed 0 w))).
    rewrite (physics_config M inp (withUsed 0 w)). exact W.
Qed.

Lemma run_within (M : MathLib) (inps : list Input) : forall w,
  withinCapacity (ship w) -> withinCapacity (ship (worldOf (run M inps w))).
Proof.
  induction inps as [|inp inps IH]; intros w W; simpl; [exact W|].
  pose proof (loop_within M inp w W) as L.
  destruct (loop M inp w) as [w'|s w'|w']; simpl in *; auto.
Qed.

(** C2.  A frame that starts with the cargo within the capacity of the hold
    ends with it within the capacity, after the alien's theft and the
    collection of every loot item, and so does any run of frames.  An item
    is absorbed only in reach of the ship and when the cargo total plus its
    whole amount fits: then the amount goes to the count of its type and
    its life to zero; otherwise the cargo and the item stay as they are,
    and nothing is collected in part. *)
Theorem cargo_within_capacity (M : MathLib) (inp : Input) (w : World) :
  withinCapacity (ship w) ->
  withinCapacity (ship (worldOf (loop M inp w)))
  /\ (forall inps, withinCapacity (ship (worldOf (run M inps w))))
  /\ (forall u l,
        let c := cargo (ship u) in
        let c' := cargo (ship (fst (collect inp u l))) in
        let l' := snd (collect inp u l) in
        let room :=
          inject_Z (cargoTotal c + Loot.amount l) <= maxCargo (config u) in
        (inReach (ship u) l = true /\ room ->
           (forall t, cargoGet c' t
                      = if MineralType_eqb (Loot.type l) t
                        then (cargoGet c t + Loot.amount l)%Z
                        else cargoGet c t)
           /\ cargoTotal c' = (cargoTotal c + Loot.amount l)%Z
           /\ Loot.life l' = 0%Z
           /\ Loot.amount l' = Loot.amount l /\ Loot.type l' = Loot.type l)
        /\ (~ (inReach (ship u) l = true /\ room) -> c' = c /\ l' = l)).
Proof.
  intro W.
  split; [now apply loop_within|].
  split; [intro inps; now apply run_within|].
  intros u l c c' l' room.
  destruct (collect_spec inp u l) as [A B]. split.
  - intros [R F]. apply fits_spec in F.
    destruct A as [A1 A2]; [now rewrite R, F|].
    fold c' in A1. fold l' in A2. rewrite A1, A2.
    split.
    { intro t. rewrite cargoGet_cargoSet.
      destruct (MineralType_eqb (Loot.type l) t) eqn:E; [|reflexivity].
      apply MineralType_eqb_eq in E. now subst t. }
    split; [rewrite cargoTotal_cargoSet; fold c; lia|].
    repeat split.
  - intro N. apply B. apply andb_false_iff.
    destruct (inReach (ship u) l); [|now left].
    right. destruct (fits (ship u) l) eqn:F; [|reflexivity].
    exfalso. apply N. split; [reflexivity|]. now apply fits_spec.
Qed.

(** A ship with 18 of its 20 places taken, and two items in reach: 3 units
    of gold, which do not fit, then 2 of iron, which do. *)
Lemma cargo_within_capacity_witness :
  let w := mkWorld (mkPlayerState 0 500 (mkCargo 10 8 0 0) INITIAL_SHIP_CONFIG
                                  (Point.mk 1000 0) (Point.mk 0 0) 0)
                   [] None []
                   [Loot.mk 1010 0 0 0 GOLD 3 100; Loot.mk 1000 10 0 0 IRON 2 100]
                   0 (Point.mk 0 0) 0 in
  withinCapacity (ship w)
  /\ withinCapacity (ship (worldOf (loop Scene.math Scene.hands_off w)))
  /\ cargo (ship (worldOf (loop Scene.math Scene.hands_off w)))
     = mkCargo 12 8 0 0.
Proof.
  intro w.
  assert (W : withinCapacity (ship w)) by discriminate.
  split; [exact W|].
  split; [exact (proj1 (cargo_within_capacity Scene.math Scene.hands_off w W))|].
  reflexivity.
Defined.

(** *** Docking *)

Lemma update_position (M : MathLib) (inp : Input) (w w6 : World) (aim : Aim) :
  update M inp w = Some (w6, aim) ->
  position (ship w6) = position (ship (physics M inp (withUsed 0 w))).
Proof. intro U. apply (update_ship M inp w w6 aim U). Qed.

(** C6, as the code has it.  In a frame that the game-over check has not
    ended, [onDock] is called, with the ship as the frame leaves it, exactly
    when the ship, where this frame's move has put it, is less than
    [DOCKING_RANGE] from the origin and the speed of the frame (after the
    drag, before the cap) is below 0.5; the test against 2 adds nothing.
    The call ends [loop]; otherwise the frame is drawn and the next one
    requested.  A frame ended by the game-over check calls no [onDock]. *)
Theorem dock_exactly (M : MathLib) (inp : Input) (w : World) :
  let speedSq0 := speedSq M inp (withUsed 0 w) in
  (forall w6 aim,
     update M inp w = Some (w6, aim) ->
     let p := position (ship w6) in
     let near := Num.sq (Point.x p) + Num.sq (Point.y p)
                 < DOCKING_RANGE * DOCKING_RANGE in
     let slow := speedSq0 < 0.5 * 0.5 in
     p = position (ship (physics M inp (withUsed 0 w)))
     /\ (loop M inp w = Dock (ship w6) w6 <-> near /\ slow)
     /\ (~ (near /\ slow) -> loop M inp w = Continue (render w6)))
  /\ (update M inp w = None -> forall s w', loop M inp w <> Dock s w')
  /\ (forall s w',
        loop M inp w = Dock s w' ->
        s = ship w' /\ exists aim, update M inp w = Some (w', aim))
  /\ (forall s w' later,
        loop M inp w = Dock s w' -> run M (inp :: later) w = Dock s w').
Proof.
  intro speedSq0.
  pose proof (loop_cases M inp w) as C.
  split.
  { intros w6 aim U p near slow. rewrite U in C. destruct C as [_ C].
    split; [apply (update_position M inp w w6 aim U)|].
    rewrite C. fold speedSq0.
    pose proof (docks_spec speedSq0 w6) as D. fold p near slow in D.
    destruct (docks speedSq0 w6).
    - split; [split; [intros _; now apply D|reflexivity]|].
      intro N. exfalso. apply N. now apply D.
    - split; [split; [discriminate|]|reflexivity].
      intro H. apply D in H. discriminate. }
  split.
  { intros U s w' H. rewrite U in C. destruct C as [_ C]. congruence. }
  split.
  { intros s w' H. destruct (update M inp w) as [[w6 aim]|].
    - destruct C as [_ C]. rewrite C in H.
      destruct (docks _ _); [|discriminate].
      injection H as <- <-. split; [reflexivity|]. now exists aim.
    - destruct C as [_ C]. congruence. }
  intros s w' later H. simpl. now rewrite H.
Qed.

(** C6 as stated fails: a ship at rest inside the docking range with an
    empty tank meets both conditions of the dock, and the frame calls
    [onGameOver] instead. *)
Lemma dock_lost_to_game_over :
  let w1 := physics Scene.math Scene.hands_off (withUsed 0 Scene.stranded) in
  let p := position (ship w1) in
  Num.sq (Point.x p) + Num.sq (Point.y p) < DOCKING_RANGE * DOCKING_RANGE
  /\ speedSq Scene.math Scene.hands_off (withUsed 0 Scene.stranded) < 0.5 * 0.5
  /\ loop Scene.math Scene.hands_off Scene.stranded = GameOver w1.
Proof. vm_compute. repeat split. Qed.

(** A docking frame: in range, drifting at 0.3, fuel in the tank. *)
Example dock_example :
  let w := Scene.space (Scene.shipAt 500 100 100 0.3 0) in
  let w' := worldOf (loop Scene.math Scene.hands_off w) in
  loop Scene.math Scene.hands_off w = Dock (ship w') w'
  /\ fuel w' == 499.95.
Proof. vm_compute. split; reflexivity. Qed.

(** *** Mining a rock, frame after frame *)

Lemma map_replaceAt {A B} (f : A -> B) (i : nat) (v a : A) (l : list A) :
  nth_error l i = Some a -> f v = f a -> map f (replaceAt i v l) = map f l.
Proof.
  revert i. induction l as [|b l IH]; intros [|i] H E; simpl in *;
    try discriminate.
  - injection H as ->. now rewrite E.
  - f_equal. now apply IH.
Qed.

Lemma incl_removeAt {A} (i : nat) (l : list A) : incl (removeAt i l) l.
Proof. intros a. apply removeAt_In. Qed.

Section Rock.

Variable M : MathLib.
Variable inp : Input.

Lemma render_asteroids w :
  asteroids (render w) = map Asteroid.drawn (asteroids w).
Proof. reflexivity. Qed.

Lemma ids_render w : ids (render w) = ids w.
Proof.
  unfold ids. rewrite render_asteroids, map_map. reflexivity.
Qed.

(** A hit leaves the list of identifiers as it is, or without the target. *)
Lemma mine_ids t w :
  ids (mine inp t w) = ids w
  \/ exists i, t = Some i /\ ids (mine inp t w) = removeAt i (ids w).
Proof.
  destruct t as [i|]; [|now left].
  destruct (nth_error (asteroids w) i) as [ast|] eqn:N.
  - unfold ids. rewrite (mine_asteroids inp w i ast N).
    destruct (_ <=? _).
    + right. exists i. split; [reflexivity|apply removeAt_map].
    + left. now apply (map_replaceAt Asteroid.id i _ ast).
  - left. now rewrite (mine_invalid inp w i N).
Qed.

Lemma combat_asteroids w : asteroids (fst (combat M inp w)) = asteroids w.
Proof.
  destruct (combat_cases M inp w)
    as [[_ E]|[(a & _ & _ & _ & E)|(_ & _ & E)]]; rewrite E; simpl;
    [reflexivity|apply hitAlien_asteroids|reflexivity].
Qed.

Lemma combat_config w : config (fst (combat M inp w)) = config w.
Proof.
  destruct (combat_cases M inp w)
    as [[_ E]|[(a & _ & _ & _ & E)|(_ & _ & E)]]; rewrite E; simpl;
    try reflexivity.
  unfold config. now rewrite hitAlien_ship.
Qed.

(** No frame adds a rock. *)
Lemma loop_ids w : incl (ids (worldOf (loop M inp w))) (ids w).
Proof.
  pose proof (loop_cases M inp w) as C.
  unfold update, aimed in C.
  destruct (approach M inp w) as [w3|] eqn:A.
  - destruct (approach_rest M inp w w3 A) as (A3 & _).
    pose proof (combat_asteroids w3) as A4.
    destruct (combat M inp w3) as [w4 aim]. simpl in A4.
    destruct C as [_ C]. rewrite C.
    set (w5 := mine inp (miningTarget aim) w4).
    destruct (lootLogic_rest inp w5) as (_ & _ & A6 & _).
    assert (I : incl (ids (lootLogic inp w5)) (ids w)).
    { unfold ids at 1. rewrite A6. fold (ids w5).
      replace (ids w) with (ids w4) by (unfold ids; congruence).
      destruct (mine_ids (miningTarget aim) w4) as [E|(i & _ & E)];
        fold w5 in E; rewrite E; [apply incl_refl|apply incl_removeAt]. }
    destruct (docks _ _); simpl; [exact I|]. now rewrite ids_render.
  - destruct C as [_ C]. rewrite C. simpl. unfold ids.
    rewrite (physics_asteroids M inp). apply incl_refl.
Qed.

(** A frame whose mining target is the rock at [i]: the world before the
    laser, in which the rocks are those of the start of the frame. *)
Lemma target_frame w i :
  targetOf M inp w = Some i ->
  exists w3,
    approach M inp w = Some w3
    /\ aimed M inp w = Some (w3, mkAim false (Some i))
    /\ update M inp w
       = Some (lootLogic inp (mine inp (Some i) w3), mkAim false (Some i))
    /\ asteroids w3 = asteroids w /\ config w3 = config w.
Proof.
  unfold targetOf, update, aimed.
  destruct (approach M inp w) as [w3|] eqn:A; [|discriminate].
  destruct (approach_rest M inp w w3 A) as (A3 & C3 & _).
  destruct (combat_cases M inp w3)
    as [[_ E]|[(a & _ & _ & _ & E)|(_ & _ & E)]]; rewrite E; simpl;
    try discriminate.
  intros ->. exists w3. repeat split; assumption.
Qed.

(** The rocks a frame leaves, from those at its docking check. *)
Lemma loop_asteroids w w6 aim :
  update M inp w = Some (w6, aim) ->
  (loop M inp w = Dock (ship w6) w6
   \/ loop M inp w = Continue (render w6))
  /\ ids (worldOf (loop M inp w)) = ids w6
  /\ config (worldOf (loop M inp w)) = config w6
  /\ List.length (asteroids (worldOf (loop M inp w)))
     = List.length (asteroids w6)
  /\ forall i, nth_error (asteroids (worldOf (loop M inp w))) i
               = nth_error (asteroids w6) i
               \/ nth_error (asteroids (worldOf (loop M inp w))) i
                  = option_map Asteroid.drawn (nth_error (asteroids w6) i).
Proof.
  intro U. pose proof (loop_cases M inp w) as C. rewrite U in C.
  destruct C as [_ C]. rewrite C. destruct (docks _ _); cbn [worldOf].
  - split; [now left|]. repeat split. now left.
  - split; [now right|]. split; [apply ids_render|]. split; [reflexivity|].
    split; [rewrite render_asteroids; apply List.length_map|].
    intro i. right. rewrite render_asteroids. apply nth_error_map.
Qed.

(** One more hit that the rock survives. *)
Lemma hit_survived w w' i a :
  targetOf M inp w = Some i -> loop M inp w = Continue w' ->
  nth_error (asteroids w) i = Some a ->
  0 < Asteroid.health a - miningPower (config w) ->
  exists a',
    nth_error (asteroids w') i = Some a' /\ sameRock a a'
    /\ Asteroid.health a' = Asteroid.health a - miningPower (config w)
    /\ config w' = config w /\ ids w' = ids w.
Proof.
  intros T L N H.
  destruct (target_frame w i T) as (w3 & _ & _ & U & A3 & C3).
  destruct (loop_asteroids w _ _ U) as (_ & I & Cf & _ & Nth).
  rewrite L in I, Cf, Nth. cbn [worldOf] in I, Cf, Nth.
  set (w5 := mine inp (Some i) w3) in *.
  destruct (lootLogic_rest inp w5) as (_ & H6 & A6 & _).
  rewrite <- A3 in N.
  pose proof (mine_asteroids inp w3 i a N) as A5. fold w5 in A5.
  rewrite C3 in A5.
  destruct (leb_spec (Asteroid.health a - miningPower (config w)) 0) as [G|G];
    [lra|].
  set (a1 := Asteroid.hit (miningPower (config w)) a) in *.
  assert (N5 : nth_error (asteroids w5) i = Some a1).
  { rewrite A5. apply replaceAt_same. apply nth_error_Some. congruence. }
  assert (C5 : config w5 = config w).
  { unfold w5, config. rewrite (mine_ship inp w3 i a N). exact C3. }
  assert (I5 : ids w5 = ids w).
  { unfold ids. rewrite A5, <- A3.
    now apply (map_replaceAt Asteroid.id i a1 a). }
  assert (C6 : config (lootLogic inp w5) = config w)
    by (rewrite <- C5; apply H6).
  assert (I6 : ids (lootLogic inp w5) = ids w)
    by (unfold ids at 1; rewrite A6; exact I5).
  destruct (Nth i) as [E|E]; rewrite A6, N5 in E.
  - exists a1. repeat split; trivial; congruence.
  - exists (Asteroid.drawn a1). repeat split; trivial; congruence.
Qed.

End Rock.

Lemma sameRock_trans a b c : sameRock a b -> sameRock b c -> sameRock a c.
Proof.
  unfold sameRock. intros (A1 & A2 & A3 & A4 & A5) (B1 & B2 & B3 & B4 & B5).
  repeat split; congruence.
Qed.

(** [n] hits that the rock survives: its health is down by [n] times the
    mining power, and it is still the rock at [i]. *)
Lemma mined_alive (M : MathLib) (i : nat) (frames : list Input) :
  forall w wn a,
    mined M i frames w = Some wn ->
    nth_error (asteroids w) i = Some a ->
    0 <= miningPower (config w) ->
    0 < Asteroid.health a
        - inject_Z (Z.of_nat (List.length frames)) * miningPower (config w) ->
    exists an,
      nth_error (asteroids wn) i = Some an /\ sameRock a an
      /\ Asteroid.health an
         == Asteroid.health a
            - inject_Z (Z.of_nat (List.length frames)) * miningPower (config w)
      /\ config wn = config w /\ ids wn = ids w.
Proof.
  induction frames as [|inp frames IH]; intros w wn a Hm N P H.
  - injection Hm as <-. exists a. repeat split; trivial. simpl. ring.
  - simpl in Hm.
    destruct (targetOf M inp w) as [j|] eqn:T; [|discriminate].
    destruct (loop M inp w) as [|? ?|w1] eqn:L; try discriminate.
    destruct (Nat.eqb_spec j i) as [->|]; [|discriminate].
    set (p := miningPower (config w)) in *.
    set (n := inject_Z (Z.of_nat (List.length frames))) in *.
    assert (0 <= n) as Hn.
    { unfold n. change 0 with (inject_Z 0). rewrite <- Zle_Qle. lia. }
    assert (inject_Z (Z.of_nat (List.length (inp :: frames))) == n + 1) as E.
    { unfold n. cbn [List.length]. rewrite Nat2Z.inj_succ, <- Z.add_1_r.
      rewrite inject_Z_plus. reflexivity. }
    set (N1 := inject_Z (Z.of_nat (List.length (inp :: frames)))) in *.
    assert (0 < Asteroid.health a - (n + 1) * p) as H' by (rewrite <- E; exact H).
    assert (0 < Asteroid.health a - p) as H1 by nra.
    destruct (hit_survived M inp w w1 i a T L N H1)
      as (a1 & N1' & R1 & Hh & C1 & I1).
    fold p in Hh.
    destruct (IH w1 wn a1 Hm N1') as (an & Nn & Rn & Hn' & Cn & In).
    + now rewrite C1.
    + rewrite C1, Hh. fold p n. nra.
    + exists an. split; [exact Nn|].
      split; [eapply sameRock_trans; eassumption|].
      split; [rewrite Hn', C1, Hh, E; fold p n; ring|].
      split; congruence.
Qed.

Lemma run_ids (M : MathLib) (later : list Input) : forall w,
  incl (ids (worldOf (run M later w))) (ids w).
Proof.
  induction later as [|inp later IH]; intro w; simpl; [apply incl_refl|].
  pose proof (loop_ids M inp w) as L.
  destruct (loop M inp w) as [w'|s w'|w']; simpl in *; trivial.
  eapply incl_tran; [apply IH|exact L].
Qed.

(** The hit that brings the health of the rock to zero or below. *)
Lemma hit_shatters (M : MathLib) (inp : Input) (w : World) (i : nat)
    (a : Asteroid.t) :
  targetOf M inp w = Some i ->
  nth_error (asteroids w) i = Some a ->
  Asteroid.health a - miningPower (config w) <= 0 ->
  exists w3,
    approach M inp w = Some w3
    /\ update M inp w
       = Some (lootLogic inp (mine inp (Some i) w3), mkAim false (Some i))
    /\ asteroids (mine inp (Some i) w3) = removeAt i (asteroids w)
    /\ (exists vx vy,
          loot (mine inp (Some i) w3)
          = loot w ++ [Loot.mk (Asteroid.x a) (Asteroid.y a) vx vy
                               (Asteroid.type a)
                               (Qfloor (Asteroid.radius a / 5))
                               LOOT_DESPAWN_TIME])
    /\ (List.length (particles w3) + 8 + 15
        <= List.length (particles (mine inp (Some i) w3)))%nat
    /\ ids (worldOf (loop M inp w)) = removeAt i (ids w).
Proof.
  intros T N H.
  destruct (target_frame M inp w i T) as (w3 & A & _ & U & A3 & C3).
  destruct (approach_rest M inp w w3 A) as (_ & _ & L3).
  exists w3. split; [exact A|]. split; [exact U|].
  rewrite <- A3 in N.
  pose proof (mine_asteroids inp w3 i a N) as A5.
  pose proof (mine_loot inp w3 i a N) as L5.
  destruct (mine_particles inp w3 i a N) as (sparks & debris & P5 & _ & D5).
  rewrite C3 in A5, L5, D5.
  destruct (leb_spec (Asteroid.health a - miningPower (config w)) 0) as [G|G];
    [|lra].
  rewrite A3 in A5. rewrite L3 in L5.
  split; [exact A5|]. split; [exact L5|].
  split.
  { rewrite P5, !List.length_app, D5. lia. }
  destruct (loop_asteroids M inp w _ _ U) as (_ & I & _).
  rewrite I. unfold ids at 1.
  destruct (lootLogic_rest inp (mine inp (Some i) w3)) as (_ & _ & A6 & _).
  rewrite A6, A5. apply removeAt_map.
Qed.

(** C3.  A rock of health 100 under a laser of power 1.5 stands through its
    first 66 hits, with health 100 - 1.5 k after the k-th, and the 67th
    shatters it: in that frame exactly one loot item is added, of the
    mineral of the rock and of amount floor(radius / 5), at least 8 + 15
    particles are added, and the rock leaves the list of asteroids, which
    is all that later frames damage and draw; with identifiers that do not
    repeat, its identifier is in no later list. *)
Theorem asteroid_shatters_on_67th_hit
    (M : MathLib) (i : nat) (a : Asteroid.t) (w : World) :
  nth_error (asteroids w) i = Some a ->
  Asteroid.health a == 100 ->
  miningPower (config w) == 1.5 ->
  (forall frames wn,
     (List.length frames <= 66)%nat -> mined M i frames w = Some wn ->
     exists an,
       nth_error (asteroids wn) i = Some an /\ sameRock a an
       /\ Asteroid.health an
          == 100 - 1.5 * inject_Z (Z.of_nat (List.length frames))
       /\ 0 < Asteroid.health an /\ ids wn = ids w)
  /\ (forall frames w66 inp,
        List.length frames = 66%nat -> mined M i frames w = Some w66 ->
        targetOf M inp w66 = Some i ->
        exists w3,
          approach M inp w66 = Some w3
          /\ update M inp w66
             = Some (lootLogic inp (mine inp (Some i) w3),
                     mkAim false (Some i))
          /\ asteroids (mine inp (Some i) w3) = removeAt i (asteroids w66)
          /\ (exists vx vy,
                loot (mine inp (Some i) w3)
                = loot w66 ++ [Loot.mk (Asteroid.x a) (Asteroid.y a) vx vy
                                       (Asteroid.type a)
                                       (Qfloor (Asteroid.radius a / 5))
                                       LOOT_DESPAWN_TIME])
          /\ (List.length (particles w3) + 8 + 15
              <= List.length (particles (mine inp (Some i) w3)))%nat
          /\ ids (worldOf (loop M inp w66)) = removeAt i (ids w)
          /\ (NoDup (ids w) ->
              forall later,
                ~ In (Asteroid.id a)
                     (ids (worldOf (run M later (worldOf (loop M inp w66))))))).
Proof.
  intros N H P.
  assert (A : forall frames wn,
     (List.length frames <= 66)%nat -> mined M i frames w = Some wn ->
     exists an,
       nth_error (asteroids wn) i = Some an /\ sameRock a an
       /\ Asteroid.health an
          == 100 - 1.5 * inject_Z (Z.of_nat (List.length frames))
       /\ 0 < Asteroid.health an /\ config wn = config w /\ ids wn = ids w).
  { intros frames wn Len Hm.
    assert (inject_Z (Z.of_nat (List.length frames)) <= 66) as Hn.
    { change 66 with (inject_Z 66). rewrite <- Zle_Qle. lia. }
    destruct (mined_alive M i frames w wn a Hm N) as (an & Nn & R & Hh & C & I).
    - rewrite P. discriminate.
    - rewrite H, P. lra.
    - exists an. rewrite H, P in Hh.
      repeat split; trivial; try apply R; rewrite Hh; lra. }
  split.
  { intros frames wn Len Hm.
    destruct (A frames wn Len Hm) as (an & Nn & R & Hh & Pos & _ & I).
    exists an. repeat split; trivial; apply R. }
  intros frames w66 inp Len Hm T.
  destruct (A frames w66 (Nat.eq_le_incl _ _ Len) Hm)
    as (a66 & N66 & R & Hh & _ & C & I).
  rewrite Len in Hh.
  assert (Asteroid.health a66 - miningPower (config w66) <= 0) as Dead.
  { rewrite C, Hh, P. discriminate. }
  destruct (hit_shatters M inp w66 i a66 T N66 Dead)
    as (w3 & Ap & U & A5 & L5 & P5 & I67).
  destruct R as (Rid & Rx & Ry & Rr & Rt).
  rewrite Rx, Ry, Rr, Rt in L5. rewrite I in I67.
  exists w3. repeat split; trivial.
  intros ND later In_.
  apply (run_ids M later) in In_. rewrite I67 in In_.
  revert In_. apply removeAt_NoDup; [exact ND|].
  unfold ids. rewrite nth_error_map, N. reflexivity.
Qed.

(** *** The quarry: a run of frames with the laser held on one rock *)

Lemma spawnAlien_quiet (M : MathLib) (inp : Input) (w : World) :
  alien w = None -> (rnd inp w 0 <? ALIEN_CONFIG.SPAWN_RATE) = false ->
  spawnAlien M inp w = advance 1 w.
Proof. intros A R. unfold spawnAlien. now rewrite A, R. Qed.

Lemma updateAlien_none (M : MathLib) (inp : Input) (w : World) :
  alien w = None -> updateAlien M inp w = w.
Proof. intro A. unfold updateAlien. now rewrite A. Qed.

Section Quarry.

Local Abbreviation M := Scene.math.
Local Abbreviation inp := Scene.mining.

(** A frame of the quarry: the laser is on the rock, and while the rock
    survives the hit the frame leaves the quarry one hit further. *)
Lemma working_frame (k : Q) (w : World) :
  0 <= k -> k <= 66 -> Scene.working k w ->
  targetOf M inp w = Some 0%nat
  /\ (k <= 65 ->
      exists w', loop M inp w = Continue w' /\ Scene.working (k + 1) w').
Proof.
  intros K0 K1 (Px & Py & Vx & Vy & Cfg & Fu & Al & Lo & a & As & Ax & Ay & Ar & Ah).
  (* the move *)
  set (w1 := physics M inp (withUsed 0 w)).
  assert (T : thrusts inp (withUsed 0 w) = false) by reflexivity.
  assert (D : draggedVelocity M inp (withUsed 0 w)
              = Point.mk (Point.x (velocity (ship w)) * 0.99)
                         (Point.y (velocity (ship w)) * 0.99)) by reflexivity.
  assert (S0 : speedSq M inp (withUsed 0 w) == 0).
  { unfold speedSq. rewrite D. unfold Num.sq. cbn [Point.x Point.y].
    rewrite Vx, Vy. reflexivity. }
  assert (Cap : cappedVelocity M inp (withUsed 0 w)
                = draggedVelocity M inp (withUsed 0 w)).
  { unfold cappedVelocity, Num.sqrt_gtb.
    assert (Num.sqrt_leb (speedSq M inp (withUsed 0 w))
                         (maxSpeed (shipConfig (ship (withUsed 0 w)))) = true) as E.
    { apply sqrt_leb_spec. cbn [withUsed ship]. rewrite Cfg, S0.
      split; discriminate. }
    now rewrite E. }
  assert (W1 : ship w1
               = mkPlayerState (credits (ship w)) (currentFuel (ship w))
                   (cargo (ship w)) (shipConfig (ship w))
                   (Point.mk (Point.x (position (ship w))
                              + Point.x (velocity (ship w)) * 0.99)
                             (Point.y (position (ship w))
                              + Point.y (velocity (ship w)) * 0.99))
                   (Point.mk (Point.x (velocity (ship w)) * 0.99)
                             (Point.y (velocity (ship w)) * 0.99))
                   (rotation (ship w))).
  { unfold w1, physics. rewrite T, Cap, D. reflexivity. }
  assert (R1 : asteroids w1 = [a] /\ alien w1 = None /\ loot w1 = []
               /\ used w1 = 0%nat).
  { unfold w1, physics. rewrite T. cbn. auto. }
  destruct R1 as (As1 & Al1 & Lo1 & U1).
  (* the idle drain *)
  set (s2 := withFuel (currentFuel (ship w1)
                       - fuelConsumptionRate (shipConfig (ship w1))) (ship w1)).
  assert (I : idle w1 = Some (withShip s2 w1)).
  { unfold idle. rewrite W1 at 1. cbn [currentFuel].
    destruct (gtb_spec (currentFuel (ship w)) 0) as [G|G]; [reflexivity|].
    rewrite Fu in G. lra. }
  (* the camera, no alien *)
  set (w3 := advance 1 (follow inp (withShip s2 w1))).
  assert (A : approach M inp w = Some w3).
  { unfold approach. fold w1. rewrite I. f_equal.
    rewrite (spawnAlien_quiet M inp (follow inp (withShip s2 w1)) Al1 eq_refl).
    apply updateAlien_none. exact Al1. }
  assert (S3 : ship w3 = s2) by reflexivity.
  assert (F3 : currentFuel (ship w3) == 500 - 0.3 * k - 0.05).
  { rewrite S3. unfold s2. rewrite W1. cbn [withFuel currentFuel shipConfig].
    rewrite Cfg, Fu. reflexivity. }
  assert (P3 : Point.x (position (ship w3)) == 1000
               /\ Point.y (position (ship w3)) == 0).
  { rewrite S3. unfold s2. rewrite W1. cbn. rewrite Px, Py, Vx, Vy.
    split; reflexivity. }
  destruct P3 as [P3x P3y].
  assert (C3 : shipConfig (ship w3) = INITIAL_SHIP_CONFIG).
  { rewrite S3. unfold s2. rewrite W1. exact Cfg. }
  assert (As3 : asteroids w3 = [a]) by exact As1.
  assert (Al3 : alien w3 = None) by exact Al1.
  (* the laser finds the rock *)
  assert (On : laserOn inp w3 = true).
  { unfold laserOn. apply andb_true_iff. split; [reflexivity|].
    apply ltb_lt. rewrite F3. lra. }
  assert (Mi : mineable inp w3 a = true).
  { unfold mineable, underCursor, inRange, worldMouse.
    apply andb_true_iff. split.
    - apply ltb_lt. rewrite Ax, Ay, Ar.
      change (camera w3)
        with (Point.mk (Point.x (position (ship w3)) - width inp / 2)
                       (Point.y (position (ship w3)) - height inp / 2)).
      cbn [Point.x Point.y]. rewrite P3x, P3y. reflexivity.
    - apply sqrt_leb_spec. unfold Num.sq. rewrite C3, Ax, Ay, P3x, P3y.
      split; discriminate. }
  assert (Co : combat M inp w3 = (w3, mkAim false (Some 0%nat))).
  { rewrite combat_rocks; [|exact On|rewrite Al3; discriminate].
    rewrite As3. simpl. now rewrite Mi. }
  assert (Tg : targetOf M inp w = Some 0%nat).
  { unfold targetOf, aimed. rewrite A, Co. reflexivity. }
  split; [exact Tg|]. intro K65.
  (* the hit *)
  set (a1 := Asteroid.hit (miningPower (shipConfig (ship w3))) a).
  assert (H1 : Asteroid.health a1 == 100 - 1.5 * (k + 1)).
  { unfold a1. cbn [Asteroid.hit Asteroid.health]. rewrite C3, Ah.
    change (miningPower INITIAL_SHIP_CONFIG) with 1.5. ring. }
  set (s5 := withFuel (currentFuel (ship w3)
                       - thrustConsumptionRate (shipConfig (ship w3)) * 0.5)
                      (ship w3)).
  set (w5 := advance 1
               (withAsteroids [a1]
                  (withShake (Qmax (shake w3) 2) (withShip s5 w3)))).
  assert (M5 : mine inp (Some 0%nat) w3 = w5).
  { unfold mine. rewrite As3. cbn [nth_error replaceAt]. fold a1 s5.
    unfold spark. change (rnd inp _ 0) with (0.5 : Q).
    change (0.5 >? 0.5) with false. cbv iota.
    destruct (leb_spec (Asteroid.health a1) 0) as [G|G]; [|reflexivity].
    rewrite H1 in G. lra. }
  set (w6 := withLoot [] w5).
  assert (L6 : lootLogic inp w5 = w6).
  { unfold lootLogic. change (loot w5) with (loot w1). rewrite Lo1.
    reflexivity. }
  assert (U : update M inp w = Some (w6, mkAim false (Some 0%nat))).
  { unfold update, aimed. rewrite A, Co. cbn [miningTarget].
    now rewrite M5, L6. }
  assert (Dk : docks (speedSq M inp (withUsed 0 w)) w6 = false).
  { destruct (docks _ w6) eqn:E; [|reflexivity].
    apply docks_spec in E. destruct E as [E _].
    change (ship w6) with s5 in E. unfold s5 in E.
    cbn [withFuel position] in E. unfold Num.sq in E.
    rewrite P3x, P3y in E. discriminate E. }
  exists (render w6). split.
  { pose proof (loop_cases M inp w) as C. rewrite U in C.
    destruct C as [_ C]. now rewrite C, Dk. }
  (* the shape is kept *)
  assert (V3 : Point.x (velocity (ship w3)) == 0
               /\ Point.y (velocity (ship w3)) == 0).
  { rewrite S3. unfold s2. rewrite W1. cbn [withFuel velocity Point.x Point.y].
    rewrite Vx, Vy. split; reflexivity. }
  destruct V3 as [V3x V3y].
  assert (F5 : currentFuel s5 == 500 - 0.3 * (k + 1)).
  { unfold s5. cbn [withFuel currentFuel]. rewrite F3, C3.
    change (thrustConsumptionRate INITIAL_SHIP_CONFIG) with 0.5. ring. }
  change (Scene.working (k + 1) (render w6))
    with (Point.x (position (ship w3)) == 1000
          /\ Point.y (position (ship w3)) == 0
          /\ Point.x (velocity (ship w3)) == 0
          /\ Point.y (velocity (ship w3)) == 0
          /\ shipConfig (ship w3) = INITIAL_SHIP_CONFIG
          /\ currentFuel s5 == 500 - 0.3 * (k + 1)
          /\ alien w1 = None /\ @nil Loot.t = []
          /\ exists a0, [Asteroid.drawn a1] = [a0]
                        /\ Asteroid.x a0 = 1100 /\ Asteroid.y a0 = 0
                        /\ Asteroid.radius a0 = 42
                        /\ Asteroid.health a0 == 100 - 1.5 * (k + 1)).
  repeat (split; [assumption || reflexivity|]).
  exists (Asteroid.drawn a1). repeat split; assumption.
Qed.

Lemma quarry_working : Scene.working 0 Scene.quarry.
Proof.
  unfold Scene.working. repeat (split; [reflexivity|]).
  exists Scene.rock. repeat split.
Qed.

(** The laser can be held on the rock of the quarry for 66 frames. *)
Lemma working_mined (n : nat) : forall k w,
  0 <= k -> k + inject_Z (Z.of_nat n) <= 66 -> Scene.working k w ->
  exists wn, mined M 0 (repeat inp n) w = Some wn
             /\ Scene.working (k + inject_Z (Z.of_nat n)) wn.
Proof.
  induction n as [|n IH]; intros k w K0 K1 W.
  - exists w. split; [reflexivity|].
    destruct W as (Px & Py & Vx & Vy & Cfg & Fu & Al & Lo & a & As & Ax & Ay & Ar & Ah).
    repeat (split; [assumption || (rewrite Fu; simpl; ring)|]).
    exists a. repeat split; try assumption. rewrite Ah. simpl. ring.
  - assert (inject_Z (Z.of_nat (S n)) == inject_Z (Z.of_nat n) + 1) as E.
    { rewrite Nat2Z.inj_succ, <- Z.add_1_r, inject_Z_plus. reflexivity. }
    assert (0 <= inject_Z (Z.of_nat n)) as Hn.
    { change 0 with (inject_Z 0). rewrite <- Zle_Qle. lia. }
    destruct (working_frame k w K0) as [T S]; [lra|exact W|].
    destruct S as (w' & L & W'); [lra|].
    destruct (IH (k + 1) w') as (wn & Hm & Wn); [lra|lra|exact W'|].
    exists wn. split.
    + cbn [repeat mined]. rewrite T, L. exact Hm.
    + destruct Wn as (Px & Py & Vx & Vy & Cfg & Fu & Al & Lo & a & As & Ax & Ay & Ar & Ah).
      repeat (split; [assumption || (rewrite Fu, E; ring)|]).
      exists a. repeat split; try assumption. rewrite Ah, E. ring.
Qed.

End Quarry.

Lemma asteroid_shatters_witness :
  nth_error (asteroids Scene.quarry) 0 = Some Scene.rock
  /\ Asteroid.health Scene.rock == 100
  /\ miningPower (config Scene.quarry) == 1.5
  /\ exists w66,
       mined Scene.math 0 (repeat Scene.mining 66) Scene.quarry = Some w66
       /\ targetOf Scene.math Scene.mining w66 = Some 0%nat
       /\ ids (worldOf (loop Scene.math Scene.mining w66)) = [].
Proof.
  assert (N : nth_error (asteroids Scene.quarry) 0 = Some Scene.rock)
    by reflexivity.
  assert (H : Asteroid.health Scene.rock == 100) by reflexivity.
  assert (P : miningPower (config Scene.quarry) == 1.5) by reflexivity.
  split; [exact N|]. split; [exact H|]. split; [exact P|].
  destruct (working_mined 66 0 Scene.quarry) as (w66 & Hm & W);
    [discriminate|discriminate|exact quarry_working|].
  assert (T : targetOf Scene.math Scene.mining w66 = Some 0%nat).
  { apply (working_frame (0 + inject_Z (Z.of_nat 66)) w66);
      [discriminate|discriminate|exact W]. }
  exists w66. split; [exact Hm|]. split; [exact T|].
  destruct (proj2 (asteroid_shatters_on_67th_hit
                     Scene.math 0 Scene.rock Scene.quarry N H P)
                  (repeat Scene.mining 66) w66 Scene.mining
                  (repeat_length Scene.mining 66) Hm T)
    as (w3 & _ & _ & _ & _ & _ & I & _).
  exact I.
Defined.


(** A drain tick on a hold of two units of iron and one of gold: with the
    random number at one half the second of the two kinds present goes. *)
Lemma drain_tick_witness :
  let w := Scene.space (mkPlayerState 0 500 (mkCargo 2 0 1 0)
                          INITIAL_SHIP_CONFIG (Point.mk 1000 0)
                          (Point.mk 0 0) 0) in
  let a := Alien.mk 1050 0 0 0 300 300 [] DRAINING 44 0 in
  0 <= rnd Scene.hands_off w 0 /\ rnd Scene.hands_off w 0 < 1
  /\ draining 2500 a = true
  /\ (ALIEN_CONFIG.DRAIN_INTERVAL <= Alien.drainTimer a + 1)%Z
  /\ Alien.drainTimer (snd (drain Scene.hands_off 2500 w a)) = 0%Z
  /\ cargo (ship (fst (drain Scene.hands_off 2500 w a))) = mkCargo 2 0 0 0
  /\ Alien.stolenCargo (snd (drain Scene.hands_off 2500 w a)) = [(GOLD, 1%Z)].
Proof.
  intros w a.
  assert (R0 : 0 <= rnd Scene.hands_off w 0) by discriminate.
  assert (R1 : rnd Scene.hands_off w 0 < 1) by reflexivity.
  assert (D : draining 2500 a = true) by reflexivity.
  assert (T : (ALIEN_CONFIG.DRAIN_INTERVAL <= Alien.drainTimer a + 1)%Z)
    by discriminate.
  split; [exact R0|]. split; [exact R1|]. split; [exact D|].
  split; [exact T|].
  split; [exact (proj1 (drain_tick Scene.hands_off w a 2500 R0 R1 D T))|].
  split; reflexivity.
Defined.

End CanvasFacts.

(* ================================================================= *)
(** * Further properties of the station *)

Module ShopFacts.
Import Station NumFacts StationFacts CanvasFacts.

Lemma Qfloor_succ (q : Q) : Qfloor (q + 1) = (Qfloor q + 1)%Z.
Proof.
  apply Qfloor_unique.
  - rewrite inject_Z_plus. pose proof (Qfloor_le q). change (inject_Z 1) with 1. lra.
  - rewrite inject_Z_plus. pose proof (Qlt_floor q).
    rewrite inject_Z_plus in H |- *. change (inject_Z 1) with 1 in *. lra.
Qed.

Lemma multiplier_power (level : Z) :
  (0 <= level)%Z ->
  1 <= UPGRADE_COST_MULTIPLIER ^ level
  /\ UPGRADE_COST_MULTIPLIER ^ (level + 1)
     == UPGRADE_COST_MULTIPLIER ^ level * 1.8.
Proof.
  intro L. split.
  - apply Qpower_1_le; [discriminate|exact L].
  - rewrite Qpower_plus by discriminate. reflexivity.
Qed.

Lemma cost_step (level : Z) :
  (0 <= level)%Z ->
  calculateUpgradeCost 0 = 200%Z
  /\ (200 <= calculateUpgradeCost level)%Z
  /\ (calculateUpgradeCost level + 159 <= calculateUpgradeCost (level + 1))%Z.
Proof.
  intro L. destruct (multiplier_power level L) as [P1 P2].
  unfold calculateUpgradeCost, Num.floor.
  set (p := UPGRADE_COST_MULTIPLIER ^ level) in *.
  split; [reflexivity|]. split.
  - change 200%Z with (Qfloor (inject_Z 200)). apply Qfloor_resp_le.
    change (inject_Z 200) with 200. unfold UPGRADE_COST_BASE. lra.
  - assert (Qfloor (UPGRADE_COST_BASE * UPGRADE_COST_MULTIPLIER ^ (level + 1))
            = Qfloor (200 * p * 1.8)) as ->.
    { apply Qfloor_comp. rewrite P2. unfold UPGRADE_COST_BASE. ring. }
    unfold UPGRADE_COST_BASE.
    pose proof (Qfloor_le (200 * p)) as A.
    pose proof (Qlt_floor (200 * p * 1.8)) as C.
    set (a := Qfloor (200 * p)) in *.
    set (b := Qfloor (200 * p * 1.8)) in *.
    rewrite inject_Z_plus in C. change (inject_Z 1) with 1 in *.
    assert (inject_Z a + 159 < inject_Z b + 1) as D by lra.
    assert (inject_Z (a + 159) < inject_Z (b + 1)) as E.
    { rewrite !inject_Z_plus. exact D. }
    rewrite <- Zlt_Qlt in E. lia.
Qed.

(** X1.  The price list grows: level 0 costs 200 credits, no level costs less,
    and each level costs at least 159 credits more than the one before. *)
Theorem upgrade_cost_grows (level : Z) :
  (0 <= level)%Z ->
  calculateUpgradeCost 0 = 200%Z
  /\ (200 <= calculateUpgradeCost level)%Z
  /\ (calculateUpgradeCost level + 159 <= calculateUpgradeCost (level + 1))%Z.
Proof. apply cost_step. Qed.

Lemma upgrade_cost_grows_witness :
  (0 <= 3)%Z
  /\ (calculateUpgradeCost 3 + 159 <= calculateUpgradeCost (3 + 1))%Z.
Proof.
  assert (L : (0 <= 3)%Z) by discriminate.
  split; [exact L|]. exact (proj2 (proj2 (upgrade_cost_grows 3 L))).
Defined.

Lemma statGet_statSet_same c k v : statGet (statSet c k v) k = v.
Proof. destruct k; reflexivity. Qed.

Lemma statGet_statSet_other c k v k' :
  k' <> k -> statGet (statSet c k v) k' = statGet c k'.
Proof. destruct k, k'; intro N; try reflexivity; congruence. Qed.

Lemma upgradeStep_nonzero u : ~ upgradeStep u == 0.
Proof. destruct u; discriminate. Qed.

Lemma getLevel_step (current initial step : Q) :
  ~ step == 0 ->
  getLevel (current + step) initial step
  = (getLevel current initial step + 1)%Z.
Proof.
  intro S. unfold getLevel, Num.round. rewrite <- Qfloor_succ.
  apply Qfloor_comp. field. exact S.
Qed.

(** X2.  An upgrade that can be paid takes its price, adds its step to its own
    stat and to no other, leaves the tank and the hold alone, and shows one
    level more, so that (from level 0 on) the next one costs at least 159
    credits more; one that cannot be paid changes nothing. *)
Theorem install_raises_level (u : Upgrade) (s : PlayerState) :
  let k := upgradeKey u in
  let level s := getLevel (statGet (shipConfig s) k)
                          (statGet INITIAL_SHIP_CONFIG k) (upgradeStep u) in
  (upgradeCost u s <= credits s ->
     credits (install u s) == credits s - upgradeCost u s
     /\ statGet (shipConfig (install u s)) k
        = statGet (shipConfig s) k + upgradeStep u
     /\ (forall k', k' <> k ->
           statGet (shipConfig (install u s)) k' = statGet (shipConfig s) k')
     /\ currentFuel (install u s) = currentFuel s
     /\ cargo (install u s) = cargo s
     /\ level (install u s) = (level s + 1)%Z
     /\ ((0 <= level s)%Z ->
         upgradeCost u s + 159 <= upgradeCost u (install u s)))
  /\ (credits s < upgradeCost u s -> install u s = s).
Proof.
  intros k level.
  destruct (upgradeStat_credits k (upgradeStep u) (upgradeCost u s) s) as [A B].
  split; [|exact B].
  intro H.
  assert (E : install u s
              = mkPlayerState (credits s - upgradeCost u s) (currentFuel s)
                  (cargo s)
                  (statSet (shipConfig s) k
                           (statGet (shipConfig s) k + upgradeStep u))
                  (position s) (velocity s) (rotation s)).
  { unfold install, upgradeStat. fold k.
    destruct (geb_spec (credits s) (upgradeCost u s)) as [G|G]; [reflexivity|lra]. }
  assert (St : statGet (shipConfig (install u s)) k
               = statGet (shipConfig s) k + upgradeStep u).
  { rewrite E. cbn [shipConfig]. apply statGet_statSet_same. }
  assert (Lv : level (install u s) = (level s + 1)%Z).
  { unfold level. rewrite St. apply getLevel_step, upgradeStep_nonzero. }
  split; [rewrite E; reflexivity|]. split; [exact St|].
  split.
  { intros k' N. rewrite E. cbn [shipConfig].
    now apply statGet_statSet_other. }
  split; [rewrite E; reflexivity|]. split; [rewrite E; reflexivity|].
  split; [exact Lv|].
  intro L. unfold upgradeCost. fold k. fold (level s) (level (install u s)).
  rewrite Lv. destruct (cost_step (level s) L) as (_ & _ & C).
  change 159 with (inject_Z 159). rewrite <- inject_Z_plus, <- Zle_Qle.
  exact C.
Qed.

(** X3.  With whole credits a refuel never fills the tank past [maxFuel] and
    never empties it; what a partial refuel adds is paid at exactly 0.1
    credit a unit, and a full one costs less than one credit above that
    rate. *)
Theorem refuel_never_overfills (s : PlayerState) (n : Z) :
  credits s == inject_Z n -> (0 <= n)%Z ->
  currentFuel s <= maxFuel (shipConfig s) ->
  let missing := maxFuel (shipConfig s) - currentFuel s in
  let gained := currentFuel (refuel s) - currentFuel s in
  let paid := credits s - credits (refuel s) in
  0 <= gained /\ gained <= missing
  /\ currentFuel (refuel s) <= maxFuel (shipConfig s)
  /\ 0 <= paid
  /\ (currentFuel (refuel s) < maxFuel (shipConfig s) ->
      paid == gained * 0.1 /\ credits (refuel s) = 0)
  /\ (currentFuel (refuel s) == maxFuel (shipConfig s) ->
      paid < missing * 0.1 + 1).
Proof.
  intros Hc Hn Hf. cbv zeta.
  destruct (refuel_cases s) as [A B].
  set (missing := maxFuel (shipConfig s) - currentFuel s) in *.
  set (cost := inject_Z (Qceiling (0.1 * missing))) in *.
  set (gained := currentFuel (refuel s) - currentFuel s).
  set (paid := credits s - credits (refuel s)).
  assert (Cl : missing * 0.1 <= cost).
  { unfold cost. setoid_replace (missing * 0.1) with (0.1 * missing) by ring.
    apply Qle_ceiling. }
  assert (Cu : cost < missing * 0.1 + 1).
  { unfold cost. pose proof (Qceiling_lt (0.1 * missing)) as X.
    unfold Zminus in X.
    rewrite inject_Z_plus in X.
    assert (inject_Z (-1) == -(1)) as E1 by reflexivity.
    rewrite E1 in X. lra. }
  assert (M0 : 0 <= missing) by (unfold missing; lra).
  destruct (Qlt_le_dec (credits s) cost) as [L|L].
  - destruct (B L) as [B1 B2].
    assert (F : Qfloor (credits s / 0.1) = (10 * n)%Z).
    { rewrite (Qfloor_comp _ (inject_Z (10 * n))); [apply Qfloor_Z|].
      rewrite Hc, inject_Z_mult. change (inject_Z 10) with 10. field. }
    rewrite F, inject_Z_mult in B2. change (inject_Z 10) with 10 in B2.
    assert (N0 : 0 <= inject_Z n).
    { change 0 with (inject_Z 0). now rewrite <- Zle_Qle. }
    (* whole credits below a whole price are at least one below it *)
    assert (Lz : inject_Z n + 1 <= cost).
    { unfold cost in *. rewrite Hc in L. rewrite <- Zlt_Qlt in L.
      change 1 with (inject_Z 1). rewrite <- inject_Z_plus, <- Zle_Qle. lia. }
    unfold gained, paid. rewrite B1.
    assert (G : currentFuel (refuel s) - currentFuel s == 10 * inject_Z n)
      by (rewrite B2; ring).
    unfold missing in *.
    repeat split; intros; try lra; try reflexivity.
  - destruct (A L) as [A1 A2].
    unfold gained, paid, missing in *. rewrite A2 in *.
    repeat split; intros; try lra.
Qed.

Lemma refuel_never_overfills_witness :
  let s := mkPlayerState 50 0 (mkCargo 0 0 0 0) INITIAL_SHIP_CONFIG
                         (Point.mk 0 0) (Point.mk 0 0) 0 in
  credits s == inject_Z 50 /\ (0 <= 50)%Z
  /\ currentFuel s <= maxFuel (shipConfig s)
  /\ currentFuel (refuel s) <= maxFuel (shipConfig s).
Proof.
  intro s.
  assert (Hc : credits s == inject_Z 50) by reflexivity.
  assert (Hn : (0 <= 50)%Z) by discriminate.
  assert (Hf : currentFuel s <= maxFuel (shipConfig s)) by discriminate.
  split; [exact Hc|]. split; [exact Hn|]. split; [exact Hf|].
  exact (proj1 (proj2 (proj2 (refuel_never_overfills s 50 Hc Hn Hf)))).
Defined.

(** With credits that are not whole the partial refuel can overfill: 0.9
    credits against 5 missing units buy 9. *)
Example refuel_overfills_on_fractions :
  let s := mkPlayerState 0.9 995 (mkCargo 0 0 0 0) INITIAL_SHIP_CONFIG
                         (Point.mk 0 0) (Point.mk 0 0) 0 in
  currentFuel (refuel s) == 1004.
Proof. reflexivity. Qed.

Lemma sellAll_cargo (s : PlayerState) : cargo (sellAll s) = mkCargo 0 0 0 0.
Proof. reflexivity. Qed.

(** X4.  Selling pays once: a second sale adds nothing, and after a sale the
    refuel is free and changes nothing, the sale having filled the tank. *)
Theorem sellAll_then (s : PlayerState) :
  cargoNonneg (cargo s) -> 0 <= credits s ->
  credits (sellAll (sellAll s)) == credits (sellAll s)
  /\ cargo (sellAll (sellAll s)) = cargo (sellAll s)
  /\ currentFuel (sellAll (sellAll s)) = currentFuel (sellAll s)
  /\ credits (refuel (sellAll s)) == credits (sellAll s)
  /\ currentFuel (refuel (sellAll s)) = currentFuel (sellAll s)
  /\ cargo (refuel (sellAll s)) = cargo (sellAll s).
Proof.
  intros Hn Hc.
  pose proof (sellAll_credits_nonneg s Hn Hc) as Pos.
  split.
  { rewrite (sellAll_credits (sellAll s)), sellAll_cargo. simpl. ring. }
  split; [reflexivity|]. split; [reflexivity|].
  assert (Z0 : inject_Z (Qceiling (0.1 * (maxFuel (shipConfig (sellAll s))
                                          - currentFuel (sellAll s)))) == 0).
  { rewrite (Qceiling_comp _ (inject_Z 0)); [reflexivity|].
    change (currentFuel (sellAll s)) with (maxFuel (shipConfig s)).
    change (shipConfig (sellAll s)) with (shipConfig s).
    change (inject_Z 0) with 0. ring. }
  destruct (refuel_cases (sellAll s)) as [A _].
  destruct A as [A1 A2]; [rewrite Z0; exact Pos|].
  rewrite A1, Z0, A2.
  split; [ring|]. split; [reflexivity|].
  unfold refuel. destruct (_ >=? _); reflexivity.
Qed.

Lemma sellAll_then_witness :
  cargoNonneg (cargo dockedShip) /\ 0 <= credits dockedShip
  /\ credits (refuel (sellAll dockedShip)) == credits (sellAll dockedShip).
Proof.
  assert (Hn : cargoNonneg (cargo dockedShip)) by (intros []; discriminate).
  assert (Hc : 0 <= credits dockedShip) by discriminate.
  split; [exact Hn|]. split; [exact Hc|].
  exact (proj1 (proj2 (proj2 (proj2 (sellAll_then dockedShip Hn Hc))))).
Defined.

End ShopFacts.

(* ================================================================= *)
(** * Further properties of the loop *)

Module LoopFacts.
Import Canvas NumFacts CanvasFacts Flight.

(** *** What the loop leaves to the station *)

Lemma loop_hull (M : MathLib) (inp : Input) (w : World) :
  credits (ship (worldOf (loop M inp w))) = credits (ship w)
  /\ shipConfig (ship (worldOf (loop M inp w))) = shipConfig (ship w).
Proof.
  pose proof (loop_world M inp w) as LW.
  pose proof (update_ship M inp w) as US.
  assert (P : credits (ship (physics M inp (withUsed 0 w))) = credits (ship w)
              /\ shipConfig (ship (physics M inp (withUsed 0 w)))
                 = shipConfig (ship w)).
  { split; [|exact (physics_config M inp (withUsed 0 w))].
    unfold physics. destruct (thrusts inp (withUsed 0 w)); reflexivity. }
  destruct (update M inp w) as [[w6 aim]|].
  - destruct (US w6 aim eq_refl) as ((C & F & _) & _). rewrite LW.
    destruct P. split; congruence.
  - rewrite LW. exact P.
Qed.

(** X5.  The simulation never touches the credits or the configuration of the
    ship, in any frame and however a run of frames ends: they change at the
    station only. *)
Theorem loop_keeps_credits_and_config
    (M : MathLib) (inps : list Input) (w : World) :
  credits (ship (worldOf (run M inps w))) = credits (ship w)
  /\ shipConfig (ship (worldOf (run M inps w))) = shipConfig (ship w).
Proof.
  revert w. induction inps as [|inp inps IH]; intro w; simpl.
  - split; reflexivity.
  - destruct (loop_hull M inp w) as [C S].
    destruct (loop M inp w) as [w'|s w'|w']; simpl in C, S;
      try (split; assumption).
    destruct (IH w'). split; congruence.
Qed.

(** *** Flying with nothing held *)

Lemma idle_frame (M : MathLib) (inp : Input) (w : World) :
  idleInput inp -> 0 < fuel w ->
  fuel (worldOf (loop M inp w)) = fuel w - fuelConsumptionRate (config w)
  /\ forall w', loop M inp w <> GameOver w'.
Proof.
  intros (Kw & Ku & Dn) F.
  set (w1 := physics M inp (withUsed 0 w)).
  assert (T : thrusts inp (withUsed 0 w) = false).
  { unfold thrusts, isThrusting. now rewrite Kw, Ku. }
  assert (F1 : fuel w1 = fuel w).
  { unfold w1. rewrite (physics_fuel M inp). now rewrite T. }
  assert (C1 : config w1 = config w)
    by exact (physics_config M inp (withUsed 0 w)).
  pose proof (loop_cases M inp w) as LC.
  pose proof (loop_world M inp w) as LW.
  unfold update, aimed in *.
  destruct (approach M inp w) as [w3|] eqn:A.
  - destruct (approach_ship M inp w w3 A) as (_ & F3 & _).
    fold w1 in F3. rewrite F1, C1 in F3.
    destruct (gtb_spec (fuel w) 0) as [G|G]; [|lra].
    assert (Off : laserOn inp w3 = false)
      by (unfold laserOn; now rewrite Dn).
    rewrite (combat_off M inp w3 Off) in LC, LW. cbn [miningTarget] in LC, LW.
    rewrite mine_None in LC, LW.
    destruct (lootLogic_rest inp w3) as (F6 & _).
    split.
    + unfold fuel at 1. rewrite LW. fold (fuel (lootLogic inp w3)).
      now rewrite F6.
    + intros w' E. destruct LC as [_ LC]. rewrite LC in E.
      destruct (docks _ _); discriminate.
  - exfalso. apply approach_None in A. apply idle_None in A.
    fold w1 in A. rewrite F1 in A. lra.
Qed.

Lemma drained_S (rate : Q) (n : nat) (f : Q) :
  drained rate (S n) f = drained rate n (f - rate).
Proof. exact (@Nat.iter_succ_r n Q (fun g => g - rate) f). Qed.

(** X6.  With no thrust key and no button held, over frames that go on (no
    docking) and each start with the tank above zero, every frame takes the
    idle rate once and nothing else touches the tank: after [n] frames the
    fuel is what [n] successive subtractions of [fuelConsumptionRate]
    leave of it, the configuration being the same. *)
Theorem idle_flight_fuel (M : MathLib) (inps : list Input) (w w' : World) :
  Forall idleInput inps ->
  (forall k, (k < List.length inps)%nat ->
             0 < drained (fuelConsumptionRate (config w)) k (fuel w)) ->
  run M inps w = Continue w' ->
  fuel w'
  = drained (fuelConsumptionRate (config w)) (List.length inps) (fuel w)
  /\ config w' = config w.
Proof.
  revert w. induction inps as [|inp inps IH]; intros w I P Hr.
  - simpl in Hr. injection Hr as <-. split; reflexivity.
  - inversion I as [|? ? I1 I2]; subst.
    assert (Pos : 0 < fuel w) by (apply (P 0%nat); simpl; lia).
    destruct (idle_frame M inp w I1 Pos) as [Fu _].
    destruct (loop_hull M inp w) as [_ Cf].
    simpl in Hr.
    destruct (loop M inp w) as [w1|s w1|w1] eqn:L; try discriminate.
    cbn [worldOf] in Fu, Cf.
    assert (C1 : config w1 = config w) by exact Cf.
    destruct (IH w1 I2) as [A B]; trivial.
    + intros k K. rewrite C1, Fu, <- drained_S. apply P. simpl. lia.
    + split; [|congruence].
      rewrite A, C1, Fu. cbn [List.length]. now rewrite drained_S.
Qed.

(** Three frames adrift, far from the station, on 1000 units of fuel. *)
Lemma idle_flight_fuel_witness :
  let w := Scene.space (Scene.shipAt 1000 1000 0 0 0) in
  let inps := [Scene.hands_off; Scene.hands_off; Scene.hands_off] in
  fuel (worldOf (run Scene.math inps w)) = drained 0.05 3 1000.
Proof.
  intros w inps.
  assert (I : Forall idleInput inps) by (repeat constructor).
  assert (P : forall k, (k < List.length inps)%nat ->
                        0 < drained (fuelConsumptionRate (config w)) k (fuel w)).
  { intros [|[|[|k]]] K; try reflexivity. simpl in K. lia. }
  assert (R : run Scene.math inps w
              = Continue (worldOf (run Scene.math inps w)))
    by (vm_compute; reflexivity).
  exact (proj1 (idle_flight_fuel Scene.math inps w _ I P R)).
Defined.

(** *** The loot pass *)

(** What the [forEach] makes of the items, one by one: each is drifted, and
    either kept so or collected. *)
Lemma lootEach_items (inp : Input) (ls : list Loot.t) : forall w,
  Forall2 (fun l l' => l' = drift l \/ l' = collected (drift l))
          ls (snd (lootEach inp w ls)).
Proof.
  induction ls as [|l ls IH]; intro w; simpl; [constructor|].
  pose proof (collect_spec inp w (drift l)) as [A B].
  destruct (collect inp w (drift l)) as [w1 l1] eqn:C. simpl in A, B.
  specialize (IH w1). destruct (lootEach inp w1 ls) as [w2 ls']. simpl in *.
  constructor; [|exact IH].
  destruct (inReach (ship w) (drift l) && fits (ship w) (drift l)).
  - right. now apply A.
  - left. now apply B.
Qed.

Lemma Forall2_filter_drift (p : Loot.t -> bool) (ls ls' : list Loot.t) :
  Forall2 (fun l l' => l' = drift l \/ l' = collected (drift l)) ls ls' ->
  (forall l, p (collected (drift l)) = false) ->
  (List.length (filter p ls') <= List.length ls)%nat
  /\ forall l', In l' (filter p ls') -> exists l, In l ls /\ l' = drift l.
Proof.
  intros F C. induction F as [|l l' ls ls' H F IH]; simpl.
  - split; [lia|intros l' []].
  - destruct IH as [IH1 IH2].
    destruct H as [->| ->].
    + destruct (p (drift l)); simpl.
      * split; [lia|]. intros x [<-|I]; [exists l; auto|].
        destruct (IH2 x I) as (y & Iy & E). exists y; auto.
      * split; [lia|]. intros x I.
        destruct (IH2 x I) as (y & Iy & E). exists y; auto.
    + rewrite C. split; [lia|]. intros x I.
      destruct (IH2 x I) as (y & Iy & E). exists y; auto.
Qed.

(** X7.  After the loot pass every item left has life to spare, is one of the
    items of before, drifted and a frame older and otherwise untouched, and
    no item has appeared: an item collected in the frame, or out of life,
    is gone from the list the same frame and cannot be collected again. *)
Theorem loot_pass (inp : Input) (w : World) :
  (List.length (loot (lootLogic inp w)) <= List.length (loot w))%nat
  /\ forall l',
       In l' (loot (lootLogic inp w)) ->
       (0 < Loot.life l')%Z
       /\ exists l,
            In l (loot w)
            /\ l' = drift l
            /\ Loot.life l' = (Loot.life l - 1)%Z
            /\ Loot.amount l' = Loot.amount l
            /\ Loot.type l' = Loot.type l.
Proof.
  unfold lootLogic.
  pose proof (lootEach_items inp (loot w) w) as F.
  destruct (lootEach inp w (loot w)) as [w' ls]. simpl in F.
  cbn [withLoot loot].
  destruct (Forall2_filter_drift (fun l => (0 <? Loot.life l)%Z) _ _ F)
    as [Len Src]; [reflexivity|].
  split; [exact Len|].
  intros l' I. split.
  - apply filter_In in I. destruct I as [_ I]. now apply Z.ltb_lt.
  - destruct (Src l' I) as (l & Il & ->). exists l. repeat split. exact Il.
Qed.

(** *** Picking up loot moves minerals, it makes and loses none *)

Lemma lootOf_cons (t : MineralType) (l : Loot.t) (ls : list Loot.t) :
  lootOf t (l :: ls)
  = ((if MineralType_eqb (Loot.type l) t then Loot.amount l else 0)
     + lootOf t ls)%Z.
Proof. reflexivity. Qed.

Lemma lootEach_conserves (inp : Input) (ls : list Loot.t) : forall w,
  Forall (fun l => (1 < Loot.life l)%Z) ls ->
  forall t,
    (cargoGet (cargo (ship (fst (lootEach inp w ls)))) t
     + lootOf t (filter (fun l => (0 <? Loot.life l)%Z)
                        (snd (lootEach inp w ls)))
     = cargoGet (cargo (ship w)) t + lootOf t ls)%Z.
Proof.
  induction ls as [|l ls IH]; intros w F t; [reflexivity|].
  inversion F as [|? ? L1 F']; subst.
  cbn [lootEach].
  pose proof (collect_spec inp w (drift l)) as [A B].
  destruct (collect inp w (drift l)) as [w1 l1]. cbn [fst snd] in A, B.
  specialize (IH w1 F' t).
  destruct (lootEach inp w1 ls) as [w2 ls']. cbn [fst snd] in *.
  cbn [filter]. rewrite lootOf_cons.
  destruct (inReach (ship w) (drift l) && fits (ship w) (drift l)).
  - destruct (A eq_refl) as [C ->].
    cbn [collected Loot.life]. change (0 <? 0)%Z with false. cbv iota.
    rewrite C, cargoGet_cargoSet in IH. cbn [drift Loot.type Loot.amount] in IH.
    destruct (MineralType_eqb (Loot.type l) t) eqn:Q; [|lia].
    apply MineralType_eqb_eq in Q. rewrite Q in IH. lia.
  - destruct (B eq_refl) as [C ->].
    cbn [drift Loot.life].
    assert (E : (0 <? Loot.life l - 1)%Z = true) by (apply Z.ltb_lt; lia).
    rewrite E, lootOf_cons. cbn [drift Loot.type Loot.amount].
    rewrite C in IH. lia.
Qed.

(** X21.  In a frame in which no item runs out of life, the loot pass moves
    minerals from the loot to the hold and does nothing else to them: for
    each mineral, the units in the hold and the units afloat add up to
    what they were.  An item is taken whole or not at all. *)
Theorem pickup_conserves_minerals (inp : Input) (w : World) :
  Forall (fun l => (1 < Loot.life l)%Z) (loot w) ->
  forall t,
    (cargoGet (cargo (ship (lootLogic inp w))) t
     + lootOf t (loot (lootLogic inp w))
     = cargoGet (cargo (ship w)) t + lootOf t (loot w))%Z.
Proof.
  intros F t. pose proof (lootEach_conserves inp (loot w) w F t) as H.
  unfold lootLogic. destruct (lootEach inp w (loot w)) as [w' ls].
  exact H.
Qed.

(** Seven units of gold afloat at the ship, four of iron out of reach. *)
Lemma pickup_conserves_minerals_witness :
  let w := withLoot [Loot.mk 1000 0 0 0 GOLD 7 1800;
                     Loot.mk 2000 0 0 0 IRON 4 900]
                    (Scene.space (Scene.shipAt 500 1000 0 0 0)) in
  (cargoGet (cargo (ship (lootLogic Scene.hands_off w))) GOLD
   + lootOf GOLD (loot (lootLogic Scene.hands_off w))
   = cargoGet (cargo (ship w)) GOLD + lootOf GOLD (loot w))%Z.
Proof.
  intro w.
  assert (F : Forall (fun l => (1 < Loot.life l)%Z) (loot w))
    by (repeat constructor).
  exact (pickup_conserves_minerals Scene.hands_off w F GOLD).
Defined.

(** *** The alien's loot *)

Lemma dropStolen_spec (inp : Input) (a : Alien.t)
    (s : list (MineralType * Z)) : forall n,
  map content (fst (dropStolen inp a n s))
  = filter (fun kv => (0 <? snd kv)%Z) s
  /\ Forall (fun l => Loot.x l = Alien.x a /\ Loot.y l = Alien.y a
                      /\ Loot.life l = LOOT_DESPAWN_TIME)
            (fst (dropStolen inp a n s)).
Proof.
  induction s as [|[t v] s IH]; intro n; simpl.
  - split; constructor.
  - destruct (0 <? v)%Z.
    + specialize (IH (n + 2)%nat).
      destruct (dropStolen inp a (n + 2) s) as [items n']. simpl in *.
      destruct IH as [IH1 IH2]. split.
      * unfold content at 1. cbn [Loot.type Loot.amount]. now rewrite IH1.
      * constructor; [repeat split|exact IH2].
    + apply IH.
Qed.

Lemma filter_all {A} (p : A -> bool) (l : list A) :
  Forall (fun x => p x = true) l -> filter p l = l.
Proof.
  induction 1 as [|x l H F IH]; simpl; [reflexivity|].
  now rewrite H, IH.
Qed.

(** X8.  The hit that brings the alien's [hp] to zero or below removes the alien
    and adds to the loot, at the alien's place and with a full life, one
    item for each mineral of the stolen cargo with a positive amount, in the
    order of the first thefts and with that very amount, so that a stolen
    cargo of positive amounts comes back whole; and 30 particles at least.
    Any other hit only lowers [hp] by the mining power. *)
Theorem alien_drops_stolen_cargo (inp : Input) (w : World) (a : Alien.t) :
  let power := miningPower (config w) in
  (Alien.hp a - power <= 0 ->
     alien (hitAlien inp w a) = None
     /\ (exists items,
           loot (hitAlien inp w a) = loot w ++ items
           /\ map content items
              = filter (fun kv => (0 <? snd kv)%Z) (Alien.stolenCargo a)
           /\ Forall (fun l => Loot.x l = Alien.x a /\ Loot.y l = Alien.y a
                               /\ Loot.life l = LOOT_DESPAWN_TIME) items
           /\ (Forall (fun kv => (0 < snd kv)%Z) (Alien.stolenCargo a) ->
               map content items = Alien.stolenCargo a))
     /\ (List.length (particles w) + 30
         <= List.length (particles (hitAlien inp w a)))%nat)
  /\ (0 < Alien.hp a - power ->
      alien (hitAlien inp w a) = Some (withHp (Alien.hp a - power) a)
      /\ loot (hitAlien inp w a) = loot w).
Proof.
  intro power. pose proof (hitAlien_alien inp w a) as HA. fold power in HA.
  split; intro H.
  - destruct (leb_spec (Alien.hp a - power) 0) as [G|G]; [|lra].
    split; [exact HA|].
    unfold hitAlien. fold (config w). fold power.
    cbn [withHp Alien.hp Alien.x Alien.y Alien.stolenCargo].
    destruct (leb_spec (Alien.hp a - power) 0) as [G'|G']; [|lra].
    set (a1 := withHp (Alien.hp a - power) a).
    pose proof (spark_rest inp (Alien.x a) (Alien.y a) 30 5 20
                ALIEN_CONFIG.COLOR_LIGHTS 2
                (withShake (Qmax (shake w) 2)
                   (withShip (withFuel (currentFuel (ship w)
                      - thrustConsumptionRate (shipConfig (ship w)) * 0.5)
                      (ship w)) w)))
      as (_ & _ & _ & L2 & _ & P2).
    remember (spark inp (Alien.x a) (Alien.y a) 30 5 20
                ALIEN_CONFIG.COLOR_LIGHTS 2 _) as w2 eqn:E2.
    cbv zeta in L2, P2.
    pose proof (dropStolen_spec inp a1 (Alien.stolenCargo a) (used w2)) as D.
    destruct (dropStolen inp a1 (used w2) (Alien.stolenCargo a)) as [items n].
    simpl in D. destruct D as [D1 D2].
    split.
    + exists items. cbn [withAlien withUsed pushParticles withParticles
                              pushLoot withLoot withShake loot].
      rewrite L2. cbn [withShake withShip loot].
      repeat split; trivial.
      intro Pos. rewrite D1. apply filter_all.
      eapply Forall_impl; [|exact Pos]. intros kv K. now apply Z.ltb_lt.
    + cbn [withAlien withUsed pushParticles withParticles
                     pushLoot withLoot withShake particles].
      rewrite List.length_app, List.length_map, List.length_seq.
      destruct P2 as [->|[p ->]]; [|rewrite List.length_app];
        cbn [withShake withShip particles List.length]; lia.
  - destruct (leb_spec (Alien.hp a - power) 0) as [G|G]; [lra|].
    split; [exact HA|].
    unfold hitAlien. fold (config w). fold power.
    cbn [withHp Alien.hp Alien.x Alien.y].
    destruct (leb_spec (Alien.hp a - power) 0) as [G'|G']; [lra|].
    unfold spark. destruct (_ >? _); reflexivity.
Qed.

(** The scenario of the design document: a stolen cargo of three units of
    iron comes back as one item of iron, of amount 3, where the alien was. *)
Example alien_drops_iron :
  let w := Scene.space (Scene.shipAt 500 1000 0 0 0) in
  let a := Alien.mk 1050 20 0 0 1 300 [(IRON, 3%Z)] DRAINING 0 0 in
  map (fun l => (Loot.x l, Loot.y l, Loot.type l, Loot.amount l))
      (loot (hitAlien Scene.mining w a))
  = [(1050, 20, IRON, 3%Z)]
  /\ alien (hitAlien Scene.mining w a) = None.
Proof. split; reflexivity. Qed.

(** *** Theft moves minerals, it makes and loses none *)

Lemma stolenTotal_stolenSet s t v :
  stolenTotal (Alien.stolenSet s t v)
  = (stolenTotal s - Alien.stolenGet s t + v)%Z.
Proof.
  induction s as [|[k v0] s IH]; simpl.
  - lia.
  - destruct (MineralType_eqb k t); simpl; [lia|]. rewrite IH. lia.
Qed.

Lemma stolenGet_nonneg s t :
  Forall (fun kv => (0 < snd kv)%Z) s -> (0 <= Alien.stolenGet s t)%Z.
Proof.
  induction 1 as [|[k v] s H F IH]; simpl; [lia|].
  destruct (MineralType_eqb k t); simpl in *; lia.
Qed.

Lemma stolenSet_positive s t v :
  Forall (fun kv => (0 < snd kv)%Z) s -> (0 < v)%Z ->
  Forall (fun kv => (0 < snd kv)%Z) (Alien.stolenSet s t v).
Proof.
  induction 1 as [|[k v0] s H F IH]; intro V; simpl.
  - repeat constructor. exact V.
  - destruct (MineralType_eqb k t); constructor; auto.
Qed.

Lemma steal_conserves inp w a :
  (cargoTotal (cargo (ship (fst (steal inp w a))))
   + stolenTotal (Alien.stolenCargo (snd (steal inp w a)))
   = cargoTotal (cargo (ship w)) + stolenTotal (Alien.stolenCargo a))%Z
  /\ (cargoTotal (cargo (ship w)) - 1
      <= cargoTotal (cargo (ship (fst (steal inp w a))))
      <= cargoTotal (cargo (ship w)))%Z
  /\ (Forall (fun kv => (0 < snd kv)%Z) (Alien.stolenCargo a) ->
      Forall (fun kv => (0 < snd kv)%Z)
             (Alien.stolenCargo (snd (steal inp w a)))).
Proof.
  unfold steal.
  destruct (availableTypes (cargo (ship w))) as [|t0 l];
    [simpl; repeat split; auto; lia|].
  destruct (pick _ _) as [t|]; [|simpl; repeat split; auto; lia].
  cbn [fst snd advance pushParticles withUsed withParticles withShip
       withCargo ship cargo withTimer withStolen Alien.stolenCargo].
  rewrite cargoTotal_cargoSet, stolenTotal_stolenSet.
  repeat split; try lia.
  intro Pos. apply stolenSet_positive; [exact Pos|].
  pose proof (stolenGet_nonneg _ t Pos). lia.
Qed.

(** X9.  Whatever the alien's drain does in a frame, the units in the hold and
    the units the alien has stolen add up to what they were: at most one
    unit leaves the hold, and it is then in the stolen cargo, whose amounts
    stay positive. *)
Theorem theft_conserves_minerals
    (inp : Input) (distSq : Q) (w : World) (a : Alien.t) :
  let w' := fst (drain inp distSq w a) in
  let a' := snd (drain inp distSq w a) in
  (cargoTotal (cargo (ship w')) + stolenTotal (Alien.stolenCargo a')
   = cargoTotal (cargo (ship w)) + stolenTotal (Alien.stolenCargo a))%Z
  /\ (cargoTotal (cargo (ship w)) - 1 <= cargoTotal (cargo (ship w'))
      <= cargoTotal (cargo (ship w)))%Z
  /\ (Forall (fun kv => (0 < snd kv)%Z) (Alien.stolenCargo a) ->
      Forall (fun kv => (0 < snd kv)%Z) (Alien.stolenCargo a')).
Proof.
  unfold drain. destruct (draining distSq a);
    [|simpl; repeat split; auto; lia].
  destruct (_ <=? _)%Z; [|simpl; repeat split; auto; lia].
  cbv zeta. apply (steal_conserves inp w (withTimer (Alien.drainTimer a + 1) a)).
Qed.

(** *** The alien's drain cycle *)

Lemma steal_state inp w a :
  Alien.state (snd (steal inp w a)) = Alien.state a.
Proof.
  unfold steal. destruct (availableTypes _); [reflexivity|].
  destruct (pick _ _); reflexivity.
Qed.

(** X10.  An alien whose drain timer is below the interval keeps it there.  The
    distance to the ship before the move decides the state: beyond 0.7
    times the drain range the alien chases, its timer and the ship as they
    were; within, it drains, the timer goes one step round the interval,
    and the ship is touched only on the step that closes it.  The test
    [dist < DRAIN_RANGE] of the drain never fails for a draining alien. *)
Theorem alien_drain_cycle (M : MathLib) (inp : Input) (w : World) (a : Alien.t) :
  alien w = Some a ->
  (0 <= Alien.drainTimer a < ALIEN_CONFIG.DRAIN_INTERVAL)%Z ->
  let d := alienDistSq (ship w) a in
  let w' := updateAlien M inp w in
  exists a',
    alien w' = Some a'
    /\ (0 <= Alien.drainTimer a' < ALIEN_CONFIG.DRAIN_INTERVAL)%Z
    /\ (210 * 210 < d ->
        Alien.state a' = CHASING
        /\ Alien.drainTimer a' = Alien.drainTimer a
        /\ ship w' = ship w)
    /\ (d <= 210 * 210 ->
        Alien.state a' = DRAINING
        /\ draining d (moveAlien M (ship w) a) = true
        /\ Alien.drainTimer a'
           = ((Alien.drainTimer a + 1) mod ALIEN_CONFIG.DRAIN_INTERVAL)%Z
        /\ ((Alien.drainTimer a + 1 < ALIEN_CONFIG.DRAIN_INTERVAL)%Z ->
            ship w' = ship w)).
Proof.
  intros A T d w'. unfold ALIEN_CONFIG.DRAIN_INTERVAL in *.
  unfold w', updateAlien. rewrite A. fold d.
  set (a1 := moveAlien M (ship w) a).
  assert (T1 : Alien.drainTimer a1 = Alien.drainTimer a) by reflexivity.
  assert (S1 : Alien.state a1
               = if Num.sqrt_gtb d (ALIEN_CONFIG.DRAIN_RANGE * 0.7)
                 then CHASING else DRAINING) by reflexivity.
  assert (G : Num.sqrt_gtb d (ALIEN_CONFIG.DRAIN_RANGE * 0.7) = true
              <-> 210 * 210 < d).
  { unfold Num.sqrt_gtb. rewrite negb_true_iff, <- not_true_iff_false,
      sqrt_leb_spec. unfold ALIEN_CONFIG.DRAIN_RANGE. split.
    - intro N. apply Qnot_le_lt. intro L. apply N. split; lra.
    - intros L [_ N]. lra. }
  unfold drain, draining, ALIEN_CONFIG.DRAIN_INTERVAL. rewrite S1.
  destruct (Num.sqrt_gtb d (ALIEN_CONFIG.DRAIN_RANGE * 0.7)) eqn:C.
  - assert (L : 210 * 210 < d) by now apply G.
    exists a1. cbn [withAlien alien ship].
    split; [reflexivity|]. split; [lia|]. split.
    + intros _. split; [exact S1|]. split; [exact T1|reflexivity].
    + intro N. lra.
  - assert (L : d <= 210 * 210).
    { apply Qnot_lt_le. intro N. apply G in N. congruence. }
    assert (R : Num.sqrt_ltb d ALIEN_CONFIG.DRAIN_RANGE = true).
    { apply sqrt_ltb_spec. unfold ALIEN_CONFIG.DRAIN_RANGE. lra. }
    rewrite R. cbn [withTimer Alien.drainTimer]. rewrite T1.
    destruct (45 <=? Alien.drainTimer a + 1)%Z eqn:I.
    + apply Z.leb_le in I.
      pose proof (steal_timer inp w (withTimer (Alien.drainTimer a + 1) a1)) as ST.
      pose proof (steal_state inp w (withTimer (Alien.drainTimer a + 1) a1)) as SS.
      destruct (steal inp w _) as [w2 a2]. cbn [fst snd] in ST, SS.
      exists a2. cbn [withAlien alien ship].
      split; [reflexivity|]. split; [lia|]. split.
      * intro N. lra.
      * intros _. split.
        { rewrite SS. cbn [withTimer Alien.state]. exact S1. }
        split; [reflexivity|]. split; [|lia].
        rewrite ST. replace (Alien.drainTimer a + 1)%Z with 45%Z by lia.
        reflexivity.
    + apply Z.leb_gt in I.
      exists (withTimer (Alien.drainTimer a + 1) a1).
      cbn [withAlien alien ship withTimer Alien.drainTimer Alien.state].
      split; [reflexivity|]. split; [lia|]. split.
      * intro N. lra.
      * intros _. split; [exact S1|]. split; [reflexivity|].
        split; [|reflexivity].
        now rewrite Z.mod_small by lia.
Qed.

(** An alien at 200 units from the ship, its timer at 44: the frame closes
    the interval. *)
Lemma alien_drain_cycle_witness :
  let w := withAlien
             (Some (Alien.mk 1200 1000 0 0 300 300 [] DRAINING 44 0))
             (Scene.space (Scene.shipAt 1000 1000 0 0 0)) in
  exists a',
    alien (updateAlien Scene.math Scene.hands_off w) = Some a'
    /\ (0 <= Alien.drainTimer a' < ALIEN_CONFIG.DRAIN_INTERVAL)%Z.
Proof.
  intro w.
  destruct (alien_drain_cycle Scene.math Scene.hands_off w
              (Alien.mk 1200 1000 0 0 300 300 [] DRAINING 44 0)
              eq_refl ltac:(vm_compute; split; congruence))
    as (a' & E & T & _).
  exists a'. split; [exact E|exact T].
Defined.

(** *** The rocks between two frames *)

Lemma replaceAt_map {A B} (f : A -> B) (i : nat) (v : A) (l : list A) :
  map f (replaceAt i v l) = replaceAt i (f v) (map f l).
Proof.
  revert i. induction l as [|b l IH]; intros [|i]; simpl; auto.
  now rewrite IH.
Qed.

Lemma map_health_drawn (l : list Asteroid.t) :
  map Asteroid.health (map Asteroid.drawn l) = map Asteroid.health l.
Proof. rewrite map_map. reflexivity. Qed.

Lemma loop_healths (M : MathLib) (inp : Input) (w w6 : World) (aim : Aim) :
  update M inp w = Some (w6, aim) ->
  map Asteroid.health (asteroids (worldOf (loop M inp w)))
  = map Asteroid.health (asteroids w6).
Proof.
  intro U. pose proof (loop_cases M inp w) as C. rewrite U in C.
  destruct C as [_ C]. rewrite C. destruct (docks _ _); cbn [worldOf].
  - reflexivity.
  - rewrite render_asteroids. apply map_health_drawn.
Qed.

(** X11.  The health of the rocks changes in one way only.  In a frame whose
    laser is on no rock the list of healths (and of identifiers) is after
    the frame what it was before, however the frame ends; in a frame whose
    laser is on the rock at position [i] that one entry is lowered by the
    mining power, or removed when that brings it to zero or below, and the
    other entries stay. *)
Theorem health_falls_only_under_the_laser
    (M : MathLib) (inp : Input) (w : World) :
  let w' := worldOf (loop M inp w) in
  let healths v := map Asteroid.health (asteroids v) in
  match targetOf M inp w with
  | None => healths w' = healths w /\ ids w' = ids w
  | Some i =>
      forall ast, nth_error (asteroids w) i = Some ast ->
        healths w'
        = if Asteroid.health ast - miningPower (config w) <=? 0
          then removeAt i (healths w)
          else replaceAt i (Asteroid.health ast - miningPower (config w))
                         (healths w)
  end.
Proof.
  intros w' healths. unfold w', healths.
  destruct (targetOf M inp w) as [i|] eqn:T.
  - intros ast N.
    destruct (target_frame M inp w i T) as (w3 & _ & _ & U & A3 & C3).
    rewrite (loop_healths M inp w _ _ U).
    destruct (lootLogic_rest inp (mine inp (Some i) w3)) as (_ & _ & A6 & _).
    rewrite A6. rewrite <- A3 in N.
    rewrite (mine_asteroids inp w3 i ast N), C3, A3.
    destruct (_ <=? _).
    + apply removeAt_map.
    + rewrite replaceAt_map. reflexivity.
  - pose proof (loop_cases M inp w) as C.
    unfold targetOf in T. unfold update in C.
    destruct (aimed M inp w) as [[w4 aim]|] eqn:A.
    + simpl in T. subst.
      assert (U : update M inp w
                  = Some (lootLogic inp (mine inp (miningTarget aim) w4), aim)).
      { unfold update. now rewrite A. }
      assert (A4 : asteroids w4 = asteroids w).
      { unfold aimed in A. destruct (approach M inp w) as [w3|] eqn:P;
          [|discriminate].
        destruct (approach_rest M inp w w3 P) as (A3 & _).
        pose proof (combat_asteroids M inp w3) as CA.
        injection A as A. rewrite A in CA. simpl in CA. congruence. }
      destruct (loop_asteroids M inp w _ _ U) as (_ & I & _).
      rewrite (loop_healths M inp w _ _ U), I. unfold ids.
      destruct (lootLogic_rest inp (mine inp (miningTarget aim) w4))
        as (_ & _ & A6 & _).
      rewrite A6, T. cbn [mine]. now rewrite A4.
    + destruct C as [_ C]. rewrite C. cbn [worldOf]. unfold ids.
      now rewrite physics_asteroids.
Qed.

(** *** What a frame hands to the next *)

Lemma lootLogic_alive (inp : Input) (w : World) :
  Forall (fun l => (0 < Loot.life l)%Z) (loot (lootLogic inp w)).
Proof.
  unfold lootLogic. destruct (lootEach inp w (loot w)) as [w' ls].
  cbn [withLoot loot]. apply Forall_forall. intros l I.
  apply filter_In in I. destruct I as [_ I]. now apply Z.ltb_lt.
Qed.

(** X12.  The world a frame hands to the next has no rock marked as heating, no
    particle out of life and no loot out of life: the render pass clears
    the mark the laser set in the same frame, and the two purges run
    before the frame ends. *)
Theorem next_frame_is_clean (M : MathLib) (inp : Input) (w w' : World) :
  loop M inp w = Continue w' ->
  Forall (fun a => Asteroid.isHeating a = false) (asteroids w')
  /\ Forall (fun p => 0 < Particle.life p) (particles w')
  /\ Forall (fun l => (0 < Loot.life l)%Z) (loot w').
Proof.
  intro L. pose proof (loop_cases M inp w) as C.
  unfold update in C.
  destruct (aimed M inp w) as [[w4 aim]|].
  - destruct C as [_ C]. rewrite C in L. destruct (docks _ _); [discriminate|].
    injection L as <-. split; [|split].
    + rewrite render_asteroids. apply Forall_forall. intros a I.
      apply in_map_iff in I. destruct I as (b & <- & _). reflexivity.
    + unfold render. cbn [withParticles particles]. apply Forall_forall.
      intros p I. apply filter_In in I. destruct I as [_ I].
      now apply ltb_lt in I.
    + unfold render. cbn [withParticles withAsteroids loot].
      apply lootLogic_alive.
  - destruct C as [_ C]. rewrite C in L. discriminate.
Qed.

(** A frame of the quarry continues, and so hands on a clean world. *)
Lemma next_frame_is_clean_witness :
  Forall (fun a => Asteroid.isHeating a = false)
         (asteroids (worldOf (loop Scene.math Scene.mining Scene.quarry)))
  /\ Forall (fun p => 0 < Particle.life p)
         (particles (worldOf (loop Scene.math Scene.mining Scene.quarry)))
  /\ Forall (fun l => (0 < Loot.life l)%Z)
         (loot (worldOf (loop Scene.math Scene.mining Scene.quarry))).
Proof.
  assert (L : loop Scene.math Scene.mining Scene.quarry
              = Continue (worldOf (loop Scene.math Scene.mining Scene.quarry)))
    by (vm_compute; reflexivity).
  exact (next_frame_is_clean Scene.math Scene.mining Scene.quarry _ L).
Defined.

(** *** The screen shake *)

Lemma shakeDecay_bounds (s : Q) :
  0 <= s -> 0 <= shakeDecay s /\ shakeDecay s <= s.
Proof.
  intro S. unfold shakeDecay.
  destruct (gtb_spec s 0); [|lra].
  destruct (ltb_spec (s * 0.9) 0.5); lra.
Qed.

Lemma shakeDecay_mono (a b : Q) :
  0 <= a -> a <= b -> shakeDecay a <= shakeDecay b.
Proof.
  intros A L. unfold shakeDecay.
  destruct (gtb_spec a 0), (gtb_spec b 0); try lra;
    destruct (ltb_spec (a * 0.9) 0.5), (ltb_spec (b * 0.9) 0.5); lra.
Qed.

Lemma shakeAfter_add (n m : nat) (s : Q) :
  shakeAfter (n + m) s = shakeAfter n (shakeAfter m s).
Proof. unfold shakeAfter. apply Nat.iter_add. Qed.

Lemma shakeAfter_S (n : nat) (s : Q) :
  shakeAfter (S n) s = shakeDecay (shakeAfter n s).
Proof. reflexivity. Qed.

Lemma shakeAfter_mono (n : nat) (a b : Q) :
  0 <= a -> a <= b ->
  0 <= shakeAfter n a /\ shakeAfter n a <= shakeAfter n b.
Proof.
  intros A L. induction n as [|n [I0 I1]].
  - split; assumption.
  - rewrite !shakeAfter_S.
    split; [apply shakeDecay_bounds, I0|now apply shakeDecay_mono].
Qed.

Lemma loop_shake (M : MathLib) (inp : Input) (w w' : World) :
  isDown inp = false -> loop M inp w = Continue w' ->
  shake w' = shakeDecay (shake w).
Proof.
  intros Dn L. pose proof (loop_cases M inp w) as C.
  unfold update, aimed, approach in C.
  destruct (idle (physics M inp (withUsed 0 w))) as [w2|] eqn:I.
  - assert (Off : laserOn inp (updateAlien M inp (spawnAlien M inp (follow inp w2)))
                  = false) by (unfold laserOn; now rewrite Dn).
    rewrite (combat_off M inp _ Off) in C. cbn [miningTarget mine] in C.
    destruct C as [_ C]. rewrite C in L. destruct (docks _ _); [discriminate|].
    injection L as <-. unfold render. cbn [withParticles withAsteroids shake].
    assert (S6 : forall v, shake (lootLogic inp v) = shake v).
    { intro v. unfold lootLogic.
      assert (E : forall ls u, shake (fst (lootEach inp u ls)) = shake u).
      { induction ls as [|l ls IH]; intro u; simpl; [reflexivity|].
        assert (K : shake (fst (collect inp u (drift l))) = shake u).
        { unfold collect. destruct (inReach _ _); [|reflexivity].
          destruct (fits _ _); [reflexivity|].
          destruct (_ <? _); reflexivity. }
        destruct (collect inp u (drift l)) as [u1 l1]. simpl in K.
        specialize (IH u1). destruct (lootEach inp u1 ls) as [u2 ls'].
        simpl in *. congruence. }
      specialize (E (loot v) v).
      destruct (lootEach inp v (loot v)) as [v' ls]. exact E. }
    assert (S3 : forall v, shake (updateAlien M inp v) = shake v).
    { intro v. unfold updateAlien. destruct (alien v) as [a|]; [|reflexivity].
      assert (E : shake (fst (drain inp (alienDistSq (ship v) a) v
                                (moveAlien M (ship v) a))) = shake v).
      { unfold drain. destruct (draining _ _); [|reflexivity].
        destruct (_ <=? _)%Z; [|reflexivity].
        cbv zeta. unfold steal. destruct (availableTypes _); [reflexivity|].
        destruct (pick _ _); reflexivity. }
      destruct (drain _ _ _ _) as [v' a']. exact E. }
    assert (S2 : forall v, shake (spawnAlien M inp v) = shake v).
    { intro v. unfold spawnAlien. destruct (alien v); [reflexivity|].
      destruct (_ <? _); reflexivity. }
    rewrite S6, S3, S2. cbn [follow withCamera shake].
    assert (S1 : shake w2 = shake (physics M inp (withUsed 0 w))).
    { unfold idle in I. destruct (_ >? _); [now injection I as <-|].
      destruct (stopped _); [discriminate|]. now injection I as <-. }
    rewrite S1. unfold physics. destruct (thrusts _ _); reflexivity.
  - destruct C as [_ C]. rewrite C in L. discriminate.
Qed.

Lemma run_shake (M : MathLib) (inps : list Input) : forall w w',
  Forall (fun inp => isDown inp = false) inps ->
  run M inps w = Continue w' ->
  shake w' = shakeAfter (List.length inps) (shake w).
Proof.
  induction inps as [|inp inps IH] using rev_ind; intros w w' F R.
  - simpl in R. injection R as <-. reflexivity.
  - rewrite run_app in R. apply Forall_app in F. destruct F as [F1 F2].
    destruct (run M inps w) as [v|s v|v] eqn:R1; try discriminate.
    simpl in R. destruct (loop M inp v) as [u|s u|u] eqn:L; try discriminate.
    injection R as <-.
    rewrite List.length_app, Nat.add_comm.
    change (1 + List.length inps)%nat with (S (List.length inps)).
    rewrite shakeAfter_S, <- (IH w v F1 R1).
    apply (loop_shake M inp v u); [|exact L]. now inversion F2.
Qed.

(** X15.  The shake of the screen dies out.  A frame with the button up puts the
    shake through one step of the decay, which never raises it; and from a
    shake of at most 20, the highest the game sets, 36 frames with the
    button up leave none, while 35 need not be enough. *)
Theorem shake_dies_out (M : MathLib) (inps : list Input) (w w' : World) :
  Forall (fun inp => isDown inp = false) inps ->
  run M inps w = Continue w' ->
  0 <= shake w -> shake w <= 20 ->
  shake w' = shakeAfter (List.length inps) (shake w)
  /\ 0 <= shake w' /\ shake w' <= shake w
  /\ ((36 <= List.length inps)%nat -> shake w' == 0)
  /\ 0 < shakeAfter 35 20.
Proof.
  intros F R S0 S20. rewrite (run_shake M inps w w' F R).
  destruct (shakeAfter_mono (List.length inps) _ _ S0 S20) as [P0 P1].
  assert (Dec : forall n s, 0 <= s -> 0 <= shakeAfter n s /\ shakeAfter n s <= s).
  { induction n as [|n IH]; intros s Hs; [split; [exact Hs|apply Qle_refl]|].
    destruct (IH s Hs) as [I0 I1]. rewrite shakeAfter_S.
    destruct (shakeDecay_bounds _ I0). split; lra. }
  split; [reflexivity|]. split; [exact P0|].
  split; [apply Dec, S0|]. split; [|vm_compute; reflexivity].
  intro Len.
  assert (Z36 : shakeAfter 36 20 = 0) by (vm_compute; reflexivity).
  replace (List.length inps) with ((List.length inps - 36) + 36)%nat by lia.
  rewrite shakeAfter_add.
  destruct (shakeAfter_mono 36 _ _ S0 S20) as [Q0 Q1]. rewrite Z36 in Q1.
  destruct (Dec (List.length inps - 36)%nat _ Q0) as [D0 D1]. lra.
Qed.

(** Three frames adrift after the alien's explosion set the shake to 20. *)
Lemma shake_dies_out_witness :
  let w := withShake 20 (Scene.space (Scene.shipAt 500 1000 0 0 0)) in
  let inps := repeat Scene.hands_off 3 in
  shake (worldOf (run Scene.math inps w)) = shakeAfter 3 20.
Proof.
  intros w inps.
  assert (R : run Scene.math inps w = Continue (worldOf (run Scene.math inps w)))
    by (vm_compute; reflexivity).
  assert (F : Forall (fun inp => isDown inp = false) inps)
    by (repeat constructor).
  assert (S0 : 0 <= shake w) by (vm_compute; congruence).
  assert (S20 : shake w <= 20) by (vm_compute; congruence).
  exact (proj1 (shake_dies_out Scene.math inps w _ F R S0 S20)).
Defined.

(** *** The fuel account of a frame *)

(** X16.  What a frame takes from the tank, to the last drop: the thrust rate
    when a thrust key is held and the tank is not empty; then the idle rate
    when the tank is still not empty; then half the thrust rate when the
    laser is on the alien or on a rock.  A laser that is on nothing costs
    nothing, and the frame that ends the game takes the thrust alone. *)
Theorem frame_fuel_account (M : MathLib) (inp : Input) (w : World) :
  let rate := thrustConsumptionRate (config w) in
  let f1 := if thrusts inp w then fuel w - rate else fuel w in
  let f2 := if f1 >? 0 then f1 - fuelConsumptionRate (config w) else f1 in
  match update M inp w with
  | Some (_, aim) =>
      fuel (worldOf (loop M inp w))
      = if attackingAlien aim
           || match miningTarget aim with Some _ => true | None => false end
        then f2 - rate * 0.5 else f2
  | None => fuel (worldOf (loop M inp w)) = f1
  end.
Proof.
  intros rate f1 f2.
  pose proof (loop_world M inp w) as LW.
  assert (F1 : fuel (physics M inp (withUsed 0 w)) = f1)
    by exact (physics_fuel M inp (withUsed 0 w)).
  assert (C1 : config (physics M inp (withUsed 0 w)) = config w)
    by exact (physics_config M inp (withUsed 0 w)).
  unfold update, aimed in *.
  destruct (approach M inp w) as [w3|] eqn:A.
  - destruct (approach_ship M inp w w3 A) as (H3 & F3 & _).
    rewrite F1, C1 in F3. fold f2 in F3.
    assert (C3 : config w3 = config w).
    { unfold config. destruct H3 as (_ & -> & _). exact C1. }
    pose proof (laser_fuel M inp w3) as LF. cbv zeta in LF.
    destruct (combat M inp w3) as [w4 aim]. cbn [fst snd] in LF.
    unfold fuel at 1. rewrite LW.
    fold (fuel (lootLogic inp (mine inp (miningTarget aim) w4))).
    destruct (lootLogic_rest inp (mine inp (miningTarget aim) w4)) as (F6 & _).
    rewrite F6, LF, F3, C3. reflexivity.
  - rewrite LW. exact F1.
Qed.

End LoopFacts.

(* ================================================================= *)
(** * The asteroid field *)

Module FieldFacts.
Import NumFacts CanvasFacts Generate.

Lemma show_inj (a b : Z) : Num.show a = Num.show b -> a = b.
Proof.
  unfold Num.show. intro E.
  assert (N : forall z, Z.to_int z <> Decimal.Pos Decimal.Nil
                        /\ Z.to_int z <> Decimal.Neg Decimal.Nil).
  { intros [|p|p]; simpl; split; try discriminate; intros [= H];
      exact (DecimalPos.Unsigned.to_uint_nonnil p H). }
  apply DecimalZ.to_int_inj.
  pose proof (NilZero.isi (Z.to_int a) (proj1 (N a)) (proj2 (N a))) as A.
  pose proof (NilZero.isi (Z.to_int b) (proj1 (N b)) (proj2 (N b))) as B.
  rewrite E in A. congruence.
Qed.

Lemma id_inj (i j : nat) :
  ("ast-" ++ Num.show (Z.of_nat i))%string
  = ("ast-" ++ Num.show (Z.of_nat j))%string -> i = j.
Proof.
  simpl. intros [= E]. apply show_inj in E. lia.
Qed.

Lemma NoDup_map_inj {A B} (f : A -> B) (l : list A) :
  (forall x y, f x = f y -> x = y) -> NoDup l -> NoDup (map f l).
Proof.
  intros I N. induction N as [|a l Na N IH]; simpl; constructor; [|exact IH].
  intro H. apply in_map_iff in H. destruct H as (b & E & Ib).
  apply I in E. subst. contradiction.
Qed.

Lemma floor_below (x : Q) (z : Z) : x < inject_Z z -> (Qfloor x < z)%Z.
Proof.
  intro H. rewrite Zlt_Qlt. eapply Qle_lt_trans; [apply Qfloor_le|exact H].
Qed.

Section Field.

Variable M : MathLib.
Variable random : nat -> Q.

Hypothesis random_unit : forall n, 0 <= random n /\ random n < 1.

Lemma asteroid_id (i n : nat) :
  Asteroid.id (fst (asteroid M random i n))
  = ("ast-" ++ Num.show (Z.of_nat i))%string.
Proof. reflexivity. Qed.

Lemma field_ids (count : nat) : forall i n,
  map Asteroid.id (field M random count i n)
  = map (fun k => ("ast-" ++ Num.show (Z.of_nat k))%string) (seq i count).
Proof.
  induction count as [|c IH]; intros i n; [reflexivity|].
  cbn [field seq map].
  change (asteroid M random i n)
    with (fst (asteroid M random i n), snd (asteroid M random i n)).
  cbn [map]. rewrite IH. reflexivity.
Qed.

Lemma field_each (P : Asteroid.t -> Prop) :
  (forall i n, P (fst (asteroid M random i n))) ->
  forall count i n, Forall P (field M random count i n).
Proof.
  intros H. induction count as [|c IH]; intros i n; [constructor|].
  cbn [field].
  change (asteroid M random i n)
    with (fst (asteroid M random i n), snd (asteroid M random i n)).
  constructor; [apply H|apply IH].
Qed.

Lemma numVerts_range (r : Q) :
  0 <= r -> r < 1 -> (6 <= 6 + Num.floor (r * 6) <= 11)%Z.
Proof.
  intros R0 R1. unfold Num.floor.
  assert (L : (0 <= Qfloor (r * 6))%Z).
  { change 0%Z with (Qfloor 0). apply Qfloor_resp_le. lra. }
  assert (U : (Qfloor (r * 6) < 6)%Z).
  { apply floor_below. change (inject_Z 6) with 6. lra. }
  lia.
Qed.

Lemma yield_range (radius : Q) :
  20 <= radius -> radius < 60 -> (4 <= Qfloor (radius / 5) <= 11)%Z.
Proof.
  intros R0 R1.
  assert (L : (4 <= Qfloor (radius / 5))%Z).
  { change 4%Z with (Qfloor 4). apply Qfloor_resp_le.
    apply Qle_shift_div_l; lra. }
  assert (U : (Qfloor (radius / 5) < 12)%Z).
  { apply floor_below. change (inject_Z 12) with 12.
    apply Qlt_shift_div_r; lra. }
  lia.
Qed.

End Field.

(** X17.  Whatever [Math.random()] returns within its range, the field has the
    150 rocks asked for, with the identifiers [ast-0] to [ast-149] in
    order, no two alike; each rock starts cold with 100 points of health
    out of 100, a radius from 20 up to (not including) 60, from 6 to 11
    vertices, and so, shattered, leaves from 4 to 11 units of ore. *)
Theorem field_of_rocks (M : MathLib) (random : nat -> Q) (n : nat) :
  (forall k, 0 <= random k /\ random k < 1) ->
  let rocks := Generate.asteroids M random n in
  List.length rocks = 150%nat
  /\ map Asteroid.id rocks
     = map (fun k => ("ast-" ++ Num.show (Z.of_nat k))%string) (seq 0 150)
  /\ NoDup (map Asteroid.id rocks)
  /\ Forall (fun a =>
       Asteroid.health a = 100 /\ Asteroid.maxHealth a = 100
       /\ Asteroid.isHeating a = false
       /\ 20 <= Asteroid.radius a /\ Asteroid.radius a < 60
       /\ (6 <= List.length (Asteroid.vertices a) <= 11)%nat
       /\ (4 <= Qfloor (Asteroid.radius a / 5) <= 11)%Z) rocks.
Proof.
  intros R rocks. unfold rocks, Generate.asteroids.
  pose proof (field_ids M random 150 0 n) as I.
  split; [|split; [exact I|split]].
  - rewrite <- (List.length_map Asteroid.id), I, List.length_map.
    apply List.length_seq.
  - rewrite I. apply NoDup_map_inj; [|apply seq_NoDup].
    intros i j. apply id_inj.
  - apply field_each. intros i k.
    cbn [asteroid fst Asteroid.health Asteroid.maxHealth Asteroid.isHeating
         Asteroid.radius Asteroid.vertices].
    destruct (R (k + 3)%nat) as [A0 A1]. destruct (R (k + 4)%nat) as [B0 B1].
    pose proof (numVerts_range _ B0 B1) as V.
    assert (Rad : 20 <= 20 + random (k + 3)%nat * 40
                  /\ 20 + random (k + 3)%nat * 40 < 60) by (split; lra).
    repeat split; try tauto.
    + rewrite List.length_map, List.length_seq. lia.
    + rewrite List.length_map, List.length_seq. lia.
    + apply yield_range; tauto.
    + apply yield_range; tauto.
Qed.

(** A stream of random numbers that are all one half. *)
Lemma field_of_rocks_witness :
  List.length (Generate.asteroids Scene.math (fun _ => 0.5) 0) = 150%nat.
Proof.
  assert (R : forall k : nat, 0 <= (fun _ : nat => 0.5) k
                              /\ (fun _ : nat => 0.5) k < 1)
    by (intro k; split; [discriminate|reflexivity]).
  exact (proj1 (field_of_rocks Scene.math (fun _ => 0.5) 0%nat R)).
Defined.

(** X18.  The mineral of a rock follows its distance from the station and one
    draw.  Distances run from 600 up to (not including) 5000.  Up to 1000
    units out every rock is iron; silicon needs more than 1000, gold more
    than 2000, Kronos crystal more than 3000; and beyond 3000 the draw
    alone decides: above 0.8 Kronos, above 0.7 gold, above 0.6 silicon,
    else iron. *)
Theorem minerals_by_distance (r rand : Q) :
  0 <= r -> r < 1 ->
  let dist := distOf r in
  ASTEROID_SPAWN_RADIUS <= dist /\ dist < WORLD_BOUNDS
  /\ (dist <= 1000 -> typeFor dist rand = IRON)
  /\ (typeFor dist rand = SILICON -> 1000 < dist /\ 0.6 < rand)
  /\ (typeFor dist rand = GOLD -> 2000 < dist /\ 0.7 < rand)
  /\ (typeFor dist rand = KRONOS -> 3000 < dist /\ 0.8 < rand)
  /\ (3000 < dist ->
      typeFor dist rand
      = if rand >? 0.8 then KRONOS
        else if rand >? 0.7 then GOLD
        else if rand >? 0.6 then SILICON else IRON).
Proof.
  intros R0 R1 dist.
  assert (D : ASTEROID_SPAWN_RADIUS <= dist /\ dist < WORLD_BOUNDS).
  { unfold dist, distOf, ASTEROID_SPAWN_RADIUS, WORLD_BOUNDS. split; lra. }
  split; [tauto|]. split; [tauto|].
  unfold typeFor.
  destruct (gtb_spec dist 3000), (gtb_spec dist 2000), (gtb_spec dist 1000),
    (gtb_spec rand 0.8), (gtb_spec rand 0.7), (gtb_spec rand 0.6);
    cbn [andb]; repeat split; intros; try discriminate; try reflexivity;
    try lra.
Qed.

(** A rock 3900 units out, with a draw of 0.75. *)
Lemma minerals_by_distance_witness :
  typeFor (distOf 0.75) 0.75
  = if 0.75 >? 0.8 then KRONOS
    else if 0.75 >? 0.7 then GOLD
    else if 0.75 >? 0.6 then SILICON else IRON.
Proof.
  assert (R0 : 0 <= 0.75) by (vm_compute; congruence).
  assert (R1 : 0.75 < 1) by reflexivity.
  assert (D : 3000 < distOf 0.75) by reflexivity.
  exact (proj2 (proj2 (proj2 (proj2 (proj2 (proj2
           (minerals_by_distance 0.75 0.75 R0 R1)))))) D).
Defined.

End FieldFacts.

(* ================================================================= *)
(** * The application around the canvas *)

Module AppFacts.
Import Canvas NumFacts CanvasFacts Flight LoopFacts.

Section Coasting.

Variable M : MathLib.
Variable inp : Input.

Hypothesis no_thrust : KeyW inp = false /\ ArrowUp inp = false.

Lemma coast_thrusts (w : World) : thrusts inp w = false.
Proof.
  unfold thrusts, isThrusting. destruct no_thrust as [-> ->]. reflexivity.
Qed.

Lemma coast_dragged (w : World) :
  draggedVelocity M inp w
  = Point.mk (Point.x (velocity (ship w)) * 0.99)
             (Point.y (velocity (ship w)) * 0.99).
Proof.
  unfold draggedVelocity, thrustVelocity. now rewrite coast_thrusts.
Qed.

(** The physics of a frame without thrust, below the speed cap. *)
Lemma coast_physics (w : World) :
  let vx := Point.x (velocity (ship w)) in
  let vy := Point.y (velocity (ship w)) in
  let top := maxSpeed (shipConfig (ship w)) in
  0 <= top -> vx * vx + vy * vy <= top * top ->
  velocity (ship (physics M inp w)) = Point.mk (vx * 0.99) (vy * 0.99)
  /\ position (ship (physics M inp w))
     = Point.mk (Point.x (position (ship w)) + vx * 0.99)
                (Point.y (position (ship w)) + vy * 0.99)
  /\ speedSq M inp w = Num.sq (vx * 0.99) + Num.sq (vy * 0.99)
  /\ currentFuel (ship (physics M inp w)) = currentFuel (ship w).
Proof.
  intros vx vy top T S.
  assert (Sq : speedSq M inp w = Num.sq (vx * 0.99) + Num.sq (vy * 0.99)).
  { unfold speedSq. now rewrite coast_dragged. }
  assert (C : cappedVelocity M inp w = Point.mk (vx * 0.99) (vy * 0.99)).
  { unfold cappedVelocity. rewrite Sq, coast_dragged. fold top.
    assert (G : Num.sqrt_gtb (Num.sq (vx * 0.99) + Num.sq (vy * 0.99)) top
                = false).
    { unfold Num.sqrt_gtb. apply negb_false_iff, sqrt_leb_spec.
      split; [exact T|]. unfold Num.sq. nra. }
    now rewrite G. }
  unfold physics. rewrite coast_thrusts, C.
  cbn [withShip withShake ship velocity position currentFuel Point.x Point.y].
  repeat split. exact Sq.
Qed.

End Coasting.

Lemma leaving_frame (M : MathLib) (inp : Input) (w : World) :
  KeyW inp = false /\ ArrowUp inp = false ->
  leaving (ship w) ->
  (forall s w', loop M inp w <> Dock s w')
  /\ leaving (ship (worldOf (loop M inp w))).
Proof.
  intros K (Y & Vy & T & S).
  destruct (coast_physics M inp K (withUsed 0 w) T S) as (V1 & P1 & Sq & _).
  cbn [withUsed ship] in V1, P1.
  set (w1 := physics M inp (withUsed 0 w)) in *.
  assert (C1 : shipConfig (ship w1) = shipConfig (ship w))
    by exact (physics_config M inp (withUsed 0 w)).
  assert (L1 : leaving (ship w1)).
  { unfold leaving. rewrite V1, P1, C1. cbn [Point.x Point.y].
    unfold Num.sq in *. repeat split; nra. }
  pose proof (loop_cases M inp w) as C.
  destruct (update M inp w) as [[w6 aim]|] eqn:U.
  - destruct (update_ship M inp w w6 aim U) as ((_ & C6 & P6 & V6 & _) & _).
    fold w1 in C6, P6, V6.
    assert (L6 : leaving (ship w6)).
    { unfold leaving. rewrite C6, P6, V6. exact L1. }
    assert (D : docks (speedSq M inp (withUsed 0 w)) w6 = false).
    { apply not_true_iff_false. intro D. apply docks_spec in D.
      destruct D as [D _]. destruct L6 as (Y6 & _).
      unfold DOCKING_RANGE, Num.sq in D. nra. }
    destruct C as [_ C]. rewrite C, D. split; [discriminate|exact L6].
  - destruct C as [_ C]. rewrite C. split; [discriminate|exact L1].
Qed.

Lemma leaving_run (M : MathLib) (inps : list Input) : forall w,
  Forall (fun inp => KeyW inp = false /\ ArrowUp inp = false) inps ->
  leaving (ship w) ->
  forall s w', run M inps w <> Dock s w'.
Proof.
  induction inps as [|inp inps IH]; intros w F L s w'; [discriminate|].
  inversion F as [|? ? K F']; subst.
  destruct (leaving_frame M inp w K L) as [N L'].
  simpl. destruct (loop M inp w) as [v|s0 v|v] eqn:E.
  - discriminate.
  - exfalso. exact (N s0 v eq_refl).
  - apply IH; assumption.
Qed.

(** X19.  A ship put out by [handleLaunch] or [handleRestart], 220 units above
    the station and moving away at one unit a frame, does not dock again
    for as long as no thrust key is held: its first frame goes on to the
    next, and no later frame calls [onDock]. *)
Theorem launch_does_not_redock
    (M : MathLib) (a : App.t) (inps : list Input) (w : World) :
  Forall (fun inp => KeyW inp = false /\ ArrowUp inp = false) inps ->
  (ship w = App.playerState (App.handleLaunch a)
   /\ 1 <= maxSpeed (shipConfig (App.playerState a)))
  \/ ship w = App.playerState (App.handleRestart M a) ->
  (forall s w', run M inps w <> Dock s w')
  /\ forall inp, KeyW inp = false /\ ArrowUp inp = false ->
       App.frame M inp (App.mk PLAYING (ship w)) w = App.mk PLAYING (ship w).
Proof.
  intros F H.
  assert (L : leaving (ship w)
              /\ Point.y (velocity (ship w)) == 1
              /\ Point.x (velocity (ship w)) == 0).
  { unfold leaving. destruct H as [[-> T]| ->];
      cbn [App.handleLaunch App.handleRestart App.playerState position
           velocity shipConfig Point.x Point.y STATION_POSITION
           INITIAL_SHIP_CONFIG maxSpeed]; unfold Num.sq;
      repeat split; try lra; try nra; try reflexivity; try discriminate. }
  destruct L as (L & Vy & Vx).
  split; [now apply leaving_run|].
  intros inp K. unfold App.frame. cbn [App.gameState].
  destruct (leaving_frame M inp w K L) as [N _].
  destruct L as (_ & _ & T & S).
  destruct (coast_physics M inp K (withUsed 0 w) T S) as (V1 & _).
  cbn [withUsed ship] in V1.
  pose proof (loop_cases M inp w) as C.
  destruct (update M inp w) as [[w6 aim]|] eqn:U.
  - destruct C as [_ C]. rewrite C.
    destruct (docks _ _) eqn:D; [|reflexivity].
    exfalso. apply (N (ship w6) w6). first [exact C|now rewrite C, D].
  - exfalso. destruct C as [C _]. apply idle_None in C.
    destruct C as [_ C]. apply stopped_spec in C. rewrite V1 in C.
    cbn [Point.x Point.y] in C. destruct C as [_ C].
    rewrite Vy in C. revert C. apply Qle_not_lt. discriminate.
Qed.

(** A launch from the station, and three frames adrift. *)
Lemma launch_does_not_redock_witness :
  let a := App.mk DOCKED Station.dockedShip in
  let w := Scene.space (App.playerState (App.handleLaunch a)) in
  App.frame Scene.math Scene.hands_off (App.mk PLAYING (ship w)) w
  = App.mk PLAYING (ship w).
Proof.
  intros a w.
  assert (F : Forall (fun inp => KeyW inp = false /\ ArrowUp inp = false)
                     (repeat Scene.hands_off 3))
    by (repeat constructor).
  assert (H : (ship w = App.playerState (App.handleLaunch a)
               /\ 1 <= maxSpeed (shipConfig (App.playerState a)))
              \/ ship w = App.playerState (App.handleRestart Scene.math a)).
  { left. split; [reflexivity|discriminate]. }
  exact (proj2 (launch_does_not_redock Scene.math a _ w F H)
               Scene.hands_off (conj eq_refl eq_refl)).
Defined.

(** X20.  The ship of a new game starts at (100, 100), which is within the
    docking range of 200, and at rest: unless a thrust key is already
    held, the first frame of the game calls [onDock], and the application
    is at the station, the ship snapped to its centre, before any frame
    is drawn. *)
Theorem new_game_docks_at_once (M : MathLib) (inp : Input) (w : World) :
  KeyW inp = false /\ ArrowUp inp = false ->
  let a := App.handleStartGame (App.initial M) in
  ship w = App.playerState a ->
  let a' := App.frame M inp a w in
  (exists w', loop M inp w = Dock (ship w') w')
  /\ App.gameState a' = DOCKED
  /\ position (App.playerState a') = STATION_POSITION
  /\ velocity (App.playerState a') = Point.mk 0 0
  /\ credits (App.playerState a') = 0
  /\ shipConfig (App.playerState a') = INITIAL_SHIP_CONFIG.
Proof.
  intros K a E a'.
  assert (T : 0 <= maxSpeed (shipConfig (ship w))) by (rewrite E; discriminate).
  assert (S : Point.x (velocity (ship w)) * Point.x (velocity (ship w))
              + Point.y (velocity (ship w)) * Point.y (velocity (ship w))
              <= maxSpeed (shipConfig (ship w)) * maxSpeed (shipConfig (ship w)))
    by (rewrite E; discriminate).
  destruct (coast_physics M inp K (withUsed 0 w) T S) as (V1 & P1 & Sq & F1).
  cbn [withUsed ship] in V1, P1, F1, Sq.
  rewrite E in V1, P1, F1, Sq.
  cbn [a App.handleStartGame App.initial App.playerState velocity position
       currentFuel Point.x Point.y] in V1, P1, F1, Sq.
  pose proof (loop_cases M inp w) as C.
  pose proof (loop_hull M inp w) as H.
  destruct (update M inp w) as [[w6 aim]|] eqn:U.
  - destruct (update_ship M inp w w6 aim U) as ((_ & _ & P6 & _) & _).
    assert (D : docks (speedSq M inp (withUsed 0 w)) w6 = true).
    { apply docks_spec. rewrite P6, P1, Sq. split; reflexivity. }
    destruct C as [_ C]. rewrite D in C.
    assert (A' : a' = App.handleDock (ship w6) a).
    { unfold a', App.frame. cbn [a App.handleStartGame App.gameState].
      now rewrite C. }
    rewrite C in H. cbn [worldOf] in H. destruct H as [Hc Hs]. rewrite E in Hc, Hs.
    split; [now exists w6|]. rewrite A'.
    cbn [App.handleDock App.gameState App.playerState position velocity
         credits shipConfig].
    repeat split; assumption.
  - exfalso. destruct C as [C _]. apply idle_None in C. destruct C as [C _].
    unfold fuel in C. rewrite F1 in C. revert C. apply Qlt_not_le. reflexivity.
Qed.

(** The new game with no key held, in empty space. *)
Lemma new_game_docks_at_once_witness :
  App.gameState
    (App.frame Scene.math Scene.hands_off
       (App.handleStartGame (App.initial Scene.math))
       (Scene.space (App.playerState (App.initial Scene.math))))
  = DOCKED.
Proof.
  exact (proj1 (proj2
    (new_game_docks_at_once Scene.math Scene.hands_off
       (Scene.space (App.playerState (App.initial Scene.math)))
       (conj eq_refl eq_refl) eq_refl))).
Defined.

End AppFacts.
